(** * PartSelect chat backend: the orchestration core of [backend/api.js]

    A shallow embedding of the request path of [backend/api.js] and
    [backend/deepseek.js]: the circuit breaker around the two completion
    providers, the Redis session-context helpers, the conversation-flow
    heuristics, the intent classifier, the orchestrator, the domain agents
    it dispatches to, and the chat route; then the two other routes and the
    cleanup timer of [backend/api.js], and the user id of the frontend's API
    client.

    Asynchronous JavaScript is rendered in a state-and-exception monad
    [M].  Everything outside the process (the two completion providers,
    Redis, PostgreSQL, the embeddings endpoint, the clock) is an oracle
    [Env], asked at the number of external calls made so far, so that a
    statement quantified over every [Env] covers every behaviour of the
    collaborators.  Every external call and every assignment to the
    breaker's variables is appended to a trace.

    What the embedding leaves out or fixes:
    - logging ([logger.info] and the like) has no effect on control flow
      and is not modelled;
    - strings are byte strings, exact on ASCII text;
    - a provider that answers, answers with a string;
    - [JSON.parse] belongs to the runtime and is a parameter, read at the
      shape that its caller goes on to use (an intent, a context whose
      slots hold strings or null, a diagnosis, search parameters);
    - the long prompt texts are kept symbolic ([Prompt]);
    - the chat route starts where [message] has been made a string. *)

From Stdlib Require Import ZArith QArith Lia Ascii String.
From stdpp Require Import gmap strings list pretty.

Local Open Scope string_scope.
Local Open Scope list_scope.
Local Open Scope Z_scope.

(** ** Exceptions and results *)

(** A thrown JavaScript error: the constructor name and the message. *)
Inductive Exn : Type :=
| Throw (name message : string).

Definition Error (message : string) : Exn := Throw "Error" message.
Definition TypeError (message : string) : Exn := Throw "TypeError" message.
Definition SyntaxError (message : string) : Exn := Throw "SyntaxError" message.

Inductive Res (A : Type) : Type :=
| Ok (a : A)
| Err (e : Exn).
Arguments Ok {A} a.
Arguments Err {A} e.

(** ** Conversation turns and completion options *)

Record Turn : Type := { role : string; content : string }.

Inductive SystemPrompt : Type :=
| SP_default | SP_troubleshooting | SP_installation | SP_orderSupport
| SP_general (conversationContext query : string)
| SP_extract.

(** The text handed to a provider as the user message.  The long prompt
    templates of the source are kept symbolic: the constructor names the
    template and its arguments are the interpolated values. *)
Inductive Prompt : Type :=
| P_query (query : string)
| P_classify (query : string) (recent : list Turn)
| P_suggestion (query : string) (model_number : option string) (recent : list Turn)
| P_extract (query : string)
| P_searchResponse (query : string) (found : nat)
| P_analyze (query : string) (recent : list Turn)
| P_solution (query : string) (recent : list Turn)
| P_installation (partNumber : string).

Record Options : Type := {
  systemPrompt : option SystemPrompt;
  temperature : option Q;
  maxTokens : option Z;
  responseFormat : option string
}.

(** ** The circuit breaker's module-level variables *)

Inductive BreakerState : Type := CLOSED | OPEN | HALF_OPEN.

#[global] Instance BreakerState_eq_dec : EqDecision BreakerState.
Proof. solve_decision. Defined.

Record Breaker : Type := {
  circuitBreakerState : BreakerState;
  failureCount : Z;
  lastFailureTime : Z
}.

Definition CIRCUIT_BREAKER_THRESHOLD : Z := 3.
Definition CIRCUIT_BREAKER_RESET_TIME : Z := 30000.

(** [let circuitBreakerState = 'CLOSED'; let failureCount = 0;
     let lastFailureTime = 0;] *)
Definition initial_breaker : Breaker :=
  {| circuitBreakerState := CLOSED; failureCount := 0; lastFailureTime := 0 |}.

(** [failureCount++] on a JavaScript number: exact below 2^53, where the
    next integer is no longer representable and the sum rounds back. *)
Definition js_incr (n : Z) : Z := if n <? 2 ^ 53 then n + 1 else n.

(** ** Session context and stored values *)

(** A slot holds a string or [null]; a missing key reads as [undefined]. *)
Abbreviation Context := (gmap string (option string)).

Inductive Provider : Type := DeepSeek | OpenAI.

(** ** Events: what a request does that the outside can observe *)

Inductive Event : Type :=
| EvState (s : BreakerState)            (* circuitBreakerState = s *)
| EvCount (n : Z)                       (* failureCount = n *)
| EvLast (t : Z)                        (* lastFailureTime = t *)
| EvNow                                 (* Date.now() *)
| EvProvider (p : Provider) (userMessage : Prompt) (seen : Breaker)
    (* axios.post to a provider; [seen] is the breaker as it stands while
       the request is pending *)
| EvRedisGet (key : string)
| EvRedisSetContext (key : string) (value : Context) (ttl : Z)
| EvRedisSet (key : string) (ttl : Z)
| EvRedisDel (key : string)
| EvDb (sql : string)
| EvEmbed (input : string)
| EvSleep (ms : Z).

(** ** The process state *)

Record World : Type := {
  breaker : Breaker;
  tick : nat;              (* external calls made so far *)
  trace : list Event
}.

Definition initial_world : World :=
  {| breaker := initial_breaker; tick := 0; trace := [] |}.

(** ** The monad *)

Definition M (A : Type) : Type := World -> Res A * World.

Definition ret {A} (a : A) : M A := fun w => (Ok a, w).

Definition bind {A B} (m : M A) (k : A -> M B) : M B :=
  fun w => match m w with
           | (Ok a, w') => k a w'
           | (Err e, w') => (Err e, w')
           end.

Definition throw {A} (e : Exn) : M A := fun w => (Err e, w).

(** [try { body } catch (err) { handler }] *)
Definition try_catch {A} (body : M A) (handler : Exn -> M A) : M A :=
  fun w => match body w with
           | (Ok a, w') => (Ok a, w')
           | (Err e, w') => handler e w'
           end.

Declare Scope js_scope.
Delimit Scope js_scope with js.
Notation "x <- m ;; k" := (bind m (fun x => k))
  (at level 100, m at next level, k at level 200, right associativity) : js_scope.
Notation "m ;;; k" := (bind m (fun _ => k))
  (at level 100, k at level 200, right associativity) : js_scope.
Local Open Scope js_scope.

Definition emit (ev : Event) : M unit :=
  fun w => (Ok tt, {| breaker := breaker w; tick := tick w; trace := trace w ++ [ev] |}).

Definition read_breaker : M Breaker := fun w => (Ok (breaker w), w).

Definition write_breaker (b : Breaker) : M unit :=
  fun w => (Ok tt, {| breaker := b; tick := tick w; trace := trace w |}).

(** Reads of the three variables. *)
Definition get_circuitBreakerState : M BreakerState :=
  b <- read_breaker ;; ret (circuitBreakerState b).
Definition get_failureCount : M Z :=
  b <- read_breaker ;; ret (failureCount b).
Definition get_lastFailureTime : M Z :=
  b <- read_breaker ;; ret (lastFailureTime b).

(** Assignments to the three variables. *)
Definition set_circuitBreakerState (s : BreakerState) : M unit :=
  b <- read_breaker ;;
  write_breaker {| circuitBreakerState := s; failureCount := failureCount b;
                   lastFailureTime := lastFailureTime b |} ;;;
  emit (EvState s).
Definition set_failureCount (n : Z) : M unit :=
  b <- read_breaker ;;
  write_breaker {| circuitBreakerState := circuitBreakerState b; failureCount := n;
                   lastFailureTime := lastFailureTime b |} ;;;
  emit (EvCount n).
Definition set_lastFailureTime (t : Z) : M unit :=
  b <- read_breaker ;;
  write_breaker {| circuitBreakerState := circuitBreakerState b;
                   failureCount := failureCount b; lastFailureTime := t |} ;;;
  emit (EvLast t).

(** An external call: it is logged, its answer is the oracle's at the
    current tick, and the tick advances. *)
Definition external {A} (ev : Event) (answer : nat -> A) : M A :=
  fun w => (Ok (answer (tick w)),
            {| breaker := breaker w; tick := S (tick w); trace := trace w ++ [ev] |}).

(** ** JavaScript strings

    Strings are byte strings; the functions below are the JavaScript ones
    on ASCII text (bytes from 128 on are left alone and never match an
    ASCII letter, digit or blank). *)

Definition is_upper (c : ascii) : bool :=
  let n := nat_of_ascii c in ((65 <=? n) && (n <=? 90))%nat.
Definition is_lower (c : ascii) : bool :=
  let n := nat_of_ascii c in ((97 <=? n) && (n <=? 122))%nat.
Definition is_digit (c : ascii) : bool :=
  let n := nat_of_ascii c in ((48 <=? n) && (n <=? 57))%nat.
(** Blanks of [String.prototype.trim] and of [\s]. *)
Definition is_space (c : ascii) : bool :=
  let n := nat_of_ascii c in (((9 <=? n) && (n <=? 13)) || (n =? 32))%nat.
(** [\w] *)
Definition is_word (c : ascii) : bool :=
  is_upper c || is_lower c || is_digit c || Ascii.eqb c "_".

Definition lower_char (c : ascii) : ascii :=
  if is_upper c then ascii_of_nat (nat_of_ascii c + 32) else c.
Definition upper_char (c : ascii) : ascii :=
  if is_lower c then ascii_of_nat (nat_of_ascii c - 32) else c.

Fixpoint map_string (f : ascii -> ascii) (s : string) : string :=
  match s with
  | EmptyString => EmptyString
  | String c s' => String (f c) (map_string f s')
  end.

Definition toLowerCase : string -> string := map_string lower_char.
Definition toUpperCase : string -> string := map_string upper_char.

(** [s.includes(sub)] *)
Fixpoint includes (s sub : string) : bool :=
  String.prefix sub s ||
  match s with
  | EmptyString => false
  | String _ s' => includes s' sub
  end.

Fixpoint trimStart (s : string) : string :=
  match s with
  | String c s' => if is_space c then trimStart s' else s
  | EmptyString => EmptyString
  end.

Fixpoint trimEnd (s : string) : string :=
  match s with
  | EmptyString => EmptyString
  | String c s' =>
      match trimEnd s' with
      | EmptyString => if is_space c then EmptyString else String c EmptyString
      | t => String c t
      end
  end.

(** [s.trim()] *)
Definition trim (s : string) : string := trimEnd (trimStart s).

(** [xs.join(sep)] *)
Fixpoint join (sep : string) (xs : list string) : string :=
  match xs with
  | [] => ""
  | [x] => x
  | x :: rest => x +:+ sep +:+ join sep rest
  end.

(** [xs.slice(-n)]: the last [n] elements. *)
Definition slice_last {A} (n : nat) (xs : list A) : list A :=
  drop (length xs - n) xs.

(** [xs.slice().reverse().find(p)] *)
Definition find_last {A} (p : A -> bool) (xs : list A) : option A :=
  List.find p (rev xs).

(** [s.substring(0, n)] *)
Definition substring0 (n : nat) (s : string) : string := String.substring 0 n s.

(** [s.split(/\s+/)] *)
Fixpoint split_go (in_blank : bool) (cur : string) (s : string) : list string :=
  match s with
  | EmptyString => [cur]
  | String c s' =>
      if is_space c
      then if in_blank then split_go true cur s' else cur :: split_go true "" s'
      else split_go false (cur +:+ String c "") s'
  end.
Definition split_blanks (s : string) : list string := split_go false "" s.

(** [s.split(/[.?!]/)[0]] *)
Fixpoint first_sentence (s : string) : string :=
  match s with
  | EmptyString => EmptyString
  | String c s' =>
      if Ascii.eqb c "." || Ascii.eqb c "?" || Ascii.eqb c "!"
      then EmptyString
      else String c (first_sentence s')
  end.

Definition nl : string := String (ascii_of_nat 10) "".

(** [x || d] on a string that may be null or undefined. *)
Definition or_else (x : option string) (d : string) : string :=
  match x with
  | Some s => if String.eqb s "" then d else s
  | None => d
  end.

(** Truthiness of a string that may be null or undefined. *)
Definition truthy_str (x : option string) : bool :=
  match x with Some s => negb (String.eqb s "") | None => false end.

(** [context.slot]: [None] when the slot is missing or null. *)
Definition slot (context : gmap string (option string)) (k : string) : option string :=
  match context !! k with
  | Some v => v
  | None => None
  end.

(** A JavaScript string in a boolean position. *)
Definition nonempty (s : string) : bool := negb (String.eqb s "").

(** ** Regular expressions

    The handful of constructs that the regular expressions of the source
    use, matched the way the runtime does: leftmost, alternatives in
    order, repetitions greedy, backtracking into the continuation. *)

Inductive Re : Type :=
| Eps
| Chr (c : ascii)                 (* a literal character *)
| Cls (f : ascii -> bool)         (* a class: \d, \s, [A-Z0-9] *)
| Seq (r1 r2 : Re)
| Alt (r1 r2 : Re)
| StarCls (f : ascii -> bool)     (* [f]*, greedy *)
| Bol                             (* ^ *)
| WordB.                          (* \b *)

Definition head_char (s : string) : option ascii :=
  match s with String c _ => Some c | EmptyString => None end.

Definition is_word_opt (c : option ascii) : bool :=
  match c with Some a => is_word a | None => false end.

Section Matcher.
Variable ignoreCase : bool.   (* the /i flag *)

Definition chr_matches (c a : ascii) : bool :=
  if ignoreCase then Ascii.eqb (upper_char a) (upper_char c) else Ascii.eqb a c.

Definition cls_matches (f : ascii -> bool) (a : ascii) : bool :=
  if ignoreCase then f a || f (upper_char a) || f (lower_char a) else f a.

(** [f]* against [s], longest run first. *)
Fixpoint star_cls (f : ascii -> bool) (prev : option ascii) (s : string)
         (k : option ascii -> string -> option string) : option string :=
  match s with
  | String a s' =>
      if cls_matches f a
      then match star_cls f (Some a) s' k with
           | Some rest => Some rest
           | None => k prev s
           end
      else k prev s
  | EmptyString => k prev s
  end.

(** Match [r] at the front of [s], [prev] being the character before it;
    on success the continuation receives what is left. *)
Fixpoint match_here (r : Re) (prev : option ascii) (s : string)
         (k : option ascii -> string -> option string) : option string :=
  match r with
  | Eps => k prev s
  | Chr c =>
      match s with
      | String a s' => if chr_matches c a then k (Some a) s' else None
      | EmptyString => None
      end
  | Cls f =>
      match s with
      | String a s' => if cls_matches f a then k (Some a) s' else None
      | EmptyString => None
      end
  | Seq r1 r2 => match_here r1 prev s (fun p s' => match_here r2 p s' k)
  | Alt r1 r2 =>
      match match_here r1 prev s k with
      | Some rest => Some rest
      | None => match_here r2 prev s k
      end
  | StarCls f => star_cls f prev s k
  | Bol => match prev with None => k prev s | Some _ => None end
  | WordB =>
      if xorb (is_word_opt prev) (is_word_opt (head_char s)) then k prev s else None
  end.

(** The text matched at the front of [s], if any. *)
Definition match_at (r : Re) (prev : option ascii) (s : string) : option string :=
  match match_here r prev s (fun _ rest => Some rest) with
  | Some rest => Some (String.substring 0 (String.length s - String.length rest) s)
  | None => None
  end.

(** [s.match(r)[0]]: the leftmost match. *)
Fixpoint search_from (r : Re) (prev : option ascii) (s : string) : option string :=
  match match_at r prev s with
  | Some m => Some m
  | None =>
      match s with
      | String a s' => search_from r (Some a) s'
      | EmptyString => None
      end
  end.
End Matcher.

(** [s.match(/r/i)] and [/r/i.test(s)] *)
Definition match_i (r : Re) (s : string) : option string := search_from true r None s.
Definition test_i (r : Re) (s : string) : bool :=
  match match_i r s with Some _ => true | None => false end.

(** A literal word, character by character. *)
Fixpoint Lit (s : string) : Re :=
  match s with
  | EmptyString => Eps
  | String c s' => Seq (Chr c) (Lit s')
  end.

(** [r1|r2|...] *)
Fixpoint Alts (rs : list Re) : Re :=
  match rs with
  | [] => Cls (fun _ => false)
  | [r] => r
  | r :: rest => Alt r (Alts rest)
  end.

(** [r{n}] *)
Fixpoint Times (n : nat) (r : Re) : Re :=
  match n with
  | O => Eps
  | S n' => Seq r (Times n' r)
  end.

(** [r{0,n}], greedy. *)
Fixpoint UpTo (n : nat) (r : Re) : Re :=
  match n with
  | O => Eps
  | S n' => Alt (Seq r (UpTo n' r)) Eps
  end.

(** [r{lo,hi}] *)
Definition Between (lo hi : nat) (r : Re) : Re := Seq (Times lo r) (UpTo (hi - lo) r).
(** [[f]{n,}] *)
Definition AtLeast (n : nat) (f : ascii -> bool) : Re := Seq (Times n (Cls f)) (StarCls f).

Definition D : Re := Cls is_digit.                                  (* \d *)
Definition AZ : ascii -> bool := is_upper.                          (* [A-Z] *)
Definition AZ09 : ascii -> bool := fun c => is_upper c || is_digit c. (* [A-Z0-9] *)

(** ** Intents *)

(** A JSON scalar, as found in an intent's entity bag. *)
Inductive Scalar : Type :=
| SNull | SBool (b : bool) | SNum (q : Q) | SStr (s : string).

(** JavaScript truthiness of a scalar. *)
Definition truthy (v : Scalar) : bool :=
  match v with
  | SNull => false
  | SBool b => b
  | SNum q => negb (Qeq_bool q 0)
  | SStr s => negb (String.eqb s "")
  end.

(** The classifier's result, at the shape the classification prompt asks
    for: [{ "primary": ..., "confidence": ..., "entities": {...} }]. *)
Record Intent : Type := {
  primary : string;
  confidence : Q;
  entities : gmap string Scalar
}.

(** ** Agent responses *)

(** One database row of [parts], as far as the agents read it. *)
Record Row : Type := {
  row_id : Z;
  row_part_number : string;
  row_name : string
}.

(** A product as [formatProducts] hands it to the frontend; [source] stands
    for the columns that are copied over unread. *)
Record Product : Type := {
  partNumber : string;
  name : string;
  productUrl : string;
  source : Row
}.

(** The UI actions that the source builds, by their [type] tag. *)
Inductive Action : Type :=
| input_prompt (field placeholder : string)
| button_group (buttons : list (string * string))
| next_steps (buttons : list (string * string))
| product_cards (products : list Product)
| add_to_cart (partNumber : string)
| troubleshooting_wizard (steps : option (list string))
| installation_guide (videoUrl pdfUrl estimatedTime difficulty : string) (tools : list string)
| conversation_completion (suggestions : list string).

(** [a.type] *)
Definition action_type (a : Action) : string :=
  match a with
  | input_prompt _ _ => "input_prompt"
  | button_group _ => "button_group"
  | next_steps _ => "next_steps"
  | product_cards _ => "product_cards"
  | add_to_cart _ => "add_to_cart"
  | troubleshooting_wizard _ => "troubleshooting_wizard"
  | installation_guide _ _ _ _ _ => "installation_guide"
  | conversation_completion _ => "conversation_completion"
  end.

(** What an agent returns; an absent property is [None]. *)
Record AgentResponse : Type := {
  message : option string;
  products : option (list Product);
  actions : option (list Action)
}.

Record Metadata : Type := { meta_intent : string; meta_confidence : Q }.

(** The envelope [formatResponse] builds. *)
Record Response : Type := {
  resp_message : option string;
  resp_products : list Product;
  resp_actions : list Action;
  resp_metadata : Metadata
}.

Record FlowContext : Type := { stage : string; topic : option string }.

(** ** The collaborators *)

(** The diagnosis object the troubleshooting prompt asks for. *)
Record Analysis : Type := {
  likelyCause : option string;
  steps : option (list string);
  parts : option (list string)
}.

(** The object the search-parameter prompt asks for. *)
Record SearchParams : Type := {
  part_number : option string;
  model_number : option string;
  keywords : option (list string)
}.

Record ConvRow : Type := { conv_id : Z; last_activity_at : Z (* milliseconds *) }.
Record MessageRow : Type := { sender : string; msg_content : string }.

(** What the chat route answers. *)
Inductive HttpResponse : Type :=
| Json200 (role : string) (content : option string) (products : list Product)
          (actions : list Action) (metadata : Metadata) (conversation_id : Z)
| Json400 (error : string)
| Json500 (error role content : string).

(** What [checkCompatibility] returns. *)
Record CompatResult : Type := {
  isCompatible : bool;
  details : string;
  alternativeSuggestion : option string
}.

(** Answers of the outside world.  The fields indexed by [nat] are asked at
    the current tick; [JSON_parse_*] is the runtime's [JSON.parse] read at
    the shape its caller expects, [None] when it throws a SyntaxError. *)
Record Env : Type := {
  Date_now : nat -> Z;
  deepseek_reply : nat -> option string;   (* None: the request or the reading of its body failed *)
  openai_reply : nat -> option string;
  redis_get : nat -> Res (option string);  (* Ok None: the key is absent or expired *)
  redis_set : nat -> Res unit;
  redis_del : nat -> Res unit;
  db_query : nat -> Res (list Row);                 (* rows of [parts] *)
  db_conversations : nat -> Res (list ConvRow);     (* rows of [conversations] *)
  db_messages : nat -> Res (list MessageRow);       (* rows of [messages] *)
  embeddings_reply : nat -> Res (option string);
    (* Ok (Some v): the embedding, joined into a vector literal;
       Ok None: a body without [data[0].embedding] *)
  JSON_parse_context : string -> option Context;
  JSON_parse_intent : string -> option Intent;
  JSON_parse_analysis : string -> option Analysis;
  JSON_parse_params : string -> option SearchParams;
  JSON_parse_products : string -> option (list Product);
  JSON_parse_compat : string -> option CompatResult
}.

(** Re-raise the answer of a collaborator that rejects. *)
Definition settle {A} (r : Res A) : M A :=
  match r with Ok a => ret a | Err e => throw e end.

Section Backend.

Variable env : Env.

Definition Date_now_call : M Z := external EvNow (Date_now env).

(** *** [deepseek.js]: callDeepSeek *)
Definition callDeepSeek (userMessage : Prompt) (history : list Turn) (options : Options)
  : M string :=
  try_catch
    (b <- read_breaker ;;
     res <- external (EvProvider DeepSeek userMessage b) (deepseek_reply env) ;;
     match res with
     | Some text => ret text
     | None => throw (Error "Request failed")
     end)
    (fun error => throw (Error "DeepSeek call failed")).

(** *** callOpenAI *)
Definition callOpenAI (userMessage : Prompt) (history : list Turn) (options : Options)
  : M string :=
  try_catch
    (b <- read_breaker ;;
     response <- external (EvProvider OpenAI userMessage b) (openai_reply env) ;;
     match response with
     | Some text => ret text
     | None => throw (Error "Request failed")
     end)
    (fun err => throw (Error "OpenAI call failed")).

(** *** callWithBreaker *)
Definition callWithBreaker (userMessage : Prompt) (history : list Turn) (options : Options)
  : M string :=
  (* Check breaker state *)
  state <- get_circuitBreakerState ;;
  (if decide (state = OPEN) then
     now <- Date_now_call ;;
     last <- get_lastFailureTime ;;
     let elapsed := now - last in
     if elapsed <? CIRCUIT_BREAKER_RESET_TIME
     then throw (Error "AI temporarily unavailable (circuit open)")
     else set_circuitBreakerState HALF_OPEN
   else ret tt) ;;;
  try_catch
    ((* Try DeepSeek first *)
     result <- callDeepSeek userMessage history options ;;
     (* Reset breaker on success *)
     set_failureCount 0 ;;;
     set_circuitBreakerState CLOSED ;;;
     ret result)
    (fun err =>
       (* Count as failure for breaker *)
       n <- get_failureCount ;;
       set_failureCount (js_incr n) ;;;
       now <- Date_now_call ;;
       set_lastFailureTime now ;;;
       n' <- get_failureCount ;;
       (if CIRCUIT_BREAKER_THRESHOLD <=? n'
        then set_circuitBreakerState OPEN
        else ret tt) ;;;
       (* Try OpenAI fallback *)
       try_catch
         (fallback <- callOpenAI userMessage history options ;;
          set_failureCount 0 ;;;
          set_circuitBreakerState CLOSED ;;;
          ret fallback)
         (fun openaiErr => throw openaiErr)).

(** *** Redis-based context helpers *)

Definition context_key (userId : string) : string := "context:" +:+ userId.

(** [JSON.parse(text)], read with [parse]. *)
Definition JSON_parse {A} (parse : string -> option A) (text : string) : M A :=
  match parse text with
  | Some v => ret v
  | None => throw (SyntaxError "Unexpected token in JSON")
  end.

(** [await redis.get(key)] and its siblings: a rejected promise throws. *)
Definition redis_get_call (key : string) : M (option string) :=
  r <- external (EvRedisGet key) (redis_get env) ;; settle r.
Definition redis_set_context_call (key : string) (value : Context) (ttl : Z) : M unit :=
  r <- external (EvRedisSetContext key value ttl) (redis_set env) ;; settle r.
Definition redis_set_call (key : string) (ttl : Z) : M unit :=
  r <- external (EvRedisSet key ttl) (redis_set env) ;; settle r.
Definition redis_del_call (key : string) : M unit :=
  r <- external (EvRedisDel key) (redis_del env) ;; settle r.

Definition getUserContext (userId : string) : M Context :=
  data <- redis_get_call (context_key userId) ;;
  match data with
  | Some text => if nonempty text then JSON_parse (JSON_parse_context env) text else ret ∅
  | None => ret ∅
  end.

Definition setUserContext (userId : string) (context : Context) : M unit :=
  redis_set_context_call (context_key userId) context 3600.

Definition clearUserContext (userId : string) : M unit :=
  redis_del_call (context_key userId).

(** Fall back for Redis *)
Definition safeRedisGet {A} (parse : string -> option A) (key : string) : M (option A) :=
  try_catch
    (data <- redis_get_call key ;;
     match data with
     | Some text =>
         if nonempty text then v <- JSON_parse parse text ;; ret (Some v) else ret None
     | None => ret None
     end)
    (fun err => ret None).

Definition safeRedisSet (key : string) (ttl : Z) : M unit :=
  try_catch (redis_set_call key ttl) (fun err => ret tt).

(** *** Retry wrapper: [retry(fn)] with its defaults, three attempts half a
    second apart. *)
Fixpoint retry_loop {A} (fn : M A) (more : nat) : M A :=
  try_catch fn
    (fun err =>
       match more with
       | O => throw err                       (* isLastAttempt *)
       | S more' => emit (EvSleep 500) ;;; retry_loop fn more'
       end).

Definition retry {A} (fn : M A) : M A := retry_loop fn 2.

(** *** Helper to understand conversation flow *)

Definition is_assistant (h : Turn) : bool := String.eqb (role h) "assistant".

Definition getConversationContext (history : list Turn) : FlowContext :=
  if (length history =? 0)%nat then {| stage := "initial"; topic := None |}
  else
    let recentMessages := slice_last 5 history in
    match find_last is_assistant recentMessages with
    | None => {| stage := "initial"; topic := None |}
    | Some lastAssistant =>
        let content := toLowerCase (content lastAssistant) in
        if includes content "step" || includes content "troubleshoot" then
          {| stage := "diagnostic_given"; topic := Some "troubleshooting" |}
        else if includes content "compatible" || includes content "model" then
          {| stage := "ongoing"; topic := Some "compatibility" |}
        else if includes content "install" then
          {| stage := "ongoing"; topic := Some "installation" |}
        else if includes content "part" && includes content "$" then
          {| stage := "ongoing"; topic := Some "product_recommendation" |}
        else {| stage := "ongoing"; topic := None |}
    end.

(** *** Intent Classification Agent *)

(** [/^(should|would|do i|can i|is it|what if)/i] *)
Definition questioning : Re :=
  Seq Bol (Alts (map Lit ["should"; "would"; "do i"; "can i"; "is it"; "what if"])).

(** [/^(yes|yeah|yep|sure|ok|okay|should i|do i need|what about)/i]; the
    source defines it and never tests it. *)
Definition affirmative : Re :=
  Seq Bol (Alts (map Lit ["yes"; "yeah"; "yep"; "sure"; "ok"; "okay"; "should i";
                          "do i need"; "what about"])).

Definition followUp_intent : Intent :=
  {| primary := "general_question"; confidence := 85 # 100;
     entities := <["isFollowUp" := SBool true]> (<["context" := SStr "troubleshooting"]> ∅) |}.

Definition fallback_intent : Intent :=
  {| primary := "general_question"; confidence := 5 # 10; entities := ∅ |}.

Definition classify (query : string) (history : list Turn) : M Intent :=
  let provider_path : M Intent :=
    (* Build richer conversation context (last 5 messages) *)
    let conversationContext :=
      map (fun h => {| role := role h; content := substring0 150 (content h) |})
          (slice_last 5 history) in
    let prompt := P_classify query conversationContext in
    response <- callWithBreaker prompt []
                  {| systemPrompt := None; temperature := Some (3 # 10);
                     maxTokens := None; responseFormat := Some "json" |} ;;
    try_catch (JSON_parse (JSON_parse_intent env) response)
              (fun e => ret fallback_intent) in
  (* If it's a follow-up question, infer from context *)
  if test_i questioning (trim query) then
    match find_last is_assistant history with
    | Some lastAssistant =>
        if nonempty (content lastAssistant) then
          let content := toLowerCase (content lastAssistant) in
          (* If we just gave troubleshooting advice *)
          if includes content "step" || includes content "troubleshoot"
          then ret followUp_intent
          else provider_path
        else provider_path
    | None => provider_path
    end
  else provider_path.

(** *** Product Search Agent *)

Definition db_query_call (sql : string) : M (list Row) :=
  r <- external (EvDb sql) (db_query env) ;; settle r.

Definition embeddings_call (input : string) : M (option string) :=
  r <- external (EvEmbed input) (embeddings_reply env) ;; settle r.

Definition formatProducts (rows : list Row) : list Product :=
  map (fun p => {| partNumber := row_part_number p;
                   name := row_name p;
                   productUrl := "https://www.partselect.com/" +:+ row_part_number p +:+ ".htm";
                   source := p |}) rows.

Definition vector_sql (limit : string) : string :=
  "SELECT *, 1 - (embedding <=> $1::vector) AS similarity FROM parts " +:+
  "WHERE embedding IS NOT NULL ORDER BY embedding <-> $1::vector LIMIT " +:+ limit.

(** [/[A-Z]{3}\d{3,7}[A-Z0-9]{2,}/i] *)
Definition re_model2 : Re := Seq (Times 3 (Cls AZ)) (Seq (Between 3 7 D) (AtLeast 2 AZ09)).
(** [/[A-Z]{3}\d{3,7}[A-Z0-9]{3,}/i] *)
Definition re_model3 : Re := Seq (Times 3 (Cls AZ)) (Seq (Between 3 7 D) (AtLeast 3 AZ09)).
(** [/\bPS\d{6,8}\b/i] *)
Definition re_part68 : Re := Seq WordB (Seq (Lit "PS") (Seq (Between 6 8 D) WordB)).
(** [/WDT\d{3}[A-Z0-9]+|[A-Z]{3}\d{3,7}[A-Z0-9]{3,}/i] *)
Definition re_wdt_or_model : Re :=
  Alt (Seq (Lit "WDT") (Seq (Times 3 D) (AtLeast 1 AZ09))) re_model3.

Definition ProductSearchAgent_extractSearchParams (query : string) : M SearchParams :=
  (* Normalize text *)
  let cleaned := trim query in
  let modelMatch := match_i re_model2 cleaned in
  let partMatch := match_i re_part68 cleaned in
  (* Local quick-parse logic first *)
  if bool_decide (is_Some modelMatch) || bool_decide (is_Some partMatch) then
    let model := toUpperCase <$> modelMatch in
    let kws := filter (fun w => negb (test_i re_model2 w) && negb (test_i re_part68 w) = true)
                      (split_blanks cleaned) in
    ret {| part_number := toUpperCase <$> partMatch;
           model_number := model;
           keywords := Some (if truthy_str model && (length kws =? 0)%nat
                             then kws ++ [or_else model ""]
                             else kws) |}
  else
    (* Otherwise, call AI to interpret natural language (fallback) *)
    try_catch
      (response <- callWithBreaker (P_extract query) []
                     {| systemPrompt := Some SP_extract; temperature := Some (5 # 10);
                        maxTokens := Some 150; responseFormat := Some "json" |} ;;
       JSON_parse (JSON_parse_params env) response)
      (fun err => ret {| part_number := None; model_number := None;
                         keywords := Some (split_blanks cleaned) |}).

Definition ProductSearchAgent_searchProductDatabase (params : SearchParams)
  : M (list Product) :=
  try_catch
    ((* Build a cache key based on query parameters *)
     let cacheKey :=
       "product:" +:+
       (if truthy_str (part_number params) then or_else (part_number params) ""
        else or_else (join "-" <$> keywords params) "unknown") in
     (* Try Redis cache first *)
     cached <- safeRedisGet (JSON_parse_products env) cacheKey ;;
     match cached with
     | Some _ =>
         (* [JSON.parse(cached)] on the array that safeRedisGet has parsed
            already: the array is turned into text first, which is no JSON *)
         throw (SyntaxError "Unexpected token in JSON")
     | None =>
         (* Direct part number search *)
         products <-
           (if truthy_str (part_number params) then
              rows <- retry (db_query_call "SELECT * FROM parts WHERE part_number ILIKE $1") ;;
              ret (if (0 <? length rows)%nat then formatProducts rows else [])
            else ret []) ;;
         (* Vector/keyword search if no part number match *)
         products <-
           (if (length products =? 0)%nat &&
               match keywords params with Some ks => (0 <? length ks)%nat | None => false end
            then
              embedRes <- retry (embeddings_call
                                   (join " " (default [] (keywords params)))) ;;
              match embedRes with
              | None => throw (TypeError "Cannot read properties of undefined")
              | Some vectorLiteral =>
                  rows <- db_query_call (vector_sql "5") ;;
                  ret (formatProducts rows)
              end
            else ret products) ;;
         (* Cache result for 24 hours (86400 seconds) *)
         safeRedisSet cacheKey 86400 ;;;
         ret products
     end)
    (fun err => ret []).

(** Get AI suggestion when no products found *)
Definition ProductSearchAgent_getAISuggestion
    (query : string) (searchParams : SearchParams) (history : list Turn) : M string :=
  try_catch
    (callWithBreaker
       (P_suggestion query (model_number searchParams) (slice_last 3 history)) history
       {| systemPrompt := Some SP_default; temperature := Some (7 # 10);
          maxTokens := Some 200; responseFormat := None |})
    (fun error =>
       ret ("I'd be happy to help you find parts for your " +:+
            or_else (model_number searchParams) "appliance" +:+
            ". Could you tell me more about what you're looking for? For example, " +:+
            "what issue are you experiencing or what part needs replacement?")).

Definition ProductSearchAgent_generateSearchResponse
    (query : string) (products : list Product) (params : SearchParams) : M string :=
  if (length products =? 0)%nat then
    ret ("I don't have specific product listings for that at the moment, but I can help " +:+
         "you find the right parts. Could you tell me more about what you need? For example:" +:+
         nl +:+ nl +:+ "• What's the issue you're experiencing?" +:+ nl +:+
         "• What part are you looking to replace?" +:+ nl +:+
         "• Do you have your appliance model number?")
  else
    try_catch
      (callWithBreaker (P_searchResponse query (length products)) []
         {| systemPrompt := None; temperature := Some (7 # 10);
            maxTokens := Some 150; responseFormat := None |})
      (fun error =>
         ret ("I found " +:+ pretty (length products) +:+
              " compatible parts for you. Take a look at the options below!")).

Definition ProductSearchAgent_search
    (query : string) (context : Context) (history : list Turn) : M AgentResponse :=
  try_catch
    (let lastAssistant := find_last is_assistant history in
     searchParams <-
       match lastAssistant with
       | Some la =>
           if includes (content la) "search for parts" then
             match match_i re_wdt_or_model (content la) with
             | Some m =>
                 ret {| part_number := None; model_number := Some m;
                        keywords := Some [m; "parts"; "compatible"] |}
             | None => ProductSearchAgent_extractSearchParams query
             end
           else ProductSearchAgent_extractSearchParams query
       | None => ProductSearchAgent_extractSearchParams query
       end ;;
     (* If no specific search criteria, ask for model number *)
     if negb (truthy_str (model_number searchParams)) &&
        match keywords searchParams with
        | None => true
        | Some ks => (length ks =? 0)%nat || includes (toLowerCase (join " " ks)) "find parts"
        end
     then
       ret {| message := Some ("I'd be happy to help you find parts! What's your appliance " +:+
                               "model number?" +:+ nl +:+ nl +:+
                               "(It's usually on a sticker inside the fridge compartment " +:+
                               "or on the door frame)");
              products := Some [];
              actions := Some [input_prompt "model_number"
                                 "Enter model number (e.g. WDT780SAEM1)"] |}
     else
       products <- ProductSearchAgent_searchProductDatabase searchParams ;;
       (* If no products found, use AI to provide helpful info *)
       if (length products =? 0)%nat then
         aiSuggestion <- ProductSearchAgent_getAISuggestion query searchParams history ;;
         ret {| message := Some aiSuggestion; products := Some []; actions := Some [] |}
       else
         message <-
           (if (0 <? length products)%nat
            then ret ("I found " +:+ pretty (length products) +:+
                      " compatible parts for your " +:+
                      or_else (model_number searchParams) "appliance" +:+
                      ". Take a look below!")
            else ProductSearchAgent_generateSearchResponse query products searchParams) ;;
         ret {| message := Some message; products := Some products;
                actions := Some [product_cards (take 5 products)] |})
    (fun error =>
       ret {| message := Some ("I'm having trouble right now. Could you tell me more " +:+
                               "about what part you're looking for?");
              products := Some []; actions := Some [] |}).

(** *** Compatibility Agent *)

(** [/\b(PS\d{8})\b|\b(\d{8})\b/i] *)
Definition re_part8 : Re :=
  Alt (Seq WordB (Seq (Lit "PS") (Seq (Times 8 D) WordB)))
      (Seq WordB (Seq (Times 8 D) WordB)).

(** Both [extractEntities] and [extractFromHistory] end in this. *)
Definition extract_part_and_model (text : string) : option string * option string :=
  let partMatch := match_i re_part8 text in
  let modelMatch := match_i re_model3 text in
  (toUpperCase <$> partMatch, toUpperCase <$> modelMatch).

Definition CompatibilityAgent_extractEntities (query : string)
  : M (option string * option string) :=
  ret (extract_part_and_model query).

Definition CompatibilityAgent_extractFromHistory (history : list Turn)
  : M (option string * option string) :=
  let recent := join " " (map content (slice_last 3 history)) in
  ret (extract_part_and_model recent).

Definition unable_to_verify : CompatResult :=
  {| isCompatible := false;
     details := "Unable to verify compatibility at this time.";
     alternativeSuggestion := Some "Please try again or contact support." |}.

Definition CompatibilityAgent_checkCompatibility (partNumber modelNumber : string)
  : M CompatResult :=
  try_catch
    (let cacheKey := "compat:" +:+ partNumber +:+ ":" +:+ modelNumber in
     (* Check Redis first *)
     cached <- safeRedisGet (JSON_parse_compat env) cacheKey ;;
     match cached with
     | Some _ =>
         (* [JSON.parse(cached)] on the object that safeRedisGet has parsed
            already: the object is turned into text first, which is no JSON *)
         throw (SyntaxError "Unexpected token in JSON")
     | None =>
         (* Normal DB lookups *)
         partResult <- db_query_call "SELECT id, name FROM parts WHERE part_number ILIKE $1" ;;
         match partResult with
         | [] =>
             let result :=
               {| isCompatible := false;
                  details := "Part " +:+ partNumber +:+ " not found in our database.";
                  alternativeSuggestion :=
                    Some "Double-check the part number or try searching by part name." |} in
             redis_set_call cacheKey 86400 ;;;
             ret result
         | row :: _ =>
             let partName := row_name row in
             compat <- db_query_call
                         ("SELECT 1 FROM part_compatibility WHERE part_id = $1 " +:+
                          "AND model_number ILIKE $2") ;;
             let isCompatible := (0 <? length compat)%nat in
             let result :=
               {| isCompatible := isCompatible;
                  details :=
                    if isCompatible
                    then "This " +:+ partName +:+ " is designed for your " +:+
                         modelNumber +:+ " model."
                    else "The " +:+ partName +:+
                         " is not listed as compatible with model " +:+ modelNumber +:+ ".";
                  alternativeSuggestion :=
                    if negb isCompatible
                    then Some ("Would you like me to search for parts that fit your " +:+
                               modelNumber +:+ "?")
                    else None |} in
             safeRedisSet cacheKey 86400 ;;;
             ret result
         end
     end)
    (fun err => ret unable_to_verify).

Definition CompatibilityAgent_check
    (query : string) (context : Context) (history : list Turn) (userId : string)
  : M AgentResponse :=
  (* Extract from current query *)
  entities <- CompatibilityAgent_extractEntities query ;;
  let '(partNumber, modelNumber) := entities in
  (* Check history for missing pieces *)
  pm <- (if negb (truthy_str partNumber) || negb (truthy_str modelNumber) then
           historyEntities <- CompatibilityAgent_extractFromHistory history ;;
           ret (if truthy_str partNumber then partNumber else fst historyEntities,
                if truthy_str modelNumber then modelNumber else snd historyEntities)
         else ret (partNumber, modelNumber)) ;;
  let '(partNumber, modelNumber) := pm in
  (* Also check saved context from previous turn *)
  savedContext <- getUserContext userId ;;
  let partNumber :=
    if negb (truthy_str partNumber) && truthy_str (slot savedContext "lastPart")
    then slot savedContext "lastPart" else partNumber in
  let modelNumber :=
    if negb (truthy_str modelNumber) && truthy_str (slot savedContext "lastModel")
    then slot savedContext "lastModel" else modelNumber in
  let asking : Context :=
    <["lastPart" := partNumber]>
      (<["expecting" := Some "model_number_for_compat"]>
         (<["lastIntent" := Some "compatibility_check"]> ∅)) in
  if truthy_str partNumber && negb (truthy_str modelNumber) then
    (* Case 1: Have part, missing model *)
    setUserContext userId asking ;;;
    ret {| message := Some ("Great! I have part number **" +:+ or_else partNumber "" +:+
                            "**. What's your appliance model number?" +:+ nl +:+ nl +:+
                            "(e.g., WDT780SAEM1)");
           products := None;
           actions := Some [input_prompt "model_number"
                              "Enter model number (e.g. WDT780SAEM1)"] |}
  else if negb (truthy_str partNumber) && truthy_str modelNumber then
    (* Case 2: Have model, missing part *)
    setUserContext userId asking ;;;
    ret {| message := Some ("Got your model number **" +:+ or_else modelNumber "" +:+
                            "**! Which part number do you want to check?" +:+ nl +:+ nl +:+
                            "(e.g., PS11752778)");
           products := None;
           actions := Some [input_prompt "part_number"
                              "Enter part number (e.g. PS11752778)"] |}
  else if negb (truthy_str partNumber) && negb (truthy_str modelNumber) then
    (* Case 3: Have neither *)
    ret {| message := Some ("To check compatibility, I need:" +:+ nl +:+
                            "• Part number (e.g., PS11752778)" +:+ nl +:+
                            "• Appliance model number (e.g., WDT780SAEM1)" +:+ nl +:+ nl +:+
                            "Please provide one or both:");
           products := None;
           actions := Some [input_prompt "part_and_model" "Enter part number and model"] |}
  else
    (* Case 4: Have both! Check compatibility *)
    let partNumber := or_else partNumber "" in
    let modelNumber := or_else modelNumber "" in
    (* Clear context since we're done *)
    setUserContext userId ∅ ;;;
    compatible <- CompatibilityAgent_checkCompatibility partNumber modelNumber ;;
    let message :=
      if isCompatible compatible
      then "✓ **Yes!** Part **" +:+ partNumber +:+ "** is compatible with **" +:+
           modelNumber +:+ "**." +:+ nl +:+ nl +:+ details compatible
      else "✗ Unfortunately, part **" +:+ partNumber +:+ "** is not compatible with **" +:+
           modelNumber +:+ "**." +:+ nl +:+ nl +:+
           or_else (alternativeSuggestion compatible)
                   "Try searching for parts specifically for your model." in
    ret {| message := Some message;
           products := Some [];
           actions := Some (if isCompatible compatible then [add_to_cart partNumber] else []) |}.

(** *** Troubleshooting Agent *)

(** [/checked|tested|tried|looked at|inspected|verified|found|discovered/i] *)
Definition re_completed_check : Re :=
  Alts (map Lit ["checked"; "tested"; "tried"; "looked at"; "inspected"; "verified";
                 "found"; "discovered"]).
(** [/broke|broken|damaged|cracked|leaking|not working|failed|bad|worn/i] *)
Definition re_found_issue : Re :=
  Alts (map Lit ["broke"; "broken"; "damaged"; "cracked"; "leaking"; "not working";
                 "failed"; "bad"; "worn"]).
(** [/Step \d:|Troubleshooting Steps:/i] *)
Definition re_giving_steps : Re :=
  Alt (Seq (Lit "Step ") (Seq D (Lit ":"))) (Lit "Troubleshooting Steps:").

(** Returns [shouldSkipToSolution]. *)
Definition detectUserProgress (query : string) (history : list Turn) : bool :=
  let hasCompletedCheck := test_i re_completed_check query in
  let foundIssue := test_i re_found_issue query in
  let lastAssistant := find_last is_assistant history in
  let wasGivingSteps :=
    match lastAssistant with
    | Some la => test_i re_giving_steps (content la)
    | None => false
    end in
  hasCompletedCheck && foundIssue && wasGivingSteps.

Definition TroubleshootingAgent_analyzeProblem
    (query : string) (context : Context) (history : list Turn) : M Analysis :=
  response <- callWithBreaker (P_analyze query (slice_last 3 history)) []
                {| systemPrompt := Some SP_troubleshooting; temperature := Some (5 # 10);
                   maxTokens := None; responseFormat := Some "json" |} ;;
  try_catch (JSON_parse (JSON_parse_analysis env) response)
            (fun e => ret {| likelyCause := Some "Unknown"; steps := Some [];
                             parts := Some [] |}).

Definition TroubleshootingAgent_generateTroubleshootingGuide (analysis : Analysis)
  : M string :=
  let cause := or_else (likelyCause analysis) "Unknown" in
  let conciseCause := trim (first_sentence cause) in
  ret ("Based on the symptoms, this sounds like " +:+ toLowerCase conciseCause +:+ "." +:+
       nl +:+ nl +:+ "  Here's what I recommend checking:" +:+ nl +:+ nl +:+ "  " +:+
       join nl (imap (fun i step => pretty (i + 1)%nat +:+ ". " +:+ step)
                     (default [] (steps analysis))) +:+
       nl +:+ nl +:+ "  Try these steps and let me know what you find! " +:+
       "I'm here if you need help with any of them.").

Definition TroubleshootingAgent_findRelevantParts (analysis : Analysis)
  : M (list Product) :=
  try_catch
    (let searchText :=
       join " " (or_else (likelyCause analysis) "" :: default [] (parts analysis)) in
     if negb (nonempty (trim searchText)) then ret []
     else
       embedRes <- embeddings_call searchText ;;
       match embedRes with
       | None => throw (TypeError "Cannot read properties of undefined")
       | Some vectorLiteral =>
           rows <- db_query_call (vector_sql "3") ;;
           ret (formatProducts rows)
       end)
    (fun err => ret []).

Definition has_parts (analysis : Analysis) : bool :=
  match parts analysis with
  | Some ps => (0 <? length ps)%nat
  | None => false
  end.

Definition TroubleshootingAgent_provideSolution
    (query : string) (context : Context) (history : list Turn) : M AgentResponse :=
  response <- callWithBreaker (P_solution query (slice_last 3 history)) []
                {| systemPrompt := Some SP_troubleshooting; temperature := Some (7 # 10);
                   maxTokens := None; responseFormat := None |} ;;
  analysis <- TroubleshootingAgent_analyzeProblem query context history ;;
  suggestedParts <-
    (if has_parts analysis then TroubleshootingAgent_findRelevantParts analysis else ret []) ;;
  ret {| message := Some response;
         products := Some suggestedParts;
         actions :=
           Some ((if (0 <? length suggestedParts)%nat
                  then [product_cards (take 3 suggestedParts)] else []) ++
                 [next_steps [("Find this part", "search_part");
                              ("Ask another question", "continue");
                              ("Start fresh chat", "new_chat")]]) |}.

Definition TroubleshootingAgent_diagnose
    (query : string) (context : Context) (history : list Turn) : M AgentResponse :=
  (* Check if user found the issue *)
  if detectUserProgress query history then
    TroubleshootingAgent_provideSolution query context history
  else
    analysis <- TroubleshootingAgent_analyzeProblem query context history ;;
    guide <- TroubleshootingAgent_generateTroubleshootingGuide analysis ;;
    suggestedParts <-
      (if has_parts analysis then TroubleshootingAgent_findRelevantParts analysis
       else ret []) ;;
    ret {| message := Some guide;
           products := Some suggestedParts;
           actions := Some [troubleshooting_wizard (steps analysis)] |}.

(** *** Installation Agent *)

(** [/PS\d{8}|\b\d{8}\b/i] *)
Definition re_install_part : Re :=
  Alt (Seq (Lit "PS") (Times 8 D)) (Seq WordB (Seq (Times 8 D) WordB)).

Definition InstallationAgent_extractPartInfo (query : string) : M (option string) :=
  ret (toUpperCase <$> match_i re_install_part query).

Record InstallGuide : Type := {
  instructions : string;
  videoUrl : string;
  pdfUrl : string;
  estimatedTime : string;
  difficulty : string;
  toolsNeeded : list string
}.

Definition InstallationAgent_getInstallationGuide (partNumber : string) : M InstallGuide :=
  instructions <- callWithBreaker (P_installation partNumber) []
                    {| systemPrompt := Some SP_installation; temperature := Some (5 # 10);
                       maxTokens := None; responseFormat := None |} ;;
  ret {| instructions := instructions;
         videoUrl := "https://partselect.com/videos/" +:+ partNumber;
         pdfUrl := "https://partselect.com/guides/" +:+ partNumber +:+ ".pdf";
         estimatedTime := "30-45 minutes";
         difficulty := "Medium";
         toolsNeeded := ["Phillips screwdriver"; "Flathead screwdriver"; "Pliers"] |}.

Definition InstallationAgent_guide
    (query : string) (context : Context) (history : list Turn) : M AgentResponse :=
  entities <- InstallationAgent_extractPartInfo query ;;
  match entities with
  | None =>
      ret {| message := Some ("I'd be happy to help with installation! Which part are " +:+
                              "you installing? Please provide the part number " +:+
                              "(e.g., PS11752778).");
             products := None; actions := None |}
  | Some partNumber =>
      installGuide <- InstallationAgent_getInstallationGuide partNumber ;;
      ret {| message := Some (instructions installGuide);
             products := None;
             actions := Some [installation_guide (videoUrl installGuide) (pdfUrl installGuide)
                                (estimatedTime installGuide) (difficulty installGuide)
                                (toolsNeeded installGuide)] |}
  end.

(** *** Order Support Agent *)

Definition some_includes (s : string) (kws : list string) : bool :=
  existsb (includes s) kws.

Definition OrderSupportAgent_classifyOrderIntent (query : string) : M string :=
  let lowerQuery := toLowerCase query in
  if some_includes lowerQuery ["track"; "status"; "where is"; "shipped"] then ret "track_order"
  else if some_includes lowerQuery ["return"; "refund"; "send back"] then ret "return_request"
  else if some_includes lowerQuery ["shipping"; "delivery"; "how long"; "when will"]
  then ret "shipping_info"
  else ret "general".

Definition OrderSupportAgent_handleOrderTracking (query : string) : M AgentResponse :=
  ret {| message := Some ("I can help you track your order! Please provide your order " +:+
                          "number (e.g., PS123456).");
         products := None;
         actions := Some [input_prompt "order_number" "Enter order number"] |}.

Definition OrderSupportAgent_handleReturn (query : string) : M AgentResponse :=
  ret {| message := Some ("I understand you'd like to return an item. PartSelect offers:" +:+
                          nl +:+ nl +:+ "• 365-day return policy" +:+ nl +:+
                          "• Free return shipping" +:+ nl +:+
                          "• Full refund for unused parts" +:+ nl +:+ nl +:+
                          "Would you like me to start a return request? " +:+
                          "I'll need your order number.");
         products := None;
         actions := Some [button_group [("Start Return", "initiate_return");
                                        ("Return Policy Details", "show_policy")]] |}.

Definition OrderSupportAgent_handleShippingInfo (query : string) : M AgentResponse :=
  ret {| message := Some ("PartSelect offers:" +:+ nl +:+ nl +:+
                          "📦 **Standard Shipping:** 5-7 business days (FREE over $50)" +:+ nl +:+
                          "🚚 **Expedited Shipping:** 2-3 business days" +:+ nl +:+
                          "⚡ **Express Shipping:** 1-2 business days" +:+ nl +:+ nl +:+
                          "Most orders ship within 24 hours!");
         products := None; actions := None |}.

Definition OrderSupportAgent_handleGeneralOrderQuery (query : string) (history : list Turn)
  : M AgentResponse :=
  response <- callWithBreaker (P_query query) history
                {| systemPrompt := Some SP_orderSupport; temperature := Some (7 # 10);
                   maxTokens := None; responseFormat := None |} ;;
  ret {| message := Some response; products := None; actions := None |}.

Definition OrderSupportAgent_assist
    (query : string) (context : Context) (history : list Turn) : M AgentResponse :=
  orderIntent <- OrderSupportAgent_classifyOrderIntent query ;;
  if String.eqb orderIntent "track_order" then OrderSupportAgent_handleOrderTracking query
  else if String.eqb orderIntent "return_request" then OrderSupportAgent_handleReturn query
  else if String.eqb orderIntent "shipping_info" then OrderSupportAgent_handleShippingInfo query
  else OrderSupportAgent_handleGeneralOrderQuery query history.

(** *** Agent System: the orchestrator *)

(** [this.agents] *)
Record Agents : Type := {
  intent_classify : string -> list Turn -> M Intent;
  product_search : string -> Context -> list Turn -> M AgentResponse;
  compatibility_check : string -> Context -> list Turn -> string -> M AgentResponse;
  troubleshooting_diagnose : string -> Context -> list Turn -> M AgentResponse;
  installation_guide_for : string -> Context -> list Turn -> M AgentResponse;
  order_assist : string -> Context -> list Turn -> M AgentResponse
}.

(** The constructor of [AgentOrchestrator]. *)
Definition AgentOrchestrator_constructor : Agents :=
  {| intent_classify := classify;
     product_search := ProductSearchAgent_search;
     compatibility_check := CompatibilityAgent_check;
     troubleshooting_diagnose := TroubleshootingAgent_diagnose;
     installation_guide_for := InstallationAgent_guide;
     order_assist := OrderSupportAgent_assist |}.

Definition with_primary (intent : Intent) (p : string) : Intent :=
  {| primary := p; confidence := confidence intent; entities := entities intent |}.

(** [intent.entities?.isFollowUp], as a condition. *)
Definition isFollowUp (intent : Intent) : bool :=
  match entities intent !! "isFollowUp" with
  | Some v => truthy v
  | None => false
  end.

Section Orchestrator.

Variable agents : Agents.

Definition handleGeneralQuery (query : string) (history : list Turn) : M AgentResponse :=
  (* Build rich context from recent messages *)
  let conversationContext :=
    if (0 <? length history)%nat
    then join (nl +:+ nl)
              (map (fun h => role h +:+ ": " +:+ content h) (slice_last 5 history))
    else "" in
  let systemPrompt := SP_general conversationContext query in
  response <- callWithBreaker (P_query query) history
                {| systemPrompt := Some systemPrompt; temperature := Some (7 # 10);
                   maxTokens := Some 200; responseFormat := None |} ;;
  ret {| message := Some response; products := None; actions := None |}.

(** The class has no method of this name: the call is a call of
    [undefined]. *)
Definition handleOutOfScope (query : string) : M AgentResponse :=
  throw (TypeError "this.handleOutOfScope is not a function").

(** The [switch (intent.primary)] of [routeToAgents]. *)
Definition dispatch (primary : string) (query : string) (context : Context)
    (userId : string) (history : list Turn) : M AgentResponse :=
  if String.eqb primary "product_search" then
    product_search agents query context history
  else if String.eqb primary "compatibility_check" then
    compatibility_check agents query context history userId
  else if String.eqb primary "troubleshooting" then
    troubleshooting_diagnose agents query context history
  else if String.eqb primary "installation_help" then
    installation_guide_for agents query context history
  else if String.eqb primary "order_support" then
    order_assist agents query context history
  else if String.eqb primary "general_question" then
    handleGeneralQuery query history
  else
    handleOutOfScope query.

(** [routeToAgents] assigns to [intent.primary]; the caller goes on to read
    the same object, so the intent is handed back with the response. *)
Definition routeToAgents (intent : Intent) (query : string) (userId : string)
    (history : list Turn) : M (AgentResponse * Intent) :=
  context <- getUserContext userId ;;
  let flowContext := getConversationContext history in
  (* Handle follow-up questions intelligently *)
  if isFollowUp intent && bool_decide (topic flowContext = Some "troubleshooting") then
    response <- handleGeneralQuery query history ;;
    ret (response, intent)
  else
    (* Handle compatibility flow continuation *)
    continued <-
      (if bool_decide (slot context "expecting" = Some "model_number_for_compat") then
         let intent := with_primary intent "compatibility_check" in
         let query := trim (or_else (slot context "lastPart") "" +:+ " " +:+ query) in
         let context : Context := <["expecting" := None]> context in
         setUserContext userId context ;;;
         ret (intent, query, context)
       else ret (intent, query, context)) ;;
    let '(intent, query, context) := continued in
    response <- dispatch (primary intent) query context userId history ;;
    setUserContext userId
      (<["lastTopic" := topic flowContext]> (<["lastIntent" := Some (primary intent)]> context)) ;;;
    ret (response, intent).

Definition completionIndicators : list string :=
  ["you're welcome"; "you're very welcome"; "glad i could help"; "happy to help";
   "let me know if you need"; "any other questions"; "anything else"; "feel free to";
   "good luck with the repair"; "good luck with"; "hope this helps";
   "if you run into any other issues"].

Definition is_input_action (a : Action) : bool :=
  String.eqb (action_type a) "input_prompt" ||
  String.eqb (action_type a) "button_group" ||
  String.eqb (action_type a) "next_steps".

(** Detect if conversation is wrapping up *)
Definition shouldOfferCompletion (agentResponse : AgentResponse) : bool :=
  let message := or_else (toLowerCase <$> message agentResponse) "" in
  (* Don't show completion if there are input prompts (conversation is ongoing) *)
  let hasInputPrompt :=
    match actions agentResponse with
    | Some acts => existsb is_input_action acts
    | None => false
    end in
  if hasInputPrompt then false
  else existsb (fun indicator => includes message indicator) completionIndicators.

Definition completion_offer : Action :=
  conversation_completion ["Find another part"; "Ask something else"; "Start new chat"].

Definition formatResponse (agentResponse : AgentResponse) (intent : Intent) : Response :=
  let response :=
    {| resp_message := message agentResponse;
       resp_products := default [] (products agentResponse);
       resp_actions := default [] (actions agentResponse);
       resp_metadata := {| meta_intent := primary intent;
                           meta_confidence := confidence intent |} |} in
  (* Add completion actions if conversation seems complete *)
  if shouldOfferCompletion agentResponse then
    {| resp_message := resp_message response;
       resp_products := resp_products response;
       resp_actions := resp_actions response ++ [completion_offer];
       resp_metadata := resp_metadata response |}
  else response.

Definition processQuery (userId query : string) (history : list Turn) : M Response :=
  (* Step 1: Classify intent WITH conversation history *)
  intent <- intent_classify agents query history ;;
  (* Step 2: Route to appropriate agent(s) *)
  routed <- routeToAgents intent query userId history ;;
  let '(response, intent) := routed in
  (* Step 3: Format response for frontend *)
  ret (formatResponse response intent).

(** *** The chat route *)

Definition db_conversations_call (sql : string) : M (list ConvRow) :=
  r <- external (EvDb sql) (db_conversations env) ;; settle r.
Definition db_messages_call (sql : string) : M (list MessageRow) :=
  r <- external (EvDb sql) (db_messages env) ;; settle r.

(** Steps 1 to 4 of the route: the conversation and its history. *)
Definition chat_load_history (message userId : string) : M (Z * list Turn) :=
  (* Step 1: Get or create conversation *)
  conversation <- db_conversations_call
                    ("SELECT * FROM conversations WHERE user_id = $1 " +:+
                     "AND (status = 'active' OR status IS NULL) " +:+
                     "ORDER BY last_activity_at DESC LIMIT 1") ;;
  now <- Date_now_call ;;
  (* Step 2: Check timeout (5 minutes) *)
  convId <-
    match conversation with
    | c :: _ =>
        if 5 * 60000 <? now - last_activity_at c then
          db_query_call "UPDATE conversations SET status = 'ended' WHERE id = $1" ;;;
          clearUserContext userId ;;;
          newConv <- db_conversations_call
                       ("INSERT INTO conversations (user_id, status) " +:+
                        "VALUES ($1, 'active') RETURNING id") ;;
          match newConv with
          | n :: _ => ret (conv_id n)
          | [] => throw (TypeError "Cannot read properties of undefined")
          end
        else
          db_query_call
            "UPDATE conversations SET last_activity_at = NOW() WHERE id = $1" ;;;
          ret (conv_id c)
    | [] =>
        clearUserContext userId ;;;
        newConv <- db_conversations_call
                     ("INSERT INTO conversations (user_id, status) " +:+
                      "VALUES ($1, 'active') RETURNING id") ;;
        match newConv with
        | n :: _ => ret (conv_id n)
        | [] => throw (TypeError "Cannot read properties of undefined")
        end
    end ;;
  (* Step 3: Store user message *)
  db_query_call ("INSERT INTO messages (conversation_id, sender, content) " +:+
                 "VALUES ($1, 'user', $2)") ;;;
  (* Step 4: LOAD CONVERSATION HISTORY *)
  historyResult <- db_messages_call
                     ("SELECT sender, content FROM messages " +:+
                      "WHERE conversation_id = $1 ORDER BY created_at ASC") ;;
  let history :=
    map (fun msg => {| role := if String.eqb (sender msg) "user"
                               then "user" else "assistant";
                       content := msg_content msg |}) historyResult in
  ret (convId, history).

(** [app.post('/api/chat', ...)], from the point where [message] is a
    string. *)
Definition chat_route (message userId : string) : M HttpResponse :=
  try_catch
    (let message := trim message in
     if negb (nonempty message) then ret (Json400 "Message is required")
     else
       loaded <- chat_load_history message userId ;;
       let '(convId, history) := loaded in
       (* Step 5: Process with history *)
       response <- processQuery userId message history ;;
       (* Step 6: Store assistant reply *)
       db_query_call ("INSERT INTO messages (conversation_id, sender, content, payload) " +:+
                      "VALUES ($1, 'assistant', $2, $3)") ;;;
       (* the log line reads [response.message.substring(0, 100)] *)
       match resp_message response with
       | None => throw (TypeError "Cannot read properties of undefined")
       | Some _ =>
           (* Step 7: Send response *)
           ret (Json200 "assistant" (resp_message response) (resp_products response)
                        (resp_actions response) (resp_metadata response) convId)
       end)
    (fun error =>
       ret (Json500 "Server error" "assistant"
                    "I'm having trouble right now. Please try again shortly.")).

End Orchestrator.

End Backend.

(** ** The other routes and the cleanup timer *)

(** What the product search route answers. *)
Inductive ProductsSearchResponse : Type :=
| Products200 (products : list Row)
| Products500 (error : string).

Section OtherRoutes.

Variable env : Env.

(** [app.get('/api/products/search', ...)]; [q] and [type] are handed to
    the database as they come. *)
Definition products_search_route (q type : option string) : M ProductsSearchResponse :=
  try_catch
    (results <- db_query_call env
                  ("SELECT * FROM parts WHERE ($1::text IS NULL OR name ILIKE '%' || $1 || '%' " +:+
                   "OR description ILIKE '%' || $1 || '%' OR part_number ILIKE '%' || $1 || '%') " +:+
                   "AND ($2::text IS NULL OR appliance_type ILIKE $2) " +:+
                   "ORDER BY rating DESC NULLS LAST LIMIT 20") ;;
     ret (Products200 results))
    (fun err => ret (Products500 "Database query failed")).

(** [app.post('/api/compatibility/check', ...)], from the point where the
    two fields of the body are strings. *)
Definition compatibility_check_route (partNumber modelNumber : string) : M CompatResult :=
  result <- CompatibilityAgent_checkCompatibility env partNumber modelNumber ;;
  ret result.

(** The callback of [setInterval]: cleanup of idle conversations. *)
Definition cleanup_idle_conversations : M unit :=
  try_catch
    (db_query_call env
       ("UPDATE conversations SET status = 'ended' WHERE status = 'active' " +:+
        "AND NOW() - last_activity_at > INTERVAL '5 minutes'") ;;;
     ret tt)
    (fun err => ret tt).

End OtherRoutes.

(** ** The API client of the frontend: the user id *)

(** [localStorage] *)
Abbreviation Storage := (gmap string string).

Definition user_id_key : string := "partselect_user_id".

(** [`user-${Date.now()}-${Math.random().toString(36).substr(2, 9)}`] *)
Definition fresh_user_id (now : Z) (random : string) : string :=
  "user-" +:+ pretty now +:+ "-" +:+ random.

(** [getUserId()]; [now] and [random] are what [Date.now()] and the random
    suffix are when they are asked for. *)
Definition getUserId (now : Z) (random : string) (localStorage : Storage)
  : string * Storage :=
  let create :=
    let userId := fresh_user_id now random in
    (userId, <[user_id_key := userId]> localStorage) in
  match localStorage !! user_id_key with
  | Some userId => if nonempty userId then (userId, localStorage) else create
  | None => create
  end.

(** [clearSession()] *)
Definition clearSession (localStorage : Storage) : Storage :=
  delete user_id_key localStorage.

(** ** Sequences of completion calls *)

Record CompletionCall : Type := {
  call_message : Prompt;
  call_history : list Turn;
  call_options : Options
}.

(** The world after one call of [callWithBreaker], returned or thrown. *)
Definition after_call (env : Env) (w : World) (c : CompletionCall) : World :=
  snd (callWithBreaker env (call_message c) (call_history c) (call_options c) w).

(** The world after a sequence of calls, one after the other. *)
Definition after_calls (env : Env) (cs : list CompletionCall) (w : World) : World :=
  fold_left (after_call env) cs w.

(** ** Sequences of requests *)

(** What reaches the server: a request to one of the three routes, or the
    cleanup timer firing. *)
Inductive Request : Type :=
| PostChat (message userId : string)
| GetProductsSearch (q type : option string)
| PostCompatibilityCheck (partNumber modelNumber : string)
| CleanupTimer.

(** The world once the server has dealt with [req]. *)
Definition after_request (env : Env) (w : World) (req : Request) : World :=
  match req with
  | PostChat message userId =>
      snd (chat_route env (AgentOrchestrator_constructor env) message userId w)
  | GetProductsSearch q type => snd (products_search_route env q type w)
  | PostCompatibilityCheck partNumber modelNumber =>
      snd (compatibility_check_route env partNumber modelNumber w)
  | CleanupTimer => snd (cleanup_idle_conversations env w)
  end.

(** The world after a sequence of requests, dealt with one after the other. *)
Definition after_requests (env : Env) (reqs : list Request) (w : World) : World :=
  fold_left (after_request env) reqs w.

(** ** Vocabulary of the statements *)

(** [m] started in [w] returns [a] and leaves [w']. *)
Definition returns {A} (m : M A) (w : World) (a : A) (w' : World) : Prop :=
  m w = (Ok a, w').

(** [m] started in [w] throws [e] and leaves [w']. *)
Definition raises {A} (m : M A) (w : World) (e : Exn) (w' : World) : Prop :=
  m w = (Err e, w').

(** The breaker is tripped only at or above the threshold. *)
Definition breaker_ok (b : Breaker) : Prop :=
  circuitBreakerState b = OPEN \/ circuitBreakerState b = HALF_OPEN ->
  CIRCUIT_BREAKER_THRESHOLD <= failureCount b.

(** The breakers that were visible while a provider request was pending. *)
Definition seen_breakers (tr : list Event) : list Breaker :=
  omap (fun ev => match ev with EvProvider _ _ b => Some b | _ => None end) tr.

(** The provider requests of a trace. *)
Definition provider_calls (tr : list Event) : list Provider :=
  omap (fun ev => match ev with EvProvider p _ _ => Some p | _ => None end) tr.

(** Every assignment [failureCount = 0] is followed at once by
    [circuitBreakerState = 'CLOSED']. *)
Definition resets_close (tr : list Event) : Prop :=
  forall i : nat, tr !! i = Some (EvCount 0) -> tr !! S i = Some (EvState CLOSED).

(** The breaker once the [catch] block of [callWithBreaker] has recorded a
    failure of the primary at time [now]. *)
Definition failure_recorded (b : Breaker) (now : Z) : Breaker :=
  {| circuitBreakerState :=
       if CIRCUIT_BREAKER_THRESHOLD <=? js_incr (failureCount b)
       then OPEN else circuitBreakerState b;
     failureCount := js_incr (failureCount b);
     lastFailureTime := now |}.

(** What that bookkeeping writes and asks. *)
Definition failure_events (b : Breaker) (now : Z) : list Event :=
  [EvCount (js_incr (failureCount b)); EvNow; EvLast now] ++
  (if CIRCUIT_BREAKER_THRESHOLD <=? js_incr (failureCount b) then [EvState OPEN] else []).

(** The breaker once a provider has answered. *)
Definition closed_again (b : Breaker) : Breaker :=
  {| circuitBreakerState := CLOSED; failureCount := 0;
     lastFailureTime := lastFailureTime b |}.

(** The breaker once the reset window has been found elapsed. *)
Definition half_opened (b : Breaker) : Breaker :=
  {| circuitBreakerState := HALF_OPEN; failureCount := failureCount b;
     lastFailureTime := lastFailureTime b |}.

(** The breaker that a failing probe leaves for the fallback: OPEN again,
    with the counter gone up by one. *)
Definition reopened (b : Breaker) (now : Z) : Breaker :=
  {| circuitBreakerState := OPEN; failureCount := js_incr (failureCount b);
     lastFailureTime := now |}.

(** The breaker after [n] calls on which both providers failed: CLOSED with
    counter [n] below the threshold, OPEN from the threshold on. *)
Definition tripped_at (n : nat) (b : Breaker) : Prop :=
  ((n < 3)%nat /\ circuitBreakerState b = CLOSED /\ failureCount b = Z.of_nat n) \/
  ((3 <= n)%nat /\ circuitBreakerState b = OPEN /\ 3 <= failureCount b).

(** *** What the proofs maintain *)

(** The counter is never negative, and the breaker is CLOSED exactly below
    the threshold. *)
Definition strong_ok (b : Breaker) : Prop :=
  0 <= failureCount b /\
  (circuitBreakerState b = CLOSED <-> failureCount b < CIRCUIT_BREAKER_THRESHOLD).

(** Between two calls the breaker is moreover never HALF_OPEN. *)
Definition settled (b : Breaker) : Prop :=
  strong_ok b /\ circuitBreakerState b <> HALF_OPEN.

Definition world_ok (w : World) : Prop :=
  settled (breaker w) /\
  Forall strong_ok (seen_breakers (trace w)) /\
  resets_close (trace w) /\
  last (trace w) <> Some (EvCount 0).

(** The condition under which [classify] answers without a provider: a
    questioning utterance after an assistant turn about troubleshooting. *)
Definition answers_alone (query : string) (history : list Turn) : bool :=
  test_i questioning (trim query) &&
  match find_last is_assistant history with
  | Some lastAssistant =>
      nonempty (content lastAssistant) &&
      (includes (toLowerCase (content lastAssistant)) "step" ||
       includes (toLowerCase (content lastAssistant)) "troubleshoot")
  | None => false
  end.

(** The prompt and the options of the classification request. *)
Definition classify_prompt (query : string) (history : list Turn) : Prompt :=
  P_classify query
    (map (fun h => {| role := role h; content := substring0 150 (content h) |})
         (slice_last 5 history)).

Definition classify_options : Options :=
  {| systemPrompt := None; temperature := Some (3 # 10);
     maxTokens := None; responseFormat := Some "json" |}.

(** The first continuation rule of [routeToAgents]. *)
Definition followUp_rule (intent : Intent) (history : list Turn) : bool :=
  isFollowUp intent &&
  bool_decide (topic (getConversationContext history) = Some "troubleshooting").

(** The intent tags with a [case] of their own in [routeToAgents]. *)
Definition recognized_intents : list string :=
  ["product_search"; "compatibility_check"; "troubleshooting"; "installation_help";
   "order_support"; "general_question"].

Definition has_input_action (acts : list Action) : bool := existsb is_input_action acts.

Definition is_completion_offer (a : Action) : bool :=
  String.eqb (action_type a) "conversation_completion".

Definition has_completion_offer (acts : list Action) : bool :=
  existsb is_completion_offer acts.

(** The continuation that ends a match: what is left of the text. *)
Definition rest_of : option ascii -> string -> option string := fun _ rest => Some rest.

(** [word] is a prefix of [text], letter case apart. *)
Definition starts_with (word text : string) : bool :=
  String.prefix (toUpperCase word) (toUpperCase text).

(** Whatever [m] returns satisfies [P]. *)
Definition ensures {A} (m : M A) (P : A -> Prop) : Prop :=
  forall w a w', m w = (Ok a, w') -> P a.

(** The response carries no completion offer of its own. *)
Definition no_offer (r : AgentResponse) : Prop :=
  has_completion_offer (default [] (actions r)) = false.

(** The route's answer to any exception of its [try] block. *)
Definition server_error : HttpResponse :=
  Json500 "Server error" "assistant" "I'm having trouble right now. Please try again shortly.".

(** *** Invariants of the world *)

(** [m] keeps [I]: started where [I] holds, it leaves a world where [I]
    holds, whether it returns or throws. *)
Definition keeps {A} (I : World -> Prop) (m : M A) : Prop :=
  forall w, I w -> I (snd (m w)).

(** The events that are no provider request and no assignment to the
    breaker's variables. *)
Definition calm (ev : Event) : bool :=
  match ev with
  | EvProvider _ _ _ | EvState _ | EvCount _ | EvLast _ => false
  | _ => true
  end.

(** [I] does not depend on the tick and survives every calm event. *)
Definition stable (I : World -> Prop) : Prop :=
  forall w ev t, calm ev = true -> I w ->
    I {| breaker := breaker w; tick := t; trace := trace w ++ [ev] |}.

(** The breaker and the provider requests are those of [w0]. *)
Definition untouched (w0 : World) (w : World) : Prop :=
  breaker w = breaker w0 /\ provider_calls (trace w) = provider_calls (trace w0).

(** The world after one external call logged as [ev]. *)
Definition after_event (w : World) (ev : Event) : World :=
  {| breaker := breaker w; tick := S (tick w); trace := trace w ++ [ev] |}.

(** The world after the pause between two attempts of [retry]. *)
Definition slept (w : World) : World :=
  {| breaker := breaker w; tick := tick w; trace := trace w ++ [EvSleep 500] |}.

(** *** Conversation flow *)

Definition initial_flow : FlowContext := {| stage := "initial"; topic := None |}.

(** *** Caches and the database *)

(** The cache key of [searchProductDatabase]. *)
Definition product_cache_key (params : SearchParams) : string :=
  "product:" +:+
  (if truthy_str (part_number params) then or_else (part_number params) ""
   else or_else (join "-" <$> keywords params) "unknown").

(** The cache key of [checkCompatibility]. *)
Definition compat_cache_key (partNumber modelNumber : string) : string :=
  "compat:" +:+ partNumber +:+ ":" +:+ modelNumber.

(** The rows came out of the database: some query was answered with them. *)
Definition from_database (env : Env) (rows : list Row) : Prop :=
  exists t, db_query env t = Ok rows.

(** The products are rows of the database, formatted. *)
Definition listed (env : Env) (products : list Product) : Prop :=
  products = [] \/ exists rows, from_database env rows /\ products = formatProducts rows.

(** The two statements of [checkCompatibility]. *)
Definition part_sql : string := "SELECT id, name FROM parts WHERE part_number ILIKE $1".
Definition compat_sql : string :=
  "SELECT 1 FROM part_compatibility WHERE part_id = $1 " +:+ "AND model_number ILIKE $2".

(** The events that are external calls: each one takes the oracle's answer
    at the current tick and moves the tick on by one. *)
Definition is_call (ev : Event) : bool :=
  match ev with
  | EvState _ | EvCount _ | EvLast _ | EvSleep _ => false
  | _ => true
  end.

Definition calls_in (evs : list Event) : nat := length (List.filter is_call evs).

(** [w'] comes after [w]: its trace continues the trace of [w], and its
    tick is ahead by the external calls made since. *)
Definition extends (w w' : World) : Prop :=
  exists evs, trace w' = trace w ++ evs /\ tick w' = (tick w + calls_in evs)%nat.

(** [m] logs every external call it makes. *)
Definition paced {A} (m : M A) : Prop := forall w, extends w (snd (m w)).

(** Between [w] and [w'] the pairing of [partNumber] with a model was
    looked up and the database confirmed it: after the read of the cache
    entry of the pairing, the query for the part was answered with a row,
    and the query of [part_compatibility] that came next was answered with
    a row too. *)
Definition confirmed (env : Env) (partNumber : string) (w w' : World) : Prop :=
  exists modelNumber before after row rest compat,
    trace w' =
      trace w ++ before ++
      [EvRedisGet (compat_cache_key partNumber modelNumber); EvDb part_sql; EvDb compat_sql] ++
      after /\
    db_query env (S (tick w + calls_in before)) = Ok (row :: rest) /\
    db_query env (S (S (tick w + calls_in before))) = Ok compat /\
    compat <> [].

(** No cart is offered. *)
Definition cartless (acts : list Action) : Prop :=
  forall partNumber, ~ In (add_to_cart partNumber) acts.

(** The products are database products and no cart is offered. *)
Definition plain_response (env : Env) (r : AgentResponse) : Prop :=
  listed env (default [] (products r)) /\ cartless (default [] (actions r)).

(** The products are database products, and a cart is offered for a part
    only if the database has confirmed a pairing of that part on the way
    from [w] to [w']. *)
Definition grounded (env : Env) (w : World) (products : list Product) (acts : list Action)
    (w' : World) : Prop :=
  listed env products /\
  (forall partNumber, In (add_to_cart partNumber) acts -> confirmed env partNumber w w').

(** Whatever [m] returns is grounded on the way it took. *)
Definition answers_grounded (env : Env) (m : M AgentResponse) : Prop :=
  forall w r w', m w = (Ok r, w') ->
    grounded env w (default [] (products r)) (default [] (actions r)) w'.

(** *** Responses *)

(** Every product display among [acts] shows the first products of
    [products], five at most. *)
Definition shows_own_products (products : list Product) (acts : list Action) : Prop :=
  forall shown, In (product_cards shown) acts ->
    exists n, (n <= 5)%nat /\ shown = take n products.

Definition well_formed (r : AgentResponse) : Prop :=
  is_Some (message r) /\
  shows_own_products (default [] (products r)) (default [] (actions r)).

(** The statement that creates a conversation. *)
Definition insert_conversation : string :=
  "INSERT INTO conversations (user_id, status) " +:+ "VALUES ($1, 'active') RETURNING id".

(** The conversation timeout of the chat route, in milliseconds. *)
Definition CONVERSATION_TIMEOUT : Z := 5 * 60000.

(** The statement that stores the assistant's reply. *)
Definition insert_assistant_message : string :=
  "INSERT INTO messages (conversation_id, sender, content, payload) " +:+
  "VALUES ($1, 'assistant', $2, $3)".

(** The keywords of [classifyOrderIntent], in the order in which they are
    tried. *)
Definition order_keywords : list string :=
  ["track"; "status"; "where is"; "shipped"; "return"; "refund"; "send back";
   "shipping"; "delivery"; "how long"; "when will"].

(** The options of the request of [analyzeProblem]. *)
Definition analyze_options : Options :=
  {| systemPrompt := Some SP_troubleshooting; temperature := Some (5 # 10);
     maxTokens := None; responseFormat := Some "json" |}.

(** The guide that [generateTroubleshootingGuide] writes for the default
    diagnosis: an unknown cause and no steps. *)
Definition guide_without_steps : string :=
  "Based on the symptoms, this sounds like unknown." +:+ nl +:+ nl +:+
  "  Here's what I recommend checking:" +:+ nl +:+ nl +:+ "  " +:+
  nl +:+ nl +:+ "  Try these steps and let me know what you find! " +:+
  "I'm here if you need help with any of them.".

(** The question of [InstallationAgent.guide] for the part number. *)
Definition which_part : AgentResponse :=
  {| message := Some ("I'd be happy to help with installation! Which part are " +:+
                      "you installing? Please provide the part number " +:+
                      "(e.g., PS11752778).");
     products := None; actions := None |}.

(** The question of [ProductSearchAgent.search] for the model number. *)
Definition which_model : AgentResponse :=
  {| message := Some ("I'd be happy to help you find parts! What's your appliance " +:+
                      "model number?" +:+ nl +:+ nl +:+
                      "(It's usually on a sticker inside the fridge compartment " +:+
                      "or on the door frame)");
     products := Some [];
     actions := Some [input_prompt "model_number"
                        "Enter model number (e.g. WDT780SAEM1)"] |}.

(** The words of the utterance that are neither a model nor a part number:
    the keywords of the quick parse of [extractSearchParams]. *)
Definition other_words (query : string) : list string :=
  filter (fun w => negb (test_i re_model2 w) && negb (test_i re_part68 w) = true)
         (split_blanks (trim query)).

(** The last assistant turn proposed to search for parts. *)
Definition search_proposed (history : list Turn) : bool :=
  match find_last is_assistant history with
  | Some la => includes (content la) "search for parts"
  | None => false
  end.

(** *** Regular expressions *)

(** Every character of [s] satisfies [p]. *)
Fixpoint all_chars (p : ascii -> bool) (s : string) : bool :=
  match s with
  | EmptyString => true
  | String a s' => p a && all_chars p s'
  end.

(** The characters of ASCII.  On a text made of them the functions of this
    file are the JavaScript ones: [trim] and the class of blanks know no
    other blank, and the case maps and the /i flag no other letter. *)
Definition is_ascii (c : ascii) : bool := (nat_of_ascii c <? 128)%nat.
Definition ascii_text (s : string) : bool := all_chars is_ascii s.

Definition eight_digits (s : string) : bool :=
  (String.length s =? 8)%nat && all_chars is_digit s.

(** Eight digits, or PS and eight digits. *)
Definition is_part_number (p : string) : bool :=
  eight_digits p ||
  match p with
  | String "P" (String "S" digits) => eight_digits digits
  | _ => false
  end.

(** The texts that [r] can consume under the /i flag, whatever stands
    around them. *)
Fixpoint accepts (r : Re) (x : string) : Prop :=
  match r with
  | Eps | Bol | WordB => x = ""
  | Chr c => exists a, x = String a "" /\ chr_matches true c a = true
  | Cls f => exists a, x = String a "" /\ cls_matches true f a = true
  | Seq r1 r2 => exists x1 x2, x = x1 +:+ x2 /\ accepts r1 x1 /\ accepts r2 x2
  | Alt r1 r2 => accepts r1 x \/ accepts r2 x
  | StarCls f => all_chars (cls_matches true f) x = true
  end.

(** Under the change of letter case [g], the continuation [k'] does on the
    changed text what [k] does on the text. *)
Definition tracks (g : ascii -> ascii)
    (k k' : option ascii -> string -> option string) : Prop :=
  forall p s, k' (g <$> p) (map_string g s) = map_string g <$> k p s.

(** ** Concrete collaborators, for the examples *)

Definition dq : string := String (ascii_of_nat 34) "".
(** A JSON string literal. *)
Definition jstr (s : string) : string := dq +:+ s +:+ dq.

(** Collaborators given by a clock, the two providers, the answers of
    [redis.get] and what [JSON.parse] makes of a context and of an intent;
    Redis writes succeed, the database is empty, and no other text parses. *)
Definition make_env (now : nat -> Z) (ds oa : nat -> option string)
    (rget : nat -> Res (option string))
    (pctx : string -> option Context) (pint : string -> option Intent) : Env :=
  {| Date_now := now;
     deepseek_reply := ds;
     openai_reply := oa;
     redis_get := rget;
     redis_set := fun _ => Ok tt;
     redis_del := fun _ => Ok tt;
     db_query := fun _ => Ok [];
     db_conversations := fun _ => Ok [{| conv_id := 7; last_activity_at := 0 |}];
     db_messages := fun _ => Ok [];
     embeddings_reply := fun _ => Ok None;
     JSON_parse_context := pctx;
     JSON_parse_intent := pint;
     JSON_parse_analysis := fun _ => None;
     JSON_parse_params := fun _ => None;
     JSON_parse_products := fun _ => None;
     JSON_parse_compat := fun _ => None |}.

Definition no_reply : nat -> option string := fun _ => None.
Definition no_key : nat -> Res (option string) := fun _ => Ok None.
Definition seconds : nat -> Z := fun t => 1000 * Z.of_nat t.

(** Both providers are down. *)
Definition env_down : Env :=
  make_env seconds no_reply no_reply no_key (fun _ => None) (fun _ => None).

(** Both providers are down for the first ten external calls, which are
    twenty seconds apart; then the primary answers. *)
Definition env_recovering : Env :=
  make_env (fun t => 20000 * Z.of_nat t)
           (fun t => if (10 <=? t)%nat then Some "pong" else None)
           no_reply no_key (fun _ => None) (fun _ => None).

(** The primary is down; the fallback is down too, except that it answers
    the ninth external call, which is the fallback request of the third
    completion call. *)
Definition env_fallback_third : Env :=
  make_env seconds no_reply (fun t => if (t =? 8)%nat then Some "pong" else None) no_key
           (fun _ => None) (fun _ => None).

(** The primary answers. *)
Definition env_up : Env :=
  make_env seconds (fun _ => Some "pong") no_reply no_key (fun _ => None) (fun _ => None).

(** Redis refuses every connection. *)
Definition ECONNREFUSED : Exn := Error "connect ECONNREFUSED 127.0.0.1:6379".

Definition env_redis_down : Env :=
  {| Date_now := seconds;
     deepseek_reply := fun _ => Some "pong";
     openai_reply := no_reply;
     redis_get := fun _ => Err ECONNREFUSED;
     redis_set := fun _ => Err ECONNREFUSED;
     redis_del := fun _ => Err ECONNREFUSED;
     db_query := fun _ => Ok [];
     db_conversations := fun _ => Ok [{| conv_id := 7; last_activity_at := 0 |}];
     db_messages := fun _ => Ok [];
     embeddings_reply := fun _ => Ok None;
     JSON_parse_context := fun _ => None;
     JSON_parse_intent := fun _ => None;
     JSON_parse_analysis := fun _ => None;
     JSON_parse_params := fun _ => None;
     JSON_parse_products := fun _ => None;
     JSON_parse_compat := fun _ => None |}.

Definition a_call : CompletionCall :=
  {| call_message := P_query "ping"; call_history := [];
     call_options := {| systemPrompt := None; temperature := None;
                        maxTokens := None; responseFormat := None |} |}.

(** The primary answers in prose, which is no JSON. *)
Definition env_chatty : Env :=
  make_env seconds (fun _ => Some "Sure, I can help with that!") no_reply no_key
           (fun _ => None) (fun _ => None).

(** [{"primary":"order_support","confidence":0.9,"entities":{}}] *)
Definition order_json : string :=
  "{" +:+ jstr "primary" +:+ ":" +:+ jstr "order_support" +:+ "," +:+
  jstr "confidence" +:+ ":0.9," +:+ jstr "entities" +:+ ":{}}".

Definition order_intent : Intent :=
  {| primary := "order_support"; confidence := 9 # 10; entities := ∅ |}.

(** [{"primary":"out_of_scope","confidence":0.9,"entities":{}}] *)
Definition out_of_scope_json : string :=
  "{" +:+ jstr "primary" +:+ ":" +:+ jstr "out_of_scope" +:+ "," +:+
  jstr "confidence" +:+ ":0.9," +:+ jstr "entities" +:+ ":{}}".

Definition out_of_scope_intent : Intent :=
  {| primary := "out_of_scope"; confidence := 9 # 10; entities := ∅ |}.

(** [{"primary":"general_question","confidence":0.9,"entities":{"isFollowUp":true}}] *)
Definition followUp_json : string :=
  "{" +:+ jstr "primary" +:+ ":" +:+ jstr "general_question" +:+ "," +:+
  jstr "confidence" +:+ ":0.9," +:+ jstr "entities" +:+ ":{" +:+
  jstr "isFollowUp" +:+ ":true}}".

Definition followUp_reply : Intent :=
  {| primary := "general_question"; confidence := 9 # 10;
     entities := <["isFollowUp" := SBool true]> ∅ |}.

(** What [JSON.parse] makes of the three texts above. *)
Definition parse_intent_examples (text : string) : option Intent :=
  if String.eqb text order_json then Some order_intent
  else if String.eqb text out_of_scope_json then Some out_of_scope_intent
  else if String.eqb text followUp_json then Some followUp_reply
  else None.

(** [{"expecting":"model_number_for_compat","lastPart":"PS11752778"}] *)
Definition waiting_json : string :=
  "{" +:+ jstr "expecting" +:+ ":" +:+ jstr "model_number_for_compat" +:+ "," +:+
  jstr "lastPart" +:+ ":" +:+ jstr "PS11752778" +:+ "}".

Definition waiting_context : Context :=
  <["expecting" := Some "model_number_for_compat"]> (<["lastPart" := Some "PS11752778"]> ∅).

Definition parse_context_examples (text : string) : option Context :=
  if String.eqb text waiting_json then Some waiting_context else None.

(** The primary answers the first request with [first] and every later one
    with [later]; the fallback is down; Redis holds no context. *)
Definition env_replying (first : string) (later : option string) : Env :=
  make_env seconds (fun t => if (t =? 0)%nat then Some first else later) no_reply no_key
           parse_context_examples parse_intent_examples.

(** The same, where the read of Redis that follows the first request finds
    the context of a user who was asked for a model number. *)
Definition env_waiting (first : string) (later : option string) : Env :=
  make_env seconds (fun t => if (t =? 0)%nat then Some first else later) no_reply
           (fun t => if (t =? 1)%nat then Ok (Some waiting_json) else Ok None)
           parse_context_examples parse_intent_examples.

Definition after_steps : list Turn :=
  [{| role := "assistant"; content := "Step 1: Check the door seal." |}].

Definition no_options : Options := call_options a_call.

Definition billing : string := "I have a billing question".

(** The history as the route loads it: the assistant's steps, then the
    user's reply. *)
Definition model_reply : list Turn :=
  after_steps ++ [{| role := "user"; content := "WDT780SAEM1" |}].

Definition closing_response (acts : list Action) : AgentResponse :=
  {| message := Some "Glad that is sorted. I hope this helps!";
     products := None; actions := Some acts |}.

(** One row of [parts]. *)
Definition a_row : Row :=
  {| row_id := 1; row_part_number := "PS11752778"; row_name := "Door Shelf Bin" |}.

(** The database rejects the first two queries and answers the third. *)
Definition env_db_flaky : Env :=
  {| Date_now := seconds;
     deepseek_reply := no_reply;
     openai_reply := no_reply;
     redis_get := no_key;
     redis_set := fun _ => Ok tt;
     redis_del := fun _ => Ok tt;
     db_query := fun t => if (t <? 2)%nat
                          then Err (Error "Connection terminated unexpectedly")
                          else Ok [a_row];
     db_conversations := fun _ => Ok [];
     db_messages := fun _ => Ok [];
     embeddings_reply := fun _ => Ok None;
     JSON_parse_context := fun _ => None;
     JSON_parse_intent := fun _ => None;
     JSON_parse_analysis := fun _ => None;
     JSON_parse_params := fun _ => None;
     JSON_parse_products := fun _ => None;
     JSON_parse_compat := fun _ => None |}.

(** [{"primary":"compatibility_check","confidence":0.9,"entities":{}}] *)
Definition compat_json : string :=
  "{" +:+ jstr "primary" +:+ ":" +:+ jstr "compatibility_check" +:+ "," +:+
  jstr "confidence" +:+ ":0.9," +:+ jstr "entities" +:+ ":{}}".

Definition compat_intent : Intent :=
  {| primary := "compatibility_check"; confidence := 9 # 10; entities := ∅ |}.

(** [{"primary":"product_search","confidence":0.9,"entities":{}}] *)
Definition search_json : string :=
  "{" +:+ jstr "primary" +:+ ":" +:+ jstr "product_search" +:+ "," +:+
  jstr "confidence" +:+ ":0.9," +:+ jstr "entities" +:+ ":{}}".

Definition search_intent : Intent :=
  {| primary := "product_search"; confidence := 9 # 10; entities := ∅ |}.

(** What [JSON.parse] makes of the two texts above. *)
Definition parse_intent_stocked (text : string) : option Intent :=
  if String.eqb text compat_json then Some compat_intent
  else if String.eqb text search_json then Some search_intent
  else None.

(** The primary answers every request with [reply]; the database holds the
    door shelf bin and answers every query with it; Redis holds nothing. *)
Definition env_stocked (reply : string) : Env :=
  {| Date_now := seconds;
     deepseek_reply := fun _ => Some reply;
     openai_reply := no_reply;
     redis_get := no_key;
     redis_set := fun _ => Ok tt;
     redis_del := fun _ => Ok tt;
     db_query := fun _ => Ok [a_row];
     db_conversations := fun _ => Ok [{| conv_id := 7; last_activity_at := 0 |}];
     db_messages := fun _ => Ok [];
     embeddings_reply := fun _ => Ok None;
     JSON_parse_context := fun _ => None;
     JSON_parse_intent := parse_intent_stocked;
     JSON_parse_analysis := fun _ => None;
     JSON_parse_params := fun _ => None;
     JSON_parse_products := fun _ => None;
     JSON_parse_compat := fun _ => None |}.

(** As [env_stocked], except that the database has no row for the query
    made on the seventh external call: the [part_compatibility] query of a
    compatibility question asked in a fresh session. *)
Definition env_unpaired (reply : string) : Env :=
  {| Date_now := seconds;
     deepseek_reply := fun _ => Some reply;
     openai_reply := no_reply;
     redis_get := no_key;
     redis_set := fun _ => Ok tt;
     redis_del := fun _ => Ok tt;
     db_query := fun t => if (t =? 6)%nat then Ok [] else Ok [a_row];
     db_conversations := fun _ => Ok [{| conv_id := 7; last_activity_at := 0 |}];
     db_messages := fun _ => Ok [];
     embeddings_reply := fun _ => Ok None;
     JSON_parse_context := fun _ => None;
     JSON_parse_intent := parse_intent_stocked;
     JSON_parse_analysis := fun _ => None;
     JSON_parse_params := fun _ => None;
     JSON_parse_products := fun _ => None;
     JSON_parse_compat := fun _ => None |}.

(** A cached search result: one product, with its [partNumber], [name] and
    [productUrl]. *)
Definition cached_products_json : string :=
  "[{" +:+ jstr "partNumber" +:+ ":" +:+ jstr "PS11752778" +:+ "," +:+
  jstr "name" +:+ ":" +:+ jstr "Door Shelf Bin" +:+ "," +:+
  jstr "productUrl" +:+ ":" +:+ jstr "https://www.partselect.com/PS11752778.htm" +:+ "}]".

(** [{"isCompatible":true,"details":"ok","alternativeSuggestion":null}] *)
Definition cached_verdict_json : string :=
  "{" +:+ jstr "isCompatible" +:+ ":true," +:+ jstr "details" +:+ ":" +:+ jstr "ok" +:+
  "," +:+ jstr "alternativeSuggestion" +:+ ":null}".

Definition cached_verdict : CompatResult :=
  {| isCompatible := true; details := "ok"; alternativeSuggestion := None |}.

(** Redis answers every read with [text]; the two texts above parse. *)
Definition env_cached (text : string) : Env :=
  {| Date_now := seconds;
     deepseek_reply := fun _ => Some "pong";
     openai_reply := no_reply;
     redis_get := fun _ => Ok (Some text);
     redis_set := fun _ => Ok tt;
     redis_del := fun _ => Ok tt;
     db_query := fun _ => Ok [a_row];
     db_conversations := fun _ => Ok [{| conv_id := 7; last_activity_at := 0 |}];
     db_messages := fun _ => Ok [];
     embeddings_reply := fun _ => Ok None;
     JSON_parse_context := fun _ => None;
     JSON_parse_intent := fun _ => None;
     JSON_parse_analysis := fun _ => None;
     JSON_parse_params := fun _ => None;
     JSON_parse_products :=
       fun t => if String.eqb t cached_products_json then Some (formatProducts [a_row])
                else None;
     JSON_parse_compat :=
       fun t => if String.eqb t cached_verdict_json then Some cached_verdict else None |}.

(** Search parameters that name a part. *)
Definition by_part : SearchParams :=
  {| part_number := Some "PS11752778"; model_number := None; keywords := Some [] |}.

Definition user_turn (text : string) : Turn := {| role := "user"; content := text |}.

(** * Properties *)

(** ** The embedding on the examples that the source names *)

Example extractEntities_both :
  extract_part_and_model "PS11752778 WDT780SAEM1" = (Some "PS11752778", Some "WDT780SAEM1").
Proof. reflexivity. Qed.

Example extractEntities_lower_case :
  extract_part_and_model "is ps11752778 ok for my wdt780saem1?" =
  (Some "PS11752778", Some "WDT780SAEM1").
Proof. reflexivity. Qed.

Example extractEntities_bare_digits :
  extract_part_and_model "part 11752778, please" = (Some "11752778", None).
Proof. reflexivity. Qed.

Example extractEntities_nine_digits :
  extract_part_and_model "order 117527780" = (None, None).
Proof. reflexivity. Qed.

Example questioning_should :
  test_i questioning (trim "  Should I call a technician?") = true.
Proof. reflexivity. Qed.

Example questioning_not_anchored :
  test_i questioning "and what if it leaks?" = false.
Proof. reflexivity. Qed.

Example split_blanks_example :
  split_blanks "shelf  bin WDT780SAEM1" = ["shelf"; "bin"; "WDT780SAEM1"].
Proof. reflexivity. Qed.

Example flow_after_steps :
  getConversationContext after_steps =
  {| stage := "diagnostic_given"; topic := Some "troubleshooting" |}.
Proof. reflexivity. Qed.

Example flow_empty : getConversationContext [] = {| stage := "initial"; topic := None |}.
Proof. reflexivity. Qed.

Example detectUserProgress_found :
  detectUserProgress "I checked the pump and it is broken"
    [{| role := "assistant"; content := "Step 1: Check the pump." |}] = true.
Proof. reflexivity. Qed.

(** ** The circuit breaker *)

(** Unfold one call of [callWithBreaker] down to the world it leaves. *)
Ltac unfold_call :=
  cbv [callWithBreaker callDeepSeek callOpenAI bind ret throw try_catch
       get_circuitBreakerState get_failureCount get_lastFailureTime
       set_circuitBreakerState set_failureCount set_lastFailureTime
       read_breaker write_breaker emit external Date_now_call
       breaker tick trace circuitBreakerState failureCount lastFailureTime].

Lemma js_incr_pos n : 0 <= n -> 0 < js_incr n /\ n <= js_incr n.
Proof. unfold js_incr. destruct (n <? 2 ^ 53) eqn:E; lia. Qed.

Lemma js_incr_small n : 0 <= n < 3 -> js_incr n = n + 1.
Proof. unfold js_incr. intros. destruct (n <? 2 ^ 53) eqn:E; [lia|]. apply Z.ltb_ge in E. lia. Qed.

(** Arithmetic on the counter, the threshold and the window. *)
Ltac arith :=
  try unfold CIRCUIT_BREAKER_THRESHOLD in *;
  try unfold CIRCUIT_BREAKER_RESET_TIME in *;
  repeat match goal with
         | H : (_ <=? _) = true |- _ => apply Z.leb_le in H
         | H : (_ <=? _) = false |- _ => apply Z.leb_gt in H
         | H : (_ <? _) = true |- _ => apply Z.ltb_lt in H
         | H : (_ <? _) = false |- _ => apply Z.ltb_ge in H
         end;
  try match goal with
      | Hn : 0 <= ?n |- _ => pose proof (js_incr_pos n Hn)
      end;
  first [ lia | congruence ].

(** [strong_ok] of a breaker given by its three fields. *)
Ltac solve_strong :=
  simpl; split; [ arith | split; intro; first [ reflexivity | discriminate | arith ] ].

(** [resets_close] of an explicit list of events. *)
Ltac resets :=
  let i := fresh "i" in let Hi := fresh "Hi" in
  intros i Hi;
  repeat (destruct i as [|i]; simpl in *;
          [ first [ discriminate Hi | reflexivity
                  | (exfalso; injection Hi as Hi; arith) ] | ]);
  try discriminate Hi; try (rewrite lookup_nil in Hi; discriminate Hi).

(** One path through [callWithBreaker]: the world it leaves and the four
    facts about it. *)
Ltac leaf_body :=
  do 4 eexists; split; [ rewrite <- ?app_assoc; simpl; reflexivity | ];
  split; [ split; [ solve_strong | simpl; congruence ] | ];
  split; [ simpl; repeat (apply Forall_cons; split; [ solve_strong | ]); apply Forall_nil | ];
  split; [ resets | simpl; intros ?; simplify_eq; arith ].

Ltac leaf := first [ solve [ exfalso; arith ] | leaf_body ].

(* One call: shape of the result *)
Lemma call_shape env msg h o w :
  settled (breaker w) ->
  exists r b' t' evs,
    callWithBreaker env msg h o w =
      (r, {| breaker := b'; tick := t'; trace := trace w ++ evs |}) /\
    settled b' /\
    Forall strong_ok (seen_breakers evs) /\
    resets_close evs /\
    last evs <> Some (EvCount 0).
Proof.
  destruct w as [[st n lastt] t tr]. unfold settled, strong_ok. simpl.
  intros [[Hn Hst] Hh].
  assert (Hc : st = CLOSED -> n < 3) by (intros ->; apply Hst; reflexivity).
  assert (Ho : st = OPEN -> 3 <= n).
  { intros ->. destruct (Z.lt_ge_cases n 3) as [Hlt|]; [|assumption].
    apply Hst in Hlt. discriminate. }
  clear Hst.
  unfold_call.
  destruct st; simpl; [specialize (Hc eq_refl); clear Ho | specialize (Ho eq_refl); clear Hc | ].
  - (* CLOSED *)
    destruct (deepseek_reply env t) eqn:Hd; simpl.
    + leaf.
    + destruct (CIRCUIT_BREAKER_THRESHOLD <=? js_incr n) eqn:Hthr; simpl;
        destruct (openai_reply env (S (S t))) eqn:Hoa; simpl; leaf.
  - (* OPEN *)
    destruct (Date_now env t - lastt <? CIRCUIT_BREAKER_RESET_TIME) eqn:Hel; simpl.
    + leaf.
    + destruct (deepseek_reply env (S t)) eqn:Hd; simpl.
      * leaf.
      * destruct (CIRCUIT_BREAKER_THRESHOLD <=? js_incr n) eqn:Hthr; simpl;
        destruct (openai_reply env (S (S (S t)))) eqn:Hoa; simpl; leaf.
  - congruence.
Qed.

Lemma resets_close_app (t1 t2 : list Event) :
  resets_close t1 -> last t1 <> Some (EvCount 0) -> resets_close t2 ->
  resets_close (t1 ++ t2).
Proof.
  intros H1 Hl H2 i Hi.
  destruct (decide (i < length t1)%nat) as [Hlt|Hge].
  - rewrite lookup_app_l in Hi by assumption.
    destruct (decide (S i < length t1)%nat) as [Hlt'|Hge'].
    + rewrite lookup_app_l by assumption. apply H1, Hi.
    + exfalso. apply Hl. rewrite last_lookup.
      replace (pred (length t1)) with i by lia. exact Hi.
  - rewrite lookup_app_r in Hi by lia.
    rewrite lookup_app_r by lia.
    replace (S i - length t1)%nat with (S (i - length t1)) by lia.
    apply H2, Hi.
Qed.

Lemma last_app_keeps (t1 t2 : list Event) (e : Event) :
  last t1 <> Some e -> last t2 <> Some e -> last (t1 ++ t2) <> Some e.
Proof.
  intros H1 H2. rewrite last_app. destruct (last t2); assumption.
Qed.

Lemma call_keeps_ok env msg h o w :
  world_ok w -> world_ok (snd (callWithBreaker env msg h o w)).
Proof.
  intros (Hb & Hs & Hr & Hl).
  destruct (call_shape env msg h o w Hb) as (r & b' & t' & evs & -> & Hb' & Hs' & Hr' & Hl').
  unfold world_ok; simpl. repeat split; try apply Hb'.
  - unfold seen_breakers in *. rewrite omap_app. apply Forall_app; split; assumption.
  - apply resets_close_app; assumption.
  - apply last_app_keeps; assumption.
Qed.

Lemma initial_world_ok : world_ok initial_world.
Proof.
  unfold world_ok, settled, strong_ok; simpl. repeat split; try (intros; lia); try congruence.
  - constructor.
  - intros i Hi. rewrite lookup_nil in Hi. discriminate.
Qed.

Lemma after_calls_ok env cs w : world_ok w -> world_ok (after_calls env cs w).
Proof.
  revert w. induction cs as [|c cs IH]; intros w Hw; simpl; [assumption|].
  apply IH. apply call_keeps_ok, Hw.
Qed.

Lemma strong_ok_breaker_ok b : strong_ok b -> breaker_ok b.
Proof.
  intros [Hn Hst] Hs. destruct (Z.lt_ge_cases (failureCount b) CIRCUIT_BREAKER_THRESHOLD) as [Hlt|Hge];
    [|assumption].
  apply Hst in Hlt. destruct Hs; congruence.
Qed.

(** C10.  From CLOSED with counter 0, after any sequence of completion
    calls: the breaker left behind, and every breaker that was visible
    while a provider request was pending, is OPEN or HALF_OPEN only with a
    counter of at least 3; and in the trace of assignments every
    [failureCount = 0] is followed at once, before anything else happens, by
    [circuitBreakerState = 'CLOSED']. *)
Theorem breaker_invariant (env : Env) (cs : list CompletionCall) :
  let w := after_calls env cs initial_world in
  breaker_ok (breaker w) /\
  Forall breaker_ok (seen_breakers (trace w)) /\
  resets_close (trace w).
Proof.
  destruct (after_calls_ok env cs initial_world initial_world_ok) as ([Hb _] & Hs & Hr & _).
  simpl. repeat split.
  - apply strong_ok_breaker_ok, Hb.
  - eapply Forall_impl; [exact Hs|]. intros b. apply strong_ok_breaker_ok.
  - exact Hr.
Qed.


Section OneCall.
Variables (env : Env) (msg : Prompt) (h : list Turn) (o : Options).

Lemma call_primary_ok b t tr text :
  circuitBreakerState b <> OPEN ->
  deepseek_reply env t = Some text ->
  callWithBreaker env msg h o {| breaker := b; tick := t; trace := tr |} =
    (Ok text, {| breaker := closed_again b; tick := S t;
                 trace := tr ++ [EvProvider DeepSeek msg b; EvCount 0; EvState CLOSED] |}).
Proof.
  intros Hst Hd. destruct b as [st n lastt]. unfold_call.
  destruct st; simpl in *; try congruence; rewrite Hd; simpl;
    rewrite <- !app_assoc; reflexivity.
Qed.

Lemma call_primary_fails b t tr :
  circuitBreakerState b <> OPEN ->
  deepseek_reply env t = None ->
  callWithBreaker env msg h o {| breaker := b; tick := t; trace := tr |} =
    let b1 := failure_recorded b (Date_now env (S t)) in
    let tr1 := tr ++ EvProvider DeepSeek msg b :: failure_events b (Date_now env (S t)) ++
                     [EvProvider OpenAI msg b1] in
    match openai_reply env (S (S t)) with
    | Some text =>
        (Ok text, {| breaker := closed_again b1; tick := S (S (S t));
                     trace := tr1 ++ [EvCount 0; EvState CLOSED] |})
    | None =>
        (Err (Error "OpenAI call failed"), {| breaker := b1; tick := S (S (S t)); trace := tr1 |})
    end.
Proof.
  intros Hst Hd. destruct b as [st n lastt]. unfold_call.
  unfold failure_recorded, failure_events, closed_again.
  destruct st; simpl in *; try congruence; rewrite Hd; simpl;
    destruct (CIRCUIT_BREAKER_THRESHOLD <=? js_incr n); simpl;
    destruct (openai_reply env (S (S t))); simpl;
    rewrite <- !app_assoc; reflexivity.
Qed.

Lemma call_open b t tr :
  circuitBreakerState b = OPEN ->
  callWithBreaker env msg h o {| breaker := b; tick := t; trace := tr |} =
    if Date_now env t - lastFailureTime b <? CIRCUIT_BREAKER_RESET_TIME
    then (Err (Error "AI temporarily unavailable (circuit open)"),
          {| breaker := b; tick := S t; trace := tr ++ [EvNow] |})
    else callWithBreaker env msg h o
           {| breaker := half_opened b; tick := S t;
              trace := tr ++ [EvNow; EvState HALF_OPEN] |}.
Proof.
  intros Hst. destruct b as [st n lastt]. simpl in Hst. subst st. unfold_call. simpl.
  destruct (Date_now env t - lastt <? CIRCUIT_BREAKER_RESET_TIME); simpl; [reflexivity|].
  rewrite <- !app_assoc. reflexivity.
Qed.

End OneCall.

Lemma stays_open env (rest : list CompletionCall) (w : World) :
  circuitBreakerState (breaker w) = OPEN ->
  (forall k : nat, (k < length rest)%nat ->
     Date_now env (tick w + k)%nat - lastFailureTime (breaker w) < CIRCUIT_BREAKER_RESET_TIME) ->
  after_calls env rest w =
    {| breaker := breaker w; tick := (tick w + length rest)%nat;
       trace := trace w ++ repeat EvNow (length rest) |}.
Proof.
  revert w. induction rest as [|c rest IH]; intros w Hopen Hin.
  - destruct w as [b t tr]. simpl. rewrite Nat.add_0_r, app_nil_r. reflexivity.
  - destruct w as [b t tr]. simpl in *.
    unfold after_call at 1.
    rewrite call_open by assumption.
    assert (H0 : Date_now env t - lastFailureTime b < CIRCUIT_BREAKER_RESET_TIME).
    { specialize (Hin 0%nat). rewrite Nat.add_0_r in Hin. apply Hin. lia. }
    apply Z.ltb_lt in H0. rewrite H0. cbn [snd].
    rewrite IH; simpl.
    + rewrite <- app_assoc. simpl. f_equal. lia.
    + assumption.
    + intros k Hk. change (S (t + k)) with (S t + k)%nat.
      replace (S t + k)%nat with (t + S k)%nat by lia. apply Hin. lia.
Qed.

Lemma provider_calls_now (tr : list Event) (n : nat) :
  provider_calls (tr ++ repeat EvNow n) = provider_calls tr.
Proof.
  unfold provider_calls. rewrite omap_app.
  replace (omap _ (repeat EvNow n)) with (@nil Provider); [apply app_nil_r|].
  induction n as [|n IH]; [reflexivity | exact IH].
Qed.
Lemma settled_cases b :
  settled b ->
  circuitBreakerState b = CLOSED /\ 0 <= failureCount b < 3 \/
  circuitBreakerState b = OPEN /\ 3 <= failureCount b.
Proof.
  intros [[Hn Hst] Hh]. unfold CIRCUIT_BREAKER_THRESHOLD in Hst.
  destruct (circuitBreakerState b) eqn:E; [left|right|congruence].
  - split; [reflexivity|]. split; [assumption|]. apply Hst. reflexivity.
  - split; [reflexivity|]. destruct (Z.lt_ge_cases (failureCount b) 3) as [Hlt|]; [|assumption].
    apply Hst in Hlt. discriminate.
Qed.

Lemma seen_breakers_app t1 t2 :
  seen_breakers (t1 ++ t2) = seen_breakers t1 ++ seen_breakers t2.
Proof. apply omap_app. Qed.

Lemma seen_breakers_cons_provider p m b l :
  seen_breakers (EvProvider p m b :: l) = b :: seen_breakers l.
Proof. reflexivity. Qed.

Lemma seen_breakers_failure_events b now : seen_breakers (failure_events b now) = [].
Proof.
  unfold failure_events.
  destruct (CIRCUIT_BREAKER_THRESHOLD <=? js_incr (failureCount b)); reflexivity.
Qed.

(** One more call on which both providers fail. *)
Lemma both_down_step env c w n :
  (forall k, deepseek_reply env k = None) -> (forall k, openai_reply env k = None) ->
  tripped_at n (breaker w) -> tripped_at (S n) (breaker (after_call env w c)).
Proof.
  intros Hd Ho Hn. destruct w as [b t tr]. unfold after_call. simpl in *.
  destruct Hn as [(Hlt & Hst & Hc)|(Hge & Hst & Hc)].
  - rewrite call_primary_fails by (congruence || apply Hd).
    cbv zeta. rewrite Ho. cbn [snd breaker]. unfold failure_recorded, tripped_at. simpl.
    rewrite js_incr_small by lia. rewrite Hst, Hc.
    unfold CIRCUIT_BREAKER_THRESHOLD.
    destruct (3 <=? Z.of_nat n + 1) eqn:E; [right|left].
    + apply Z.leb_le in E. repeat split; lia.
    + apply Z.leb_gt in E. repeat split; lia.
  - right. split; [lia|].
    rewrite call_open by assumption.
    destruct (Date_now env t - lastFailureTime b <? CIRCUIT_BREAKER_RESET_TIME);
      [simpl; split; assumption|].
    rewrite call_primary_fails by (simpl; congruence || apply Hd).
    cbv zeta. rewrite Ho. cbn [snd breaker]. unfold failure_recorded. simpl.
    assert (Hp : 3 <= js_incr (failureCount b)).
    { pose proof (js_incr_pos (failureCount b)). lia. }
    unfold CIRCUIT_BREAKER_THRESHOLD.
    replace (3 <=? js_incr (failureCount b)) with true by (symmetry; apply Z.leb_le; exact Hp).
    split; [reflexivity|exact Hp].
Qed.

Lemma both_down_after_calls env cs : forall w n,
  (forall k, deepseek_reply env k = None) -> (forall k, openai_reply env k = None) ->
  tripped_at n (breaker w) ->
  tripped_at (n + length cs) (breaker (after_calls env cs w)).
Proof.
  induction cs as [|c cs IH]; intros w n Hd Ho Hn; simpl.
  - rewrite Nat.add_0_r. exact Hn.
  - replace (n + S (length cs))%nat with (S n + length cs)%nat by lia.
    apply IH; [assumption..|]. apply both_down_step; assumption.
Qed.

(** C1, as amended.  From CLOSED with counter 0, after any sequence of
    completion calls [cs] and for the call that follows:
    - between calls the breaker is CLOSED with a counter below 3 or OPEN
      with a counter of at least 3;
    - if it is CLOSED and the primary fails, the counter goes up by one and
      the breaker that the fallback sees is OPEN exactly when the counter
      has reached 3, CLOSED exactly when it is still below; if the fallback
      fails too, the call fails and that breaker is left behind; if the
      fallback answers, its answer is returned and the breaker is left
      CLOSED with counter 0, also when this call had just opened it;
    - if it is OPEN and less than 30 seconds have passed since the last
      recorded failure, the call fails at once with the breaker untouched
      and no provider request, and so does every run of calls made inside
      the window;
    - if it is OPEN and 30 seconds have passed, the breaker is set to
      HALF_OPEN before the primary is requested; a primary that answers
      leaves it CLOSED with counter 0; a primary that fails again sets it
      OPEN for the fallback, where it stays if the fallback fails, while an
      answering fallback is returned and leaves it CLOSED with counter 0;
    - every call that returns leaves the breaker CLOSED with counter 0;
    - in a sequence on which both providers fail at every request, the
      breaker is CLOSED with the number of calls as its counter before the
      third call, and OPEN from the third call on. *)
Theorem breaker_lifecycle (env : Env) (cs : list CompletionCall)
    (msg : Prompt) (h : list Turn) (o : Options) :
  let w := after_calls env cs initial_world in
  let b := breaker w in
  let t := tick w in
  let out := callWithBreaker env msg h o w in
  (circuitBreakerState b = CLOSED /\ 0 <= failureCount b < 3 \/
   circuitBreakerState b = OPEN /\ 3 <= failureCount b) /\
  (circuitBreakerState b = CLOSED -> deepseek_reply env t = None ->
   let b1 := failure_recorded b (Date_now env (S t)) in
   failureCount b1 = failureCount b + 1 /\
   (circuitBreakerState b1 = OPEN <-> failureCount b1 = 3) /\
   (circuitBreakerState b1 = CLOSED <-> failureCount b1 < 3) /\
   seen_breakers (trace (snd out)) = seen_breakers (trace w) ++ [b; b1] /\
   (openai_reply env (S (S t)) = None ->
    fst out = Err (Error "OpenAI call failed") /\ breaker (snd out) = b1) /\
   (forall text, openai_reply env (S (S t)) = Some text ->
    fst out = Ok text /\ breaker (snd out) = closed_again b1)) /\
  (circuitBreakerState b = OPEN ->
   Date_now env t - lastFailureTime b < CIRCUIT_BREAKER_RESET_TIME ->
   fst out = Err (Error "AI temporarily unavailable (circuit open)") /\
   breaker (snd out) = b /\
   trace (snd out) = trace w ++ [EvNow]) /\
  (circuitBreakerState b = OPEN ->
   forall later : list CompletionCall,
     (forall k : nat, (k < length later)%nat ->
        Date_now env (t + k)%nat - lastFailureTime b < CIRCUIT_BREAKER_RESET_TIME) ->
     breaker (after_calls env later w) = b /\
     provider_calls (trace (after_calls env later w)) = provider_calls (trace w)) /\
  (circuitBreakerState b = OPEN ->
   CIRCUIT_BREAKER_RESET_TIME <= Date_now env t - lastFailureTime b ->
   (exists evs, trace (snd out) =
                trace w ++ EvNow :: EvState HALF_OPEN ::
                           EvProvider DeepSeek msg (half_opened b) :: evs) /\
   (forall text, deepseek_reply env (S t) = Some text ->
    fst out = Ok text /\ breaker (snd out) = closed_again b) /\
   (deepseek_reply env (S t) = None ->
    let b2 := reopened b (Date_now env (S (S t))) in
    (exists evs, seen_breakers (trace (snd out)) =
                 seen_breakers (trace w) ++ half_opened b :: b2 :: evs) /\
    (openai_reply env (S (S (S t))) = None ->
     fst out = Err (Error "OpenAI call failed") /\ breaker (snd out) = b2) /\
    (forall text, openai_reply env (S (S (S t))) = Some text ->
     fst out = Ok text /\ breaker (snd out) = closed_again b2))) /\
  (forall text, fst out = Ok text ->
   circuitBreakerState (breaker (snd out)) = CLOSED /\ failureCount (breaker (snd out)) = 0) /\
  ((forall k, deepseek_reply env k = None) -> (forall k, openai_reply env k = None) ->
   ((length cs < 3)%nat ->
    circuitBreakerState b = CLOSED /\ failureCount b = Z.of_nat (length cs)) /\
   ((3 <= length cs)%nat -> circuitBreakerState b = OPEN /\ 3 <= failureCount b)).
Proof.
  intros w b t out.
  assert (Hdown : (forall k, deepseek_reply env k = None) ->
                  (forall k, openai_reply env k = None) ->
                  ((length cs < 3)%nat ->
                   circuitBreakerState b = CLOSED /\ failureCount b = Z.of_nat (length cs)) /\
                  ((3 <= length cs)%nat ->
                   circuitBreakerState b = OPEN /\ 3 <= failureCount b)).
  { intros Hd Ho.
    pose proof (both_down_after_calls env cs initial_world 0 Hd Ho) as H.
    simpl in H. fold w in H. fold b in H.
    assert (H0 : tripped_at 0 initial_breaker).
    { left. repeat split. lia. }
    specialize (H H0).
    split; intros Hlen; destruct H as [(Hlt & Hst & Hc)|(Hge & Hst & Hc)];
      first [ split; assumption | lia ]. }
  pose proof (after_calls_ok env cs initial_world initial_world_ok) as (Hb & _).
  fold w in Hb. pose proof (settled_cases _ Hb) as Hcases. clear Hb.
  subst out t b. clearbody w. destruct w as [b t tr]. simpl in *.
  split; [exact Hcases|].
  split; [|split; [|split; [|split; [|split]]]]; [..|exact Hdown].
  - (* CLOSED, the primary fails *)
    intros Hst Hd.
    destruct Hcases as [[_ Hlt]|[Hopen _]]; [|congruence].
    rewrite call_primary_fails by (congruence || assumption).
    unfold failure_recorded. rewrite (js_incr_small _ Hlt), Hst. simpl.
    unfold CIRCUIT_BREAKER_THRESHOLD.
    split; [|split; [|split; [|split; [|split]]]].
    + reflexivity.
    + destruct (3 <=? failureCount b + 1) eqn:E; split; intros;
        first [discriminate | arith | reflexivity].
    + destruct (3 <=? failureCount b + 1) eqn:E; split; intros;
        first [discriminate | arith | reflexivity].
    + destruct (openai_reply env (S (S t))); cbn [snd trace];
        destruct (3 <=? js_incr (failureCount b));
        rewrite !seen_breakers_app; simpl; rewrite ?app_nil_r; reflexivity.
    + intros ->. split; reflexivity.
    + intros text ->. split; reflexivity.
  - (* OPEN, inside the window *)
    intros Hst Hel. rewrite call_open by assumption.
    apply Z.ltb_lt in Hel. rewrite Hel. repeat split.
  - (* OPEN, a run of calls inside the window *)
    intros Hst later Hin.
    rewrite (stays_open env later {| breaker := b; tick := t; trace := tr |} Hst Hin).
    simpl. split; [reflexivity | apply provider_calls_now].
  - (* OPEN, the window has elapsed *)
    intros Hst Hel. rewrite call_open by assumption.
    apply Z.ltb_ge in Hel. rewrite Hel.
    split; [|split].
    + destruct (deepseek_reply env (S t)) as [text|] eqn:Hd.
      * rewrite (call_primary_ok _ _ _ _ _ _ _ text) by (simpl; congruence || assumption).
        simpl. eexists. rewrite <- app_assoc. reflexivity.
      * rewrite call_primary_fails by (simpl; congruence || assumption).
        destruct (openai_reply env (S (S (S t)))); simpl; eexists;
          rewrite <- !app_assoc; simpl; reflexivity.
    + intros text Hd.
      rewrite (call_primary_ok _ _ _ _ _ _ _ text) by (simpl; congruence || assumption).
      split; reflexivity.
    + intros Hd. rewrite call_primary_fails by (simpl; congruence || assumption).
      destruct Hcases as [[Hc _]|[_ Hge]]; [congruence|].
      assert (Hthr : (CIRCUIT_BREAKER_THRESHOLD <=? js_incr (failureCount b)) = true).
      { apply Z.leb_le. pose proof (js_incr_pos (failureCount b)). arith. }
      unfold failure_recorded, failure_events, reopened. simpl. rewrite Hthr.
      split; [|split].
      * destruct (openai_reply env (S (S (S t)))); simpl; eexists;
          rewrite !seen_breakers_app; simpl; rewrite <- ?app_assoc; simpl; reflexivity.
      * intros ->. split; reflexivity.
      * intros text ->. split; reflexivity.
  - (* any success *)
    intros text.
    destruct (decide (circuitBreakerState b = OPEN)) as [Hst|Hst].
    + rewrite call_open by assumption.
      destruct (Date_now env t - lastFailureTime b <? CIRCUIT_BREAKER_RESET_TIME);
        [discriminate|].
      destruct (deepseek_reply env (S t)) as [text'|] eqn:Hd.
      * rewrite (call_primary_ok _ _ _ _ _ _ _ text') by (simpl; congruence || assumption).
        split; reflexivity.
      * rewrite call_primary_fails by (simpl; congruence || assumption).
        destruct (openai_reply env (S (S (S t)))); simpl; [split; reflexivity | discriminate].
    + destruct (deepseek_reply env t) as [text'|] eqn:Hd.
      * rewrite (call_primary_ok _ _ _ _ _ _ _ text') by assumption. split; reflexivity.
      * rewrite call_primary_fails by assumption.
        destruct (openai_reply env (S (S t))); simpl; [split; reflexivity | discriminate].
Qed.

(** Three failing calls, then a call two seconds later; a call forty seconds
    later that finds the primary recovered; and a third call whose fallback
    answers. *)
Lemma breaker_lifecycle_witness :
  (* the first failure, from the initial state *)
  (let b1 := failure_recorded initial_breaker (Date_now env_down 1) in
   let out := callWithBreaker env_down (P_query "ping") [] no_options initial_world in
   failureCount b1 = 1 /\ circuitBreakerState b1 = CLOSED /\
   fst out = Err (Error "OpenAI call failed") /\ breaker (snd out) = b1) /\
  (* after three failures the breaker is OPEN and a call two seconds later fails fast *)
  (let w := after_calls env_down [a_call; a_call; a_call] initial_world in
   let out := callWithBreaker env_down (P_query "ping") [] no_options w in
   circuitBreakerState (breaker w) = OPEN /\ 3 <= failureCount (breaker w) /\
   fst out = Err (Error "AI temporarily unavailable (circuit open)") /\
   breaker (snd out) = breaker w /\ trace (snd out) = trace w ++ [EvNow] /\
   breaker (after_calls env_down [a_call; a_call] w) = breaker w) /\
  (* forty seconds after the third failure the primary is tried again, HALF_OPEN *)
  (let w := after_calls env_recovering [a_call; a_call; a_call] initial_world in
   let out := callWithBreaker env_recovering (P_query "ping") [] no_options w in
   fst out = Ok "pong" /\ breaker (snd out) = closed_again (breaker w) /\
   circuitBreakerState (breaker (snd out)) = CLOSED /\ failureCount (breaker (snd out)) = 0) /\
  (* the third call opens the breaker, and its answering fallback closes it *)
  (let w := after_calls env_fallback_third [a_call; a_call] initial_world in
   let b1 := failure_recorded (breaker w) (Date_now env_fallback_third (S (tick w))) in
   let out := callWithBreaker env_fallback_third (P_query "ping") [] no_options w in
   circuitBreakerState b1 = OPEN /\
   fst out = Ok "pong" /\ breaker (snd out) = closed_again b1).
Proof.
  split; [|split; [|split]].
  - pose proof (breaker_lifecycle env_down [] (P_query "ping") [] no_options) as H.
    cbv zeta in H. destruct H as (_ & H & _).
    destruct (H eq_refl eq_refl) as (H1 & _ & H3 & _ & H5 & _).
    cbv zeta. split; [exact H1|]. split; [apply H3; vm_compute; reflexivity|].
    apply H5. reflexivity.
  - pose proof (breaker_lifecycle env_down [a_call; a_call; a_call] (P_query "ping") []
                  no_options) as H.
    cbv zeta in H. destruct H as (_ & _ & H & Hrun & _ & _ & Hdown).
    cbv zeta.
    destruct (Hdown (fun _ => eq_refl) (fun _ => eq_refl)) as [_ Hopen].
    destruct Hopen as [Hst Hc]; [simpl; lia|].
    split; [exact Hst|]. split; [exact Hc|].
    destruct (H eq_refl) as (Hr & Hb & Ht); [vm_compute; reflexivity|].
    split; [exact Hr|]. split; [exact Hb|]. split; [exact Ht|].
    apply (Hrun eq_refl [a_call; a_call]).
    intros k Hk. destruct k as [|[|k]]; [vm_compute; reflexivity.. | simpl in Hk; lia].
  - pose proof (breaker_lifecycle env_recovering [a_call; a_call; a_call] (P_query "ping") []
                  no_options) as H.
    cbv zeta in H. destruct H as (_ & _ & _ & _ & H & H' & _).
    cbv zeta.
    assert (Hopen : circuitBreakerState
                      (breaker (after_calls env_recovering [a_call; a_call; a_call]
                                  initial_world)) = OPEN) by reflexivity.
    assert (Hel : CIRCUIT_BREAKER_RESET_TIME <=
                  Date_now env_recovering
                    (tick (after_calls env_recovering [a_call; a_call; a_call] initial_world)) -
                  lastFailureTime
                    (breaker (after_calls env_recovering [a_call; a_call; a_call]
                                initial_world))) by (vm_compute; discriminate).
    destruct (H Hopen Hel) as (_ & Hok & _).
    destruct (Hok "pong" eq_refl) as [Hr Hb].
    split; [exact Hr|]. split; [exact Hb|]. apply (H' "pong"). exact Hr.
  - pose proof (breaker_lifecycle env_fallback_third [a_call; a_call] (P_query "ping") []
                  no_options) as H.
    cbv zeta in H. destruct H as (_ & H & _).
    destruct (H eq_refl eq_refl) as (_ & H2 & _ & _ & _ & H6).
    cbv zeta. split; [apply H2; vm_compute; reflexivity|].
    apply (H6 "pong"). reflexivity.
Defined.

(** C1, the sentence as written fails.  The primary fails on every call,
    and the fallback answers the third call only.  The third call brings
    the counter to 3 and the fallback is asked with the breaker OPEN; its
    answer is returned and leaves the breaker CLOSED with counter 0.  The
    fourth call, two seconds after the last recorded failure and so inside
    the reset window, finds no open breaker: it does not fail fast and asks
    both providers. *)
Lemma fallback_closes_the_opening_call :
  let env := env_fallback_third in
  let w2 := after_calls env [a_call; a_call] initial_world in
  let w3 := after_calls env [a_call; a_call; a_call] initial_world in
  let out := callWithBreaker env (P_query "ping") [] no_options w3 in
  (forall k, deepseek_reply env k = None) /\
  (seen_breakers (trace w3) !! 5%nat =
     Some {| circuitBreakerState := OPEN; failureCount := 3; lastFailureTime := 7000 |}) /\
  (fst (callWithBreaker env (P_query "ping") [] no_options w2) = Ok "pong") /\
  (breaker w3 =
     {| circuitBreakerState := CLOSED; failureCount := 0; lastFailureTime := 7000 |}) /\
  (circuitBreakerState (breaker w3) <> OPEN) /\
  (Date_now env (tick w3) - lastFailureTime (breaker w3) = 2000) /\
  (2000 < CIRCUIT_BREAKER_RESET_TIME) /\
  (fst out = Err (Error "OpenAI call failed")) /\
  (fst out <> Err (Error "AI temporarily unavailable (circuit open)")) /\
  (provider_calls (trace (snd out)) = provider_calls (trace w3) ++ [DeepSeek; OpenAI]).
Proof.
  cbv zeta. split; [intros k; reflexivity|].
  repeat split; try (vm_compute; reflexivity); vm_compute; discriminate.
Qed.

(** The trace of the recovery shows the HALF_OPEN breaker with its counter
    at 3. *)
Example half_open_is_seen :
  In {| circuitBreakerState := HALF_OPEN; failureCount := 3; lastFailureTime := 140000 |}
     (seen_breakers
        (trace (after_calls env_recovering [a_call; a_call; a_call; a_call] initial_world))).
Proof. vm_compute. tauto. Qed.

(** ** The monad *)

Lemma bind_returns {A B} (m : M A) (k : A -> M B) w a w1 :
  m w = (Ok a, w1) -> bind m k w = k a w1.
Proof. unfold bind. intros ->. reflexivity. Qed.

Lemma bind_raises {A B} (m : M A) (k : A -> M B) w e w1 :
  m w = (Err e, w1) -> bind m k w = (Err e, w1).
Proof. unfold bind. intros ->. reflexivity. Qed.

Lemma try_catch_returns {A} (m : M A) (k : Exn -> M A) w a w1 :
  m w = (Ok a, w1) -> try_catch m k w = (Ok a, w1).
Proof. unfold try_catch. intros ->. reflexivity. Qed.

Lemma try_catch_raises {A} (m : M A) (k : Exn -> M A) w e w1 :
  m w = (Err e, w1) -> try_catch m k w = k e w1.
Proof. unfold try_catch. intros ->. reflexivity. Qed.

Lemma try_catch_total {A} (body : M A) (handler : Exn -> M A) (w : World) :
  (forall e w1, exists a w', handler e w1 = (Ok a, w')) ->
  exists a w', try_catch body handler w = (Ok a, w').
Proof.
  intros Hh. unfold try_catch. destruct (body w) as [[a|e] w1]; [eauto|apply Hh].
Qed.

(** ** Strings *)

Lemma prefix_map_string f p s :
  String.prefix p s = true -> String.prefix (map_string f p) (map_string f s) = true.
Proof.
  revert s. induction p as [|a p IH]; intros s H; [destruct s; reflexivity|].
  destruct s as [|b s]; simpl in *; [discriminate|].
  destruct (Ascii.ascii_dec a b) as [->|Hne]; [|discriminate].
  destruct (Ascii.ascii_dec (f b) (f b)); [|congruence]. apply IH, H.
Qed.

Lemma includes_nil sub : includes "" sub = String.prefix sub "".
Proof. simpl. apply orb_false_r. Qed.

Lemma includes_cons c s sub :
  includes (String c s) sub = String.prefix sub (String c s) || includes s sub.
Proof. reflexivity. Qed.

Lemma includes_map_string f s p :
  includes s p = true -> includes (map_string f s) (map_string f p) = true.
Proof.
  induction s as [|c s IH]; intros H.
  - rewrite includes_nil in H. apply (prefix_map_string f) in H.
    change (map_string f "") with "". rewrite includes_nil. exact H.
  - rewrite includes_cons in H.
    change (map_string f (String c s)) with (String (f c) (map_string f s)).
    rewrite includes_cons.
    apply orb_true_iff in H as [H|H].
    + apply (prefix_map_string f) in H.
      change (map_string f (String c s)) with (String (f c) (map_string f s)) in H.
      rewrite H. reflexivity.
    + rewrite (IH H). apply orb_true_r.
Qed.

(** ** Regular expressions: an anchored list of words *)

Lemma starts_with_nil text : starts_with "" text = true.
Proof. unfold starts_with. destruct text; reflexivity. Qed.

Lemma starts_with_cons c word a text :
  starts_with (String c word) (String a text) =
  Ascii.eqb (upper_char a) (upper_char c) && starts_with word text.
Proof.
  unfold starts_with. simpl.
  destruct (Ascii.ascii_dec (upper_char c) (upper_char a)) as [E|E].
  - rewrite E, Ascii.eqb_refl. reflexivity.
  - destruct (Ascii.eqb_spec (upper_char a) (upper_char c)); [congruence|reflexivity].
Qed.

Lemma match_here_Lit word prev text :
  is_Some (match_here true (Lit word) prev text rest_of) <-> starts_with word text = true.
Proof.
  revert prev text. induction word as [|c word IH]; intros prev text.
  - rewrite starts_with_nil. simpl. unfold rest_of. split; [reflexivity|eauto].
  - destruct text as [|a text].
    + simpl. split; [intros [x H]; discriminate|]. unfold starts_with. simpl. discriminate.
    + rewrite starts_with_cons. simpl. unfold chr_matches.
      destruct (Ascii.eqb (upper_char a) (upper_char c)); simpl.
      * apply IH.
      * split; [intros [x H]; discriminate | discriminate].
Qed.

Lemma match_here_Alts_Lit words prev text :
  is_Some (match_here true (Alts (map Lit words)) prev text rest_of) <->
  existsb (fun word => starts_with word text) words = true.
Proof.
  induction words as [|word words IH].
  - simpl. destruct text; simpl; split; try discriminate; intros [x H]; discriminate.
  - destruct words as [|word' words].
    + simpl. rewrite orb_false_r. apply match_here_Lit.
    + change (Alts (map Lit (word :: word' :: words)))
        with (Alt (Lit word) (Alts (map Lit (word' :: words)))).
      change (existsb (fun w => starts_with w text) (word :: word' :: words))
        with (starts_with word text || existsb (fun w => starts_with w text) (word' :: words)).
      cbn [match_here].
      pose proof (match_here_Lit word prev text) as Hw.
      destruct (match_here true (Lit word) prev text rest_of) as [rest|].
      * replace (starts_with word text) with true by (symmetry; apply Hw; eauto).
        split; eauto.
      * replace (starts_with word text) with false.
        { rewrite orb_false_l. exact IH. }
        destruct (starts_with word text); [|reflexivity].
        destruct (proj2 Hw eq_refl) as [x Hx]. discriminate.
Qed.

Lemma search_from_Bol_later r a text :
  search_from true (Seq Bol r) (Some a) text = None.
Proof.
  revert a. induction text as [|b text IH]; intros a; simpl; unfold match_at; simpl.
  - reflexivity.
  - apply IH.
Qed.

Lemma test_i_anchored_words words text :
  test_i (Seq Bol (Alts (map Lit words))) text =
  existsb (fun word => starts_with word text) words.
Proof.
  unfold test_i, match_i.
  pose proof (match_here_Alts_Lit words None text) as H.
  assert (Hs : search_from true (Seq Bol (Alts (map Lit words))) None text =
               match match_here true (Alts (map Lit words)) None text rest_of with
               | Some rest =>
                   Some (String.substring 0 (String.length text - String.length rest) text)
               | None => None
               end).
  { destruct text as [|a text]; simpl; unfold match_at; simpl; fold rest_of.
    - destruct (match_here true (Alts (map Lit words)) None "" rest_of); reflexivity.
    - destruct (match_here true (Alts (map Lit words)) None (String a text) rest_of);
        [reflexivity|]. apply search_from_Bol_later. }
  rewrite Hs.
  destruct (match_here true (Alts (map Lit words)) None text rest_of) as [rest|].
  - symmetry. apply H. eauto.
  - destruct (existsb _ words); [|reflexivity].
    destruct (proj2 H eq_refl) as [x Hx]. discriminate.
Qed.

Lemma questioning_words text :
  test_i questioning text =
  existsb (fun word => starts_with word text)
          ["should"; "would"; "do i"; "can i"; "is it"; "what if"].
Proof. apply test_i_anchored_words. Qed.

(** ** The session context *)

(** C2.  When Redis rejects, [getUserContext] and [setUserContext] reject
    with the same error, and so does [routeToAgents], whose first step is
    the read: the request fails.  Only the siblings [safeRedisGet] and
    [safeRedisSet], which the context helpers do not use, swallow the
    error and carry on with [null] and with nothing written. *)
Theorem session_context_unguarded (env : Env) (userId : string) (context : Context)
    (w : World) (e : Exn) :
  redis_get env (tick w) = Err e ->
  redis_set env (tick w) = Err e ->
  let after ev := {| breaker := breaker w; tick := S (tick w); trace := trace w ++ [ev] |} in
  raises (getUserContext env userId) w e (after (EvRedisGet (context_key userId))) /\
  raises (setUserContext env userId context) w e
         (after (EvRedisSetContext (context_key userId) context 3600)) /\
  (forall agents intent query history,
      raises (routeToAgents env agents intent query userId history) w e
             (after (EvRedisGet (context_key userId)))) /\
  (forall (A : Type) (parse : string -> option A) key,
      returns (safeRedisGet env parse key) w None (after (EvRedisGet key))) /\
  (forall key ttl, returns (safeRedisSet env key ttl) w tt (after (EvRedisSet key ttl))).
Proof.
  intros Hget Hset after.
  assert (Hread : raises (getUserContext env userId) w e (after (EvRedisGet (context_key userId)))).
  { unfold raises, getUserContext, redis_get_call, external, bind, settle. simpl.
    rewrite Hget. reflexivity. }
  split; [exact Hread|]. split; [|split; [|split]].
  - unfold raises, setUserContext, redis_set_context_call, external, bind, settle. simpl.
    rewrite Hset. reflexivity.
  - intros agents intent query history. unfold raises, routeToAgents.
    apply bind_raises. exact Hread.
  - intros A parse key.
    unfold returns, safeRedisGet, try_catch, redis_get_call, external, bind, settle. simpl.
    rewrite Hget. reflexivity.
  - intros key ttl.
    unfold returns, safeRedisSet, try_catch, redis_set_call, external, bind, settle. simpl.
    rewrite Hset. reflexivity.
Qed.

(** The same, with a Redis that refuses the connection. *)
Lemma session_context_unguarded_witness :
  raises (getUserContext env_redis_down "u1") initial_world ECONNREFUSED
         {| breaker := initial_breaker; tick := 1; trace := [EvRedisGet "context:u1"] |} /\
  returns (safeRedisGet env_redis_down (JSON_parse_context env_redis_down) "context:u1")
          initial_world None
          {| breaker := initial_breaker; tick := 1; trace := [EvRedisGet "context:u1"] |}.
Proof.
  pose proof (session_context_unguarded env_redis_down "u1" ∅ initial_world ECONNREFUSED
                eq_refl eq_refl) as H.
  cbv zeta in H. destruct H as (Hread & _ & _ & Hsafe & _).
  split; [exact Hread | apply Hsafe].
Defined.

(** The whole route then answers with its server error. *)
Example cache_down_fails_the_request :
  fst (chat_route env_redis_down (AgentOrchestrator_constructor env_redis_down)
         "hello" "u1" initial_world) = Ok server_error.
Proof. vm_compute. reflexivity. Qed.

(** ** The intent classifier *)

Lemma classify_unfold env query history :
  classify env query history =
  if answers_alone query history then ret followUp_intent
  else bind (callWithBreaker env (classify_prompt query history) [] classify_options)
            (fun response => try_catch (JSON_parse (JSON_parse_intent env) response)
                                       (fun e => ret fallback_intent)).
Proof.
  unfold classify, answers_alone.
  destruct (test_i questioning (trim query)); simpl; [|reflexivity].
  destruct (find_last is_assistant history) as [la|]; [|reflexivity].
  destruct (nonempty (content la)); simpl; [|reflexivity].
  destruct (includes (toLowerCase (content la)) "step" ||
            includes (toLowerCase (content la)) "troubleshoot"); reflexivity.
Qed.

(** C5.  When [classify] consults the provider and the response does not
    parse as JSON, [classify] returns the intent [general_question] with
    confidence 0.5 and an empty entity bag; and whatever [classify] raises
    was raised by [callWithBreaker], never by the parsing. *)
Theorem classify_parse_failure env query history w :
  (forall response w1,
      answers_alone query history = false ->
      returns (callWithBreaker env (classify_prompt query history) [] classify_options)
              w response w1 ->
      JSON_parse_intent env response = None ->
      returns (classify env query history) w fallback_intent w1) /\
  (forall e w',
      raises (classify env query history) w e w' ->
      raises (callWithBreaker env (classify_prompt query history) [] classify_options)
             w e w') /\
  primary fallback_intent = "general_question" /\
  confidence fallback_intent = (5 # 10)%Q /\
  entities fallback_intent = ∅.
Proof.
  split; [|split; [|repeat split]].
  - intros response w1 Hslow Hcall Hparse.
    unfold returns in *. rewrite classify_unfold, Hslow.
    rewrite (bind_returns _ _ _ _ _ Hcall).
    unfold try_catch, JSON_parse. rewrite Hparse. reflexivity.
  - intros e w'. unfold raises. rewrite classify_unfold.
    destruct (answers_alone query history); [discriminate|].
    unfold bind.
    destruct (callWithBreaker env (classify_prompt query history) [] classify_options w)
      as [[response|e1] w1]; [|intros H; inversion H; reflexivity].
    unfold try_catch, JSON_parse, ret, throw.
    destruct (JSON_parse_intent env response); intros H; discriminate H.
Qed.

(** A primary that answers in prose. *)
Lemma classify_parse_failure_witness :
  returns (classify env_chatty "hello" []) initial_world fallback_intent
          (snd (callWithBreaker env_chatty (classify_prompt "hello" []) [] classify_options
                  initial_world)).
Proof.
  destruct (classify_parse_failure env_chatty "hello" [] initial_world) as (Hfallback & _).
  apply (Hfallback "Sure, I can help with that!").
  - reflexivity.
  - vm_compute. reflexivity.
  - reflexivity.
Defined.

Lemma classify_answers_alone env query history lastAssistant w :
  test_i questioning (trim query) = true ->
  find_last is_assistant history = Some lastAssistant ->
  includes (toLowerCase (content lastAssistant)) "step" ||
  includes (toLowerCase (content lastAssistant)) "troubleshoot" = true ->
  returns (classify env query history) w followUp_intent w.
Proof.
  intros Hq Hla Hinc.
  unfold returns. rewrite classify_unfold. unfold answers_alone.
  rewrite Hq, Hla, Hinc. simpl.
  destruct (content lastAssistant) eqn:E; [|reflexivity].
  simpl in Hinc. discriminate.
Qed.

(** C6, as amended.  When the trimmed utterance matches the [questioning]
    pattern of the source (it starts, in any case, with should, would, do i,
    can i, is it or what if) and the most recent assistant turn of the
    history contains step or troubleshoot in any case, [classify] returns
    [general_question] with confidence 0.85 and the entity [isFollowUp:
    true], and the world is left as it was: no provider is called. *)
Theorem classify_follow_up env query history lastAssistant w :
  test_i questioning (trim query) = true ->
  find_last is_assistant history = Some lastAssistant ->
  includes (toLowerCase (content lastAssistant)) "step" ||
  includes (toLowerCase (content lastAssistant)) "troubleshoot" = true ->
  returns (classify env query history) w followUp_intent w /\
  primary followUp_intent = "general_question" /\
  confidence followUp_intent = (85 # 100)%Q /\
  entities followUp_intent !! "isFollowUp" = Some (SBool true) /\
  entities followUp_intent !! "context" = Some (SStr "troubleshooting").
Proof.
  intros Hq Hla Hinc. split; [|repeat split].
  apply (classify_answers_alone env query history lastAssistant w Hq Hla Hinc).
Qed.

(** The utterance of the specification, after a turn with "Step 1:". *)
Lemma classify_follow_up_witness :
  returns (classify env_down "should I call a technician?" after_steps) initial_world
          followUp_intent initial_world.
Proof.
  apply (classify_follow_up env_down "should I call a technician?" after_steps
           {| role := "assistant"; content := "Step 1: Check the door seal." |});
    reflexivity.
Defined.

(** The pattern spelled out: the six openings, in any letter case. *)
Corollary classify_follow_up_words env query history lastAssistant w :
  existsb (fun word => starts_with word (trim query))
          ["should"; "would"; "do i"; "can i"; "is it"; "what if"] = true ->
  find_last is_assistant history = Some lastAssistant ->
  includes (toLowerCase (content lastAssistant)) "step" ||
  includes (toLowerCase (content lastAssistant)) "troubleshoot" = true ->
  returns (classify env query history) w followUp_intent w.
Proof.
  intros Hq Hla Hinc. rewrite <- questioning_words in Hq.
  apply (classify_answers_alone env query history lastAssistant w Hq Hla Hinc).
Qed.

(** C6, as stated, fails on an utterance of the what-about form, which the
    pattern does not list: after the same assistant turn the primary is
    called, and what comes back here is the fallback intent at 0.5 without
    [isFollowUp]. *)
Lemma what_about_asks_the_provider :
  let out := classify env_up "what about the filter?" after_steps initial_world in
  String.prefix "what about" "what about the filter?" = true /\
  find_last is_assistant after_steps =
    Some {| role := "assistant"; content := "Step 1: Check the door seal." |} /\
  includes "Step 1: Check the door seal." "Step" = true /\
  fst out = Ok fallback_intent /\
  entities fallback_intent !! "isFollowUp" = None /\
  provider_calls (trace (snd out)) = [DeepSeek].
Proof. cbv zeta. repeat split; vm_compute; reflexivity. Qed.

(** ** The orchestrator *)

Section Routing.
Variables (env : Env) (agents : Agents).

Lemma routeToAgents_after_context intent query userId history w ctx w1 :
  returns (getUserContext env userId) w ctx w1 ->
  routeToAgents env agents intent query userId history w =
    (if followUp_rule intent history then
       response <- handleGeneralQuery env query history ;;
       ret (response, intent)
     else if bool_decide (slot ctx "expecting" = Some "model_number_for_compat") then
       let query' := trim (or_else (slot ctx "lastPart") "" +:+ " " +:+ query) in
       let cleared : Context := <["expecting" := None]> ctx in
       setUserContext env userId cleared ;;;
       response <- compatibility_check agents query' cleared history userId ;;
       setUserContext env userId
         (<["lastTopic" := topic (getConversationContext history)]>
            (<["lastIntent" := Some "compatibility_check"]> cleared)) ;;;
       ret (response, with_primary intent "compatibility_check")
     else
       response <- dispatch env agents (primary intent) query ctx userId history ;;
       setUserContext env userId
         (<["lastTopic" := topic (getConversationContext history)]>
            (<["lastIntent" := Some (primary intent)]> ctx)) ;;;
       ret (response, intent)) w1.
Proof.
  intros Hctx. unfold routeToAgents. rewrite (bind_returns _ _ _ _ _ Hctx).
  unfold followUp_rule.
  destruct (isFollowUp intent &&
            bool_decide (topic (getConversationContext history) = Some "troubleshooting"));
    [reflexivity|].
  destruct (bool_decide (slot ctx "expecting" = Some "model_number_for_compat")).
  - cbv zeta. unfold bind, ret.
    destruct (setUserContext env userId (<["expecting":=None]> ctx) w1) as [[[]|e] w2];
      reflexivity.
  - reflexivity.
Qed.

Lemma dispatch_unrecognized p query ctx userId history w :
  ~ In p recognized_intents ->
  dispatch env agents p query ctx userId history w =
    (Err (TypeError "this.handleOutOfScope is not a function"), w).
Proof.
  intros Hp. unfold dispatch.
  repeat match goal with
         | |- context [String.eqb p ?s] =>
             destruct (String.eqb_spec p s) as [->|_];
             [exfalso; apply Hp; unfold recognized_intents; simpl; tauto|]
         end.
  reflexivity.
Qed.

End Routing.

(** C4, as amended.  When the cache read returns a context whose
    [expecting] is [model_number_for_compat] and whose [lastPart] is
    PS11752778, and the follow-up rule does not apply to the classified
    intent, [routeToAgents] on the utterance WDT780SAEM1 is exactly this:
    the context with [expecting] set to null is written to the cache, then
    the compatibility handler is called with "PS11752778 WDT780SAEM1" and
    that context, then the context is written again with [lastIntent] set
    to [compatibility_check], and the intent handed back has that tag
    whatever the classifier said. *)
Theorem compatibility_continuation (env : Env) (agents : Agents) (intent : Intent)
    (userId : string) (history : list Turn) (ctx : Context) (w w1 : World) :
  returns (getUserContext env userId) w ctx w1 ->
  slot ctx "expecting" = Some "model_number_for_compat" ->
  slot ctx "lastPart" = Some "PS11752778" ->
  followUp_rule intent history = false ->
  let cleared : Context := <["expecting" := None]> ctx in
  slot cleared "expecting" = None /\
  routeToAgents env agents intent "WDT780SAEM1" userId history w =
    (setUserContext env userId cleared ;;;
     response <- compatibility_check agents "PS11752778 WDT780SAEM1" cleared history userId ;;
     setUserContext env userId
       (<["lastTopic" := topic (getConversationContext history)]>
          (<["lastIntent" := Some "compatibility_check"]> cleared)) ;;;
     ret (response, with_primary intent "compatibility_check")) w1.
Proof.
  intros Hctx Hexp Hpart Hrule cleared. split.
  - unfold slot, cleared. rewrite lookup_insert_eq. reflexivity.
  - rewrite (routeToAgents_after_context env agents _ _ _ _ _ _ _ Hctx), Hrule.
    rewrite bool_decide_eq_true_2 by exact Hexp.
    rewrite Hpart. reflexivity.
Qed.

(** With the stored context of the specification and the fallback intent. *)
Lemma compatibility_continuation_witness :
  let env := env_waiting "I cannot tell." None in
  let agents := AgentOrchestrator_constructor env in
  let w1 := snd (intent_classify agents "WDT780SAEM1" [] initial_world) in
  let w2 := snd (getUserContext env "u1" w1) in
  let cleared : Context := <["expecting" := None]> waiting_context in
  routeToAgents env agents fallback_intent "WDT780SAEM1" "u1" [] w1 =
    (setUserContext env "u1" cleared ;;;
     response <- compatibility_check agents "PS11752778 WDT780SAEM1" cleared [] "u1" ;;
     setUserContext env "u1"
       (<["lastTopic" := topic (getConversationContext [])]>
          (<["lastIntent" := Some "compatibility_check"]> cleared)) ;;;
     ret (response, with_primary fallback_intent "compatibility_check")) w2.
Proof.
  cbv zeta.
  apply (compatibility_continuation (env_waiting "I cannot tell." None)
           (AgentOrchestrator_constructor (env_waiting "I cannot tell." None))
           fallback_intent "u1" [] waiting_context).
  - vm_compute. reflexivity.
  - reflexivity.
  - reflexivity.
  - reflexivity.
Defined.

(** C4, as stated, fails for a classified intent that carries [isFollowUp]
    after an assistant turn about troubleshooting: the first rule of
    [routeToAgents] answers through the open-ended handler, the utterance
    goes to the provider as it is, nothing is written to the cache, and the
    response is tagged [general_question]. *)
Lemma follow_up_precedes_continuation :
  let env := env_waiting followUp_json (Some "That depends on the model.") in
  let agents := AgentOrchestrator_constructor env in
  let w1 := snd (intent_classify agents "WDT780SAEM1" model_reply initial_world) in
  let out := processQuery env agents "u1" "WDT780SAEM1" model_reply initial_world in
  returns (intent_classify agents "WDT780SAEM1" model_reply) initial_world followUp_reply w1 /\
  fst (getUserContext env "u1" w1) = Ok waiting_context /\
  slot waiting_context "expecting" = Some "model_number_for_compat" /\
  slot waiting_context "lastPart" = Some "PS11752778" /\
  fst out = Ok {| resp_message := Some "That depends on the model.";
                  resp_products := []; resp_actions := [];
                  resp_metadata := {| meta_intent := "general_question";
                                      meta_confidence := 9 # 10 |} |} /\
  trace (snd out) =
    [EvProvider DeepSeek (classify_prompt "WDT780SAEM1" model_reply) initial_breaker;
     EvCount 0; EvState CLOSED;
     EvRedisGet "context:u1";
     EvProvider DeepSeek (P_query "WDT780SAEM1") initial_breaker;
     EvCount 0; EvState CLOSED].
Proof. cbv zeta. repeat split; vm_compute; reflexivity. Qed.

(** C8.  An intent whose tag has no [case] of its own, [out_of_scope]
    included, reaches the [default] branch, which calls a method the class
    does not define: [routeToAgents] raises a TypeError instead of
    returning the response of an out-of-scope responder, and so does
    [processQuery]. *)
Theorem out_of_scope_raises (env : Env) (agents : Agents) (intent : Intent)
    (query userId : string) (history : list Turn) (ctx : Context) (w w1 : World) :
  returns (getUserContext env userId) w ctx w1 ->
  followUp_rule intent history = false ->
  slot ctx "expecting" <> Some "model_number_for_compat" ->
  ~ In (primary intent) recognized_intents ->
  raises (routeToAgents env agents intent query userId history) w
         (TypeError "this.handleOutOfScope is not a function") w1 /\
  (forall w0, returns (intent_classify agents query history) w0 intent w ->
              raises (processQuery env agents userId query history) w0
                     (TypeError "this.handleOutOfScope is not a function") w1).
Proof.
  intros Hctx Hrule Hexp Hp.
  assert (Hroute : raises (routeToAgents env agents intent query userId history) w
                          (TypeError "this.handleOutOfScope is not a function") w1).
  { unfold raises. rewrite (routeToAgents_after_context env agents _ _ _ _ _ _ _ Hctx), Hrule.
    rewrite bool_decide_eq_false_2 by exact Hexp.
    apply bind_raises. apply dispatch_unrecognized, Hp. }
  split; [exact Hroute|].
  intros w0 Hcl. unfold raises, processQuery.
  rewrite (bind_returns _ _ _ _ _ Hcl). apply bind_raises. exact Hroute.
Qed.

(** The classifier answers [out_of_scope]. *)
Lemma out_of_scope_raises_witness :
  let env := env_replying out_of_scope_json None in
  let agents := AgentOrchestrator_constructor env in
  let q := "What is the capital of France?" in
  let w1 := snd (intent_classify agents q [] initial_world) in
  let w2 := snd (getUserContext env "u1" w1) in
  raises (processQuery env agents "u1" q []) initial_world
         (TypeError "this.handleOutOfScope is not a function") w2.
Proof.
  intros env agents q w1 w2.
  refine (proj2 (out_of_scope_raises env agents out_of_scope_intent q "u1" [] ∅ w1 w2
                   _ _ _ _) initial_world _).
  - vm_compute. reflexivity.
  - reflexivity.
  - vm_compute. discriminate.
  - vm_compute. intros H. repeat (destruct H as [H|H]; [discriminate|]). exact H.
  - vm_compute. reflexivity.
Defined.

(** C3, as amended.  Neither [routeToAgents] nor [processQuery] catches:
    what the dispatched handler raises, at any of the three places where a
    handler is called, [routeToAgents] raises, and [processQuery] raises
    what [routeToAgents] raises.  It is the chat route that catches it and
    answers with its fixed server error, which carries an apologetic text
    and neither products nor actions. *)
Theorem handler_failure_reaches_route (env : Env) (agents : Agents)
    (userId query : string) (history : list Turn) :
  (* the open-ended handler, after a follow-up *)
  (forall intent w ctx w1 e w2,
      returns (getUserContext env userId) w ctx w1 ->
      followUp_rule intent history = true ->
      raises (handleGeneralQuery env query history) w1 e w2 ->
      raises (routeToAgents env agents intent query userId history) w e w2) /\
  (* the handler of the classified intent *)
  (forall intent w ctx w1 e w2,
      returns (getUserContext env userId) w ctx w1 ->
      followUp_rule intent history = false ->
      slot ctx "expecting" <> Some "model_number_for_compat" ->
      raises (dispatch env agents (primary intent) query ctx userId history) w1 e w2 ->
      raises (routeToAgents env agents intent query userId history) w e w2) /\
  (* the compatibility handler, on a continuation *)
  (forall intent w ctx w1 w2 e w3,
      returns (getUserContext env userId) w ctx w1 ->
      followUp_rule intent history = false ->
      slot ctx "expecting" = Some "model_number_for_compat" ->
      let cleared : Context := <["expecting" := None]> ctx in
      returns (setUserContext env userId cleared) w1 tt w2 ->
      raises (compatibility_check agents
                (trim (or_else (slot ctx "lastPart") "" +:+ " " +:+ query))
                cleared history userId) w2 e w3 ->
      raises (routeToAgents env agents intent query userId history) w e w3) /\
  (* processQuery hands on what routing raises *)
  (forall intent w w1 e w2,
      returns (intent_classify agents query history) w intent w1 ->
      raises (routeToAgents env agents intent query userId history) w1 e w2 ->
      raises (processQuery env agents userId query history) w e w2) /\
  (* the route's catch answers in its place *)
  (forall convId w w1 e w2,
      nonempty (trim query) = true ->
      returns (chat_load_history env (trim query) userId) w (convId, history) w1 ->
      raises (processQuery env agents userId (trim query) history) w1 e w2 ->
      returns (chat_route env agents query userId) w server_error w2).
Proof.
  split; [|split; [|split; [|split]]].
  - intros intent w ctx w1 e w2 Hctx Hrule Hh. unfold raises.
    rewrite (routeToAgents_after_context env agents _ _ _ _ _ _ _ Hctx), Hrule.
    apply bind_raises, Hh.
  - intros intent w ctx w1 e w2 Hctx Hrule Hexp Hh. unfold raises.
    rewrite (routeToAgents_after_context env agents _ _ _ _ _ _ _ Hctx), Hrule.
    rewrite bool_decide_eq_false_2 by exact Hexp.
    apply bind_raises, Hh.
  - intros intent w ctx w1 w2 e w3 Hctx Hrule Hexp cleared Hset Hh. unfold raises.
    rewrite (routeToAgents_after_context env agents _ _ _ _ _ _ _ Hctx), Hrule.
    rewrite bool_decide_eq_true_2 by exact Hexp.
    cbv zeta. rewrite (bind_returns _ _ _ _ _ Hset).
    apply bind_raises, Hh.
  - intros intent w w1 e w2 Hcl Hr. unfold raises, processQuery.
    rewrite (bind_returns _ _ _ _ _ Hcl). apply bind_raises, Hr.
  - intros convId w w1 e w2 Hne Hload Hp. unfold returns, chat_route.
    erewrite try_catch_raises; [reflexivity|].
    cbv zeta. rewrite Hne. cbn [negb].
    unfold returns in Hload. unfold bind at 1. rewrite Hload.
    apply bind_raises, Hp.
Qed.

(** The order handler fails on a billing question when both providers are
    down. *)
Lemma handler_failure_reaches_route_witness :
  let env := env_replying order_json None in
  let agents := AgentOrchestrator_constructor env in
  let w1 := snd (intent_classify agents billing [] initial_world) in
  let w2 := snd (getUserContext env "u1" w1) in
  let w3 := snd (order_assist agents billing ∅ [] w2) in
  raises (processQuery env agents "u1" billing []) initial_world
         (Error "OpenAI call failed") w3.
Proof.
  cbv zeta.
  pose proof (handler_failure_reaches_route (env_replying order_json None)
                (AgentOrchestrator_constructor (env_replying order_json None))
                "u1" billing []) as (_ & Hd & _ & Hp & _).
  eapply Hp; [vm_compute; reflexivity|].
  eapply Hd; [vm_compute; reflexivity | reflexivity | vm_compute; discriminate
             | vm_compute; reflexivity].
Defined.

(** C3, as stated, fails there: the classifier returns [order_support], the
    context is read, the order handler raises, and [processQuery] returns no
    response but raises the handler's error. *)
Lemma handler_failure_escapes_processQuery :
  let env := env_replying order_json None in
  let agents := AgentOrchestrator_constructor env in
  let w1 := snd (intent_classify agents billing [] initial_world) in
  let w2 := snd (getUserContext env "u1" w1) in
  let out := processQuery env agents "u1" billing [] initial_world in
  returns (intent_classify agents billing []) initial_world order_intent w1 /\
  returns (getUserContext env "u1") w1 ∅ w2 /\
  raises (order_assist agents billing ∅ []) w2 (Error "OpenAI call failed") (snd out) /\
  fst out = Err (Error "OpenAI call failed") /\
  ~ (exists response, fst out = Ok response).
Proof.
  cbv zeta. repeat split; try (vm_compute; reflexivity).
  intros [response H]. vm_compute in H. discriminate.
Qed.

(** ** The response envelope *)

Lemma indicators_lower phrase :
  In phrase completionIndicators -> toLowerCase phrase = phrase.
Proof.
  unfold completionIndicators. simpl.
  intros H. repeat (destruct H as [<-|H]; [reflexivity|]). destruct H.
Qed.

Lemma has_input_action_app a1 a2 :
  has_input_action (a1 ++ a2) = has_input_action a1 || has_input_action a2.
Proof. apply existsb_app. Qed.

Lemma has_completion_offer_app a1 a2 :
  has_completion_offer (a1 ++ a2) = has_completion_offer a1 || has_completion_offer a2.
Proof. apply existsb_app. Qed.

Lemma shouldOfferCompletion_input r :
  has_input_action (default [] (actions r)) = true -> shouldOfferCompletion r = false.
Proof.
  unfold shouldOfferCompletion, has_input_action.
  destruct (actions r) as [acts|]; simpl; [|discriminate].
  intros ->. reflexivity.
Qed.

Lemma shouldOfferCompletion_closing r m phrase :
  message r = Some m ->
  In phrase completionIndicators ->
  includes m phrase = true ->
  has_input_action (default [] (actions r)) = false ->
  shouldOfferCompletion r = true.
Proof.
  intros Hm Hin Hinc Hno. unfold shouldOfferCompletion.
  replace (match actions r with Some acts => existsb is_input_action acts | None => false end)
    with false by (unfold has_input_action in Hno; destruct (actions r); simpl in *; congruence).
  rewrite Hm. change (toLowerCase <$> Some m) with (Some (toLowerCase m)).
  apply (includes_map_string lower_char) in Hinc.
  fold (toLowerCase m) in Hinc. fold (toLowerCase phrase) in Hinc.
  rewrite (indicators_lower _ Hin) in Hinc.
  assert (Hne : toLowerCase m <> "").
  { intros E. rewrite E in Hinc. revert Hin Hinc. unfold completionIndicators. simpl.
    intros Hin. repeat (destruct Hin as [<-|Hin]; [discriminate|]). destruct Hin. }
  unfold or_else. destruct (String.eqb_spec (toLowerCase m) ""); [contradiction|].
  apply existsb_exists. exists phrase. split; assumption.
Qed.

Lemma formatResponse_cases r intent :
  let acts := default [] (actions r) in
  resp_actions (formatResponse r intent) = acts \/
  resp_actions (formatResponse r intent) = acts ++ [completion_offer] /\
  has_input_action acts = false.
Proof.
  intros acts. unfold formatResponse.
  destruct (shouldOfferCompletion r) eqn:E; simpl; [right|left; reflexivity].
  split; [reflexivity|]. destruct (has_input_action acts) eqn:Hi; [|reflexivity].
  rewrite (shouldOfferCompletion_input r Hi) in E. discriminate.
Qed.

Lemma formatResponse_exclusive r intent :
  no_offer r ->
  has_input_action (resp_actions (formatResponse r intent)) &&
  has_completion_offer (resp_actions (formatResponse r intent)) = false.
Proof.
  intros Hno. destruct (formatResponse_cases r intent) as [->|[-> Hi]].
  - rewrite Hno. apply andb_false_r.
  - rewrite has_input_action_app, Hi. reflexivity.
Qed.

(** *** What the agents of the constructor return *)

Lemma ensures_ret {A} (a : A) (P : A -> Prop) : P a -> ensures (ret a) P.
Proof. intros H w a' w' E. inversion E. subst. exact H. Qed.

Lemma ensures_throw {A} (e : Exn) (P : A -> Prop) : ensures (throw e) P.
Proof. intros w a w' E. discriminate. Qed.

Lemma ensures_bind_post {A B} (m : M A) (k : A -> M B) (Q : A -> Prop) (P : B -> Prop) :
  ensures m Q -> (forall a, Q a -> ensures (k a) P) -> ensures (bind m k) P.
Proof.
  intros Hm Hk w b w' E. unfold bind in E.
  destruct (m w) as [[a|e] w1] eqn:Em; [|discriminate].
  exact (Hk a (Hm w a w1 Em) w1 b w' E).
Qed.

Lemma ensures_bind {A B} (m : M A) (k : A -> M B) (P : B -> Prop) :
  (forall a, ensures (k a) P) -> ensures (bind m k) P.
Proof.
  intros Hk. apply (ensures_bind_post m k (fun _ => True)); [intros ? ? ? ?; exact I|].
  intros a _. apply Hk.
Qed.

Lemma ensures_try_catch {A} (body : M A) (handler : Exn -> M A) (P : A -> Prop) :
  ensures body P -> (forall e, ensures (handler e) P) -> ensures (try_catch body handler) P.
Proof.
  intros Hb Hh w a w' E. unfold try_catch in E.
  destruct (body w) as [[a1|e] w1] eqn:Eb.
  - inversion E. subst. exact (Hb w a w' Eb).
  - exact (Hh e w1 a w' E).
Qed.

(** One step down the structure of an agent. *)
Ltac ensures_step :=
  first
    [ apply ensures_throw
    | apply ensures_ret; unfold no_offer; simpl;
      repeat match goal with |- context [if ?c then _ else _] => destruct c end;
      reflexivity
    | apply ensures_try_catch; [|intros ?]
    | apply ensures_bind; intros ?
    | match goal with
      | |- ensures (if ?c then _ else _) _ => destruct c
      | |- ensures (match ?x with _ => _ end) _ => destruct x
      end ].

Section NoOffer.
Variable env : Env.

Lemma search_no_offer query context history :
  ensures (ProductSearchAgent_search env query context history) no_offer.
Proof. unfold ProductSearchAgent_search. repeat ensures_step. Qed.

Lemma check_no_offer query context history userId :
  ensures (CompatibilityAgent_check env query context history userId) no_offer.
Proof. unfold CompatibilityAgent_check. repeat ensures_step. Qed.

Lemma diagnose_no_offer query context history :
  ensures (TroubleshootingAgent_diagnose env query context history) no_offer.
Proof.
  unfold TroubleshootingAgent_diagnose, TroubleshootingAgent_provideSolution.
  repeat ensures_step.
Qed.

Lemma guide_no_offer query context history :
  ensures (InstallationAgent_guide env query context history) no_offer.
Proof. unfold InstallationAgent_guide. repeat ensures_step. Qed.

Lemma assist_no_offer query context history :
  ensures (OrderSupportAgent_assist env query context history) no_offer.
Proof.
  unfold OrderSupportAgent_assist, OrderSupportAgent_handleOrderTracking,
    OrderSupportAgent_handleReturn, OrderSupportAgent_handleShippingInfo,
    OrderSupportAgent_handleGeneralOrderQuery.
  repeat ensures_step.
Qed.

Lemma general_no_offer query history :
  ensures (handleGeneralQuery env query history) no_offer.
Proof. unfold handleGeneralQuery. repeat ensures_step. Qed.

Lemma dispatch_no_offer p query context userId history :
  ensures (dispatch env (AgentOrchestrator_constructor env) p query context userId history)
          no_offer.
Proof.
  unfold dispatch. simpl.
  repeat match goal with |- ensures (if ?c then _ else _) _ => destruct c end;
    auto using search_no_offer, check_no_offer, diagnose_no_offer, guide_no_offer,
      assist_no_offer, general_no_offer.
  apply ensures_throw.
Qed.

Lemma route_no_offer intent query userId history :
  ensures (routeToAgents env (AgentOrchestrator_constructor env) intent query userId history)
          (fun routed => no_offer (fst routed)).
Proof.
  unfold routeToAgents. apply ensures_bind; intros context.
  destruct (isFollowUp intent && _).
  - apply (ensures_bind_post _ _ no_offer); [apply general_no_offer|].
    intros response Hr. apply ensures_ret. exact Hr.
  - apply ensures_bind; intros [[intent' query'] context'].
    apply (ensures_bind_post _ _ no_offer); [apply dispatch_no_offer|].
    intros response Hr. apply ensures_bind; intros _. apply ensures_ret. exact Hr.
Qed.

Lemma processQuery_exclusive userId query history :
  ensures (processQuery env (AgentOrchestrator_constructor env) userId query history)
          (fun response =>
             has_input_action (resp_actions response) &&
             has_completion_offer (resp_actions response) = false).
Proof.
  unfold processQuery. apply ensures_bind; intros intent.
  apply (ensures_bind_post _ _ (fun routed => no_offer (fst routed)));
    [apply route_no_offer|].
  intros [response intent'] Hr. apply ensures_ret.
  apply formatResponse_exclusive. exact Hr.
Qed.

End NoOffer.

(** C7.  When the message of a handler's response contains one of the
    closing phrases and its actions hold no input action, [formatResponse]
    returns the handler's actions followed by the one completion offer with
    its three suggestions; when the actions hold an input action, it returns
    them unchanged.  Nothing else is ever appended, so a response that came
    without an offer never leaves with an input action and an offer
    together; and no agent of the constructor builds an offer, so no
    response that [processQuery] returns holds both. *)
Theorem completion_offer_exclusive (r : AgentResponse) (intent : Intent) :
  let out := formatResponse r intent in
  let acts := default [] (actions r) in
  (forall m phrase,
      message r = Some m -> In phrase completionIndicators -> includes m phrase = true ->
      has_input_action acts = false ->
      resp_actions out = acts ++ [completion_offer]) /\
  (has_input_action acts = true -> resp_actions out = acts) /\
  (resp_actions out = acts \/
   resp_actions out = acts ++ [completion_offer] /\ has_input_action acts = false) /\
  (has_completion_offer acts = false ->
   has_input_action (resp_actions out) && has_completion_offer (resp_actions out) = false) /\
  (forall env userId query history w response w',
      returns (processQuery env (AgentOrchestrator_constructor env) userId query history)
              w response w' ->
      has_input_action (resp_actions response) &&
      has_completion_offer (resp_actions response) = false) /\
  completion_offer =
    conversation_completion ["Find another part"; "Ask something else"; "Start new chat"].
Proof.
  intros out acts. subst out.
  split; [|split; [|split; [|split; [|split]]]].
  - intros m phrase Hm Hin Hinc Hno. unfold formatResponse.
    rewrite (shouldOfferCompletion_closing r m phrase Hm Hin Hinc Hno). reflexivity.
  - intros Hi. unfold formatResponse. rewrite (shouldOfferCompletion_input r Hi). reflexivity.
  - apply formatResponse_cases.
  - apply formatResponse_exclusive.
  - intros env userId query history w response w' Hp.
    exact (processQuery_exclusive env userId query history w response w' Hp).
  - reflexivity.
Qed.

(** A response that closes with "hope this helps", first with a product
    display, then with an input prompt. *)
Lemma completion_offer_exclusive_witness :
  let shown := [product_cards []] in
  let asked := [input_prompt "model_number" "Enter model number (e.g. WDT780SAEM1)"] in
  resp_actions (formatResponse (closing_response shown) fallback_intent) =
    shown ++ [completion_offer] /\
  resp_actions (formatResponse (closing_response asked) fallback_intent) = asked /\
  has_input_action (resp_actions (formatResponse (closing_response asked) fallback_intent)) &&
  has_completion_offer (resp_actions (formatResponse (closing_response asked) fallback_intent))
  = false.
Proof.
  intros shown asked.
  destruct (completion_offer_exclusive (closing_response shown) fallback_intent)
    as (Happend & _).
  destruct (completion_offer_exclusive (closing_response asked) fallback_intent)
    as (_ & Hkeep & _ & Hnever & _ & _).
  split; [|split].
  - apply (Happend "Glad that is sorted. I hope this helps!" "hope this helps");
      [reflexivity | | reflexivity | reflexivity].
    unfold completionIndicators. simpl. tauto.
  - apply Hkeep. reflexivity.
  - apply Hnever. reflexivity.
Defined.

(** ** The domain agents *)

Section ProvidersDown.
Variables (env : Env) (w : World).
Hypothesis Hclosed : circuitBreakerState (breaker w) = CLOSED.
Hypothesis Hprimary : deepseek_reply env (tick w) = None.
Hypothesis Hfallback : openai_reply env (S (S (tick w))) = None.

Lemma call_raises_when_down msg h o :
  exists w', raises (callWithBreaker env msg h o) w (Error "OpenAI call failed") w'.
Proof.
  destruct w as [b t tr]. simpl in *. unfold raises.
  rewrite call_primary_fails by (congruence || assumption).
  cbv zeta. rewrite Hfallback. eexists. reflexivity.
Qed.

Lemma bind_call_raises {B} msg h o (k : string -> M B) :
  exists w', raises (bind (callWithBreaker env msg h o) k) w (Error "OpenAI call failed") w'.
Proof.
  destruct (call_raises_when_down msg h o) as [w' H].
  exists w'. apply bind_raises, H.
Qed.

End ProvidersDown.

Lemma check_raises_when_redis_down env query context history userId w e :
  redis_get env (tick w) = Err e ->
  exists w', raises (CompatibilityAgent_check env query context history userId) w e w'.
Proof.
  intros Hget.
  unfold raises, CompatibilityAgent_check, CompatibilityAgent_extractEntities,
    CompatibilityAgent_extractFromHistory.
  destruct (extract_part_and_model query) as [p m].
  unfold bind at 1. unfold ret at 1.
  assert (Hread : forall k : Context -> M AgentResponse,
             exists w', bind (getUserContext env userId) k w = (Err e, w')).
  { intros k. eexists. apply bind_raises.
    unfold getUserContext, redis_get_call, external, bind, settle. simpl.
    rewrite Hget. reflexivity. }
  destruct (negb (truthy_str p) || negb (truthy_str m)).
  - unfold bind at 1. unfold bind at 1. unfold ret at 1 2.
    destruct (extract_part_and_model _) as [p' m']. simpl fst. simpl snd.
    apply Hread.
  - unfold bind at 1. unfold ret at 1. apply Hread.
Qed.

(** C9.  With the breaker CLOSED and both providers failing, the
    troubleshooting agent raises, and so do the installation agent once the
    utterance names a part and the order agent on a general order question;
    the compatibility agent raises when the Redis read rejects.  Only the
    product search, whose whole body sits in a [try], always returns a
    response. *)
Theorem agents_propagate_downstream_failure (env : Env) (query : string)
    (context : Context) (history : list Turn) (w : World) :
  (circuitBreakerState (breaker w) = CLOSED ->
   deepseek_reply env (tick w) = None ->
   openai_reply env (S (S (tick w))) = None ->
   (exists w', raises (TroubleshootingAgent_diagnose env query context history) w
                      (Error "OpenAI call failed") w') /\
   (is_Some (match_i re_install_part query) ->
    exists w', raises (InstallationAgent_guide env query context history) w
                      (Error "OpenAI call failed") w') /\
   (OrderSupportAgent_classifyOrderIntent query = ret "general" ->
    exists w', raises (OrderSupportAgent_assist env query context history) w
                      (Error "OpenAI call failed") w')) /\
  (forall e userId,
      redis_get env (tick w) = Err e ->
      exists w', raises (CompatibilityAgent_check env query context history userId) w e w') /\
  (exists response w',
      returns (ProductSearchAgent_search env query context history) w response w').
Proof.
  split; [|split].
  - intros Hc Hd Ho. split; [|split].
    + unfold TroubleshootingAgent_diagnose.
      destruct (detectUserProgress query history).
      * unfold TroubleshootingAgent_provideSolution.
        apply (bind_call_raises env w Hc Hd Ho).
      * unfold TroubleshootingAgent_analyzeProblem.
        destruct (bind_call_raises env w Hc Hd Ho
                    (P_analyze query (slice_last 3 history)) []
                    {| systemPrompt := Some SP_troubleshooting; temperature := Some (5 # 10)%Q;
                       maxTokens := None; responseFormat := Some "json" |}
                    (fun response =>
                       try_catch (JSON_parse (JSON_parse_analysis env) response)
                         (fun _ => ret {| likelyCause := Some "Unknown"; steps := Some [];
                                          parts := Some [] |}))) as [w' H].
        exists w'. apply bind_raises. exact H.
    + intros [partNumber Hm]. unfold InstallationAgent_guide, InstallationAgent_extractPartInfo.
      rewrite Hm. unfold bind at 1. unfold ret at 1. simpl.
      unfold InstallationAgent_getInstallationGuide.
      destruct (bind_call_raises env w Hc Hd Ho
                  (P_installation (toUpperCase partNumber)) []
                  {| systemPrompt := Some SP_installation; temperature := Some (5 # 10)%Q;
                     maxTokens := None; responseFormat := None |}
                  (fun instructions =>
                     ret {| instructions := instructions;
                            videoUrl := "https://partselect.com/videos/" +:+
                                        toUpperCase partNumber;
                            pdfUrl := "https://partselect.com/guides/" +:+
                                      toUpperCase partNumber +:+ ".pdf";
                            estimatedTime := "30-45 minutes";
                            difficulty := "Medium";
                            toolsNeeded := ["Phillips screwdriver"; "Flathead screwdriver";
                                            "Pliers"] |})) as [w' H].
      exists w'. apply bind_raises. exact H.
    + intros Hg. unfold OrderSupportAgent_assist. rewrite Hg.
      unfold bind at 1. unfold ret at 1. simpl.
      unfold OrderSupportAgent_handleGeneralOrderQuery.
      apply (bind_call_raises env w Hc Hd Ho).
  - intros e userId. apply check_raises_when_redis_down.
  - unfold returns, ProductSearchAgent_search. apply try_catch_total.
    intros e w1. eexists _, _. reflexivity.
Qed.

(** Each unguarded agent at an input that makes it raise. *)
Lemma agents_propagate_downstream_failure_witness :
  (exists w', raises (TroubleshootingAgent_diagnose env_down "My dishwasher is not draining"
                        ∅ []) initial_world (Error "OpenAI call failed") w') /\
  (exists w', raises (InstallationAgent_guide env_down "How do I install PS11752778?" ∅ [])
                     initial_world (Error "OpenAI call failed") w') /\
  (exists w', raises (OrderSupportAgent_assist env_down billing ∅ [])
                     initial_world (Error "OpenAI call failed") w') /\
  (exists w', raises (CompatibilityAgent_check env_redis_down
                        "Is PS11752778 compatible with WDT780SAEM1?" ∅ [] "u1")
                     initial_world ECONNREFUSED w').
Proof.
  split; [|split; [|split]].
  - destruct (agents_propagate_downstream_failure env_down "My dishwasher is not draining"
                ∅ [] initial_world) as (Hdown & _).
    destruct (Hdown eq_refl eq_refl eq_refl) as (Hdiagnose & _).
    exact Hdiagnose.
  - destruct (agents_propagate_downstream_failure env_down "How do I install PS11752778?"
                ∅ [] initial_world) as (Hdown & _).
    destruct (Hdown eq_refl eq_refl eq_refl) as (_ & Hguide & _).
    apply Hguide. exists "PS11752778". vm_compute. reflexivity.
  - destruct (agents_propagate_downstream_failure env_down billing ∅ [] initial_world)
      as (Hdown & _).
    destruct (Hdown eq_refl eq_refl eq_refl) as (_ & _ & Hassist).
    apply Hassist. reflexivity.
  - destruct (agents_propagate_downstream_failure env_redis_down
                "Is PS11752778 compatible with WDT780SAEM1?" ∅ [] initial_world)
      as (_ & Hredis & _).
    apply (Hredis ECONNREFUSED "u1"). reflexivity.
Defined.

(** * Further properties of the code *)

(** ** The monad, read backwards *)

Lemma bind_ok_inv {A B} (m : M A) (k : A -> M B) w b w' :
  bind m k w = (Ok b, w') -> exists a w1, m w = (Ok a, w1) /\ k a w1 = (Ok b, w').
Proof.
  unfold bind. destruct (m w) as [[a|e] w1]; [eauto|discriminate].
Qed.

Lemma setUserContext_ok_inv env userId context w w' :
  setUserContext env userId context w = (Ok tt, w') ->
  trace w' = trace w ++ [EvRedisSetContext (context_key userId) context 3600].
Proof.
  unfold setUserContext, redis_set_context_call, external, bind, settle.
  destruct (redis_set env (tick w)) as [[]|e]; unfold ret, throw; intros E; inversion E.
  reflexivity.
Qed.

Lemma external_ok_inv {A} ev (answer : nat -> Res A) w a w' :
  bind (external ev answer) settle w = (Ok a, w') ->
  answer (tick w) = Ok a /\ w' = after_event w ev.
Proof.
  unfold bind, external, settle, after_event.
  destruct (answer (tick w)) as [a'|e]; unfold ret, throw; intros E; inversion E; auto.
Qed.

(** ** One call of [callWithBreaker], from any breaker *)

(** One path through [callWithBreaker]: the requests it made and what came
    of them. *)
Ltac requests_leaf :=
  eexists; split; [ rewrite <- ?app_assoc; reflexivity | ];
  first
    [ left; repeat split; reflexivity
    | right; left; split; [ reflexivity | split; [ eauto | reflexivity ] ]
    | right; right; split; [ reflexivity | ];
      first [ left; split; [ eauto | split; reflexivity ]
            | right; split; reflexivity ] ].

(** X1.  Whatever the breaker and the providers, one call of
    [callWithBreaker] does one of three things.  It makes no provider
    request: then the breaker was OPEN, is left as it was, and the call
    raises "AI temporarily unavailable (circuit open)".  It asks DeepSeek
    only: then DeepSeek answered, the call returns that answer, and the
    breaker is CLOSED with counter 0.  It asks DeepSeek and then OpenAI:
    then either OpenAI answered, the call returns that answer and the
    breaker is CLOSED with counter 0, or the call raises "OpenAI call
    failed" with the counter incremented once.  So a provider is asked at
    most once per call, OpenAI never before DeepSeek, and the error of
    DeepSeek never reaches the caller. *)
Theorem call_requests (env : Env) (msg : Prompt) (h : list Turn) (o : Options) (w : World) :
  match callWithBreaker env msg h o w with
  | (r, w') =>
      exists evs,
        trace w' = trace w ++ evs /\
        (provider_calls evs = [] /\
         r = Err (Error "AI temporarily unavailable (circuit open)") /\
         breaker w' = breaker w /\ circuitBreakerState (breaker w) = OPEN
         \/
         provider_calls evs = [DeepSeek] /\
         (exists t text, deepseek_reply env t = Some text /\ r = Ok text) /\
         breaker w' = closed_again (breaker w)
         \/
         provider_calls evs = [DeepSeek; OpenAI] /\
         ((exists t text, openai_reply env t = Some text /\ r = Ok text) /\
          circuitBreakerState (breaker w') = CLOSED /\ failureCount (breaker w') = 0
          \/
          r = Err (Error "OpenAI call failed") /\
          failureCount (breaker w') = js_incr (failureCount (breaker w))))
  end.
Proof.
  destruct w as [[st n lastt] t tr]. unfold_call. unfold closed_again.
  destruct st; simpl.
  - destruct (deepseek_reply env t) eqn:Hd; simpl.
    + requests_leaf.
    + destruct (CIRCUIT_BREAKER_THRESHOLD <=? js_incr n); simpl;
        destruct (openai_reply env (S (S t))) eqn:Hoa; simpl; requests_leaf.
  - destruct (Date_now env t - lastt <? CIRCUIT_BREAKER_RESET_TIME); simpl.
    + requests_leaf.
    + destruct (deepseek_reply env (S t)) eqn:Hd; simpl.
      * requests_leaf.
      * destruct (CIRCUIT_BREAKER_THRESHOLD <=? js_incr n); simpl;
          destruct (openai_reply env (S (S (S t)))) eqn:Hoa; simpl; requests_leaf.
  - destruct (deepseek_reply env t) eqn:Hd; simpl.
    + requests_leaf.
    + destruct (CIRCUIT_BREAKER_THRESHOLD <=? js_incr n); simpl;
        destruct (openai_reply env (S (S t))) eqn:Hoa; simpl; requests_leaf.
Qed.

(** ** What every part of the server keeps *)

Lemma keeps_ret {A} I (a : A) : keeps I (ret a).
Proof. intros w H. exact H. Qed.

Lemma keeps_throw {A} I (e : Exn) : keeps I (@throw A e).
Proof. intros w H. exact H. Qed.

Lemma keeps_bind {A B} I (m : M A) (k : A -> M B) :
  keeps I m -> (forall a, keeps I (k a)) -> keeps I (bind m k).
Proof.
  intros Hm Hk w H. unfold bind. specialize (Hm w H).
  destruct (m w) as [[a|e] w1]; simpl in Hm; [apply Hk, Hm|exact Hm].
Qed.

Lemma keeps_try_catch {A} I (body : M A) (handler : Exn -> M A) :
  keeps I body -> (forall e, keeps I (handler e)) -> keeps I (try_catch body handler).
Proof.
  intros Hb Hh w H. unfold try_catch. specialize (Hb w H).
  destruct (body w) as [[a|e] w1]; simpl in Hb; [exact Hb|apply Hh, Hb].
Qed.

Lemma keeps_settle {A} I (r : Res A) : keeps I (settle r).
Proof. destruct r; [apply keeps_ret|apply keeps_throw]. Qed.

Lemma keeps_external {A} I ev (answer : nat -> A) :
  stable I -> calm ev = true -> keeps I (external ev answer).
Proof. intros Hs Hc w H. apply Hs; assumption. Qed.

Lemma keeps_emit I ev : stable I -> calm ev = true -> keeps I (emit ev).
Proof. intros Hs Hc w H. apply Hs; assumption. Qed.

Lemma keeps_JSON_parse {A} I (parse : string -> option A) text :
  keeps I (JSON_parse parse text).
Proof. unfold JSON_parse. destruct (parse text); [apply keeps_ret|apply keeps_throw]. Qed.

Lemma keeps_retry_loop {A} I (fn : M A) more :
  stable I -> keeps I fn -> keeps I (retry_loop fn more).
Proof.
  intros Hs Hfn. induction more as [|more IH]; simpl.
  - apply keeps_try_catch; [exact Hfn|]. intros e. apply keeps_throw.
  - apply keeps_try_catch; [exact Hfn|]. intros e.
    apply keeps_bind; [apply keeps_emit; [exact Hs|reflexivity]|]. intros _. exact IH.
Qed.

Lemma stable_world_ok : stable world_ok.
Proof.
  intros w ev t Hc (Hb & Hseen & Hr & Hl). unfold world_ok. simpl.
  split; [exact Hb|]. split; [|split].
  - rewrite seen_breakers_app. apply Forall_app. split; [exact Hseen|].
    destruct ev; try discriminate Hc; constructor.
  - apply resets_close_app; [exact Hr|exact Hl|].
    intros [|i] Hi; simpl in Hi.
    + inversion Hi; subst. discriminate Hc.
    + rewrite lookup_nil in Hi. discriminate Hi.
  - rewrite last_snoc. intros E. inversion E; subst. discriminate Hc.
Qed.

Lemma stable_untouched w0 : stable (untouched w0).
Proof.
  intros w ev t Hc [Hb Hp]. unfold untouched. simpl. split; [exact Hb|].
  unfold provider_calls in *. rewrite omap_app, Hp.
  destruct ev; try discriminate Hc; apply app_nil_r.
Qed.

Lemma keeps_callWithBreaker env msg h o : keeps world_ok (callWithBreaker env msg h o).
Proof. intros w H. apply call_keeps_ok, H. Qed.

(** One step down the structure of a definition of the embedding. *)
Ltac keeps_step Hs :=
  first
    [ apply keeps_ret
    | apply keeps_throw
    | apply keeps_settle
    | apply keeps_JSON_parse
    | apply keeps_external; [exact Hs|reflexivity]
    | apply keeps_emit; [exact Hs|reflexivity]
    | apply keeps_retry_loop; [exact Hs|]
    | apply keeps_try_catch; [|intros ?]
    | apply keeps_bind; [|intros ?]
    | match goal with
      | |- keeps _ (if ?c then _ else _) => destruct c
      | |- keeps _ (match ?x with _ => _ end) => destruct x
      | |- keeps _ (let '(_, _) := ?x in _) => destruct x
      end ].

(** *** The parts that ask no completion provider *)

Section KeepsCalm.
Variables (env : Env) (I : World -> Prop).
Hypothesis HI : stable I.

Lemma keeps_getUserContext userId : keeps I (getUserContext env userId).
Proof. unfold getUserContext, redis_get_call. repeat keeps_step HI. Qed.

Lemma keeps_setUserContext userId context : keeps I (setUserContext env userId context).
Proof. unfold setUserContext, redis_set_context_call. repeat keeps_step HI. Qed.

Lemma keeps_clearUserContext userId : keeps I (clearUserContext env userId).
Proof. unfold clearUserContext, redis_del_call. repeat keeps_step HI. Qed.

Lemma keeps_safeRedisGet {A} (parse : string -> option A) key :
  keeps I (safeRedisGet env parse key).
Proof. unfold safeRedisGet, redis_get_call. repeat keeps_step HI. Qed.

Lemma keeps_safeRedisSet key ttl : keeps I (safeRedisSet env key ttl).
Proof. unfold safeRedisSet, redis_set_call. repeat keeps_step HI. Qed.

Lemma keeps_db_query_call sql : keeps I (db_query_call env sql).
Proof. unfold db_query_call. repeat keeps_step HI. Qed.

Lemma keeps_embeddings_call input : keeps I (embeddings_call env input).
Proof. unfold embeddings_call. repeat keeps_step HI. Qed.

Lemma keeps_searchProductDatabase params :
  keeps I (ProductSearchAgent_searchProductDatabase env params).
Proof.
  unfold ProductSearchAgent_searchProductDatabase, retry.
  repeat first [ apply keeps_safeRedisGet | apply keeps_safeRedisSet
               | apply keeps_db_query_call | apply keeps_embeddings_call
               | keeps_step HI ].
Qed.

Lemma keeps_findRelevantParts analysis :
  keeps I (TroubleshootingAgent_findRelevantParts env analysis).
Proof.
  unfold TroubleshootingAgent_findRelevantParts.
  repeat first [ apply keeps_db_query_call | apply keeps_embeddings_call | keeps_step HI ].
Qed.

Lemma keeps_checkCompatibility partNumber modelNumber :
  keeps I (CompatibilityAgent_checkCompatibility env partNumber modelNumber).
Proof.
  unfold CompatibilityAgent_checkCompatibility, redis_set_call.
  repeat first [ apply keeps_safeRedisGet | apply keeps_safeRedisSet
               | apply keeps_db_query_call | keeps_step HI ].
Qed.

Lemma keeps_check query context history userId :
  keeps I (CompatibilityAgent_check env query context history userId).
Proof.
  unfold CompatibilityAgent_check, CompatibilityAgent_extractEntities,
    CompatibilityAgent_extractFromHistory.
  repeat first [ apply keeps_getUserContext | apply keeps_setUserContext
               | apply keeps_checkCompatibility | keeps_step HI ].
Qed.

Lemma keeps_products_search_route q type : keeps I (products_search_route env q type).
Proof.
  unfold products_search_route. repeat first [ apply keeps_db_query_call | keeps_step HI ].
Qed.

Lemma keeps_compatibility_check_route partNumber modelNumber :
  keeps I (compatibility_check_route env partNumber modelNumber).
Proof.
  unfold compatibility_check_route.
  repeat first [ apply keeps_checkCompatibility | keeps_step HI ].
Qed.

Lemma keeps_cleanup_idle_conversations : keeps I (cleanup_idle_conversations env).
Proof.
  unfold cleanup_idle_conversations.
  repeat first [ apply keeps_db_query_call | keeps_step HI ].
Qed.

End KeepsCalm.

(** *** The whole server, given what [callWithBreaker] keeps *)

Section KeepsAll.
Variables (env : Env) (I : World -> Prop).
Hypothesis HI : stable I.
Hypothesis Hcall : forall msg h o, keeps I (callWithBreaker env msg h o).

Ltac keeps_all :=
  repeat first
    [ apply Hcall
    | apply keeps_getUserContext; exact HI
    | apply keeps_setUserContext; exact HI
    | apply keeps_clearUserContext; exact HI
    | apply keeps_db_query_call; exact HI
    | apply keeps_searchProductDatabase; exact HI
    | apply keeps_findRelevantParts; exact HI
    | apply keeps_check; exact HI
    | keeps_step HI ].

Lemma keeps_classify query history : keeps I (classify env query history).
Proof. unfold classify. keeps_all. Qed.

Lemma keeps_search query context history :
  keeps I (ProductSearchAgent_search env query context history).
Proof.
  unfold ProductSearchAgent_search, ProductSearchAgent_extractSearchParams,
    ProductSearchAgent_getAISuggestion, ProductSearchAgent_generateSearchResponse.
  keeps_all.
Qed.

Lemma keeps_diagnose query context history :
  keeps I (TroubleshootingAgent_diagnose env query context history).
Proof.
  unfold TroubleshootingAgent_diagnose, TroubleshootingAgent_provideSolution,
    TroubleshootingAgent_analyzeProblem, TroubleshootingAgent_generateTroubleshootingGuide.
  keeps_all.
Qed.

Lemma keeps_guide query context history :
  keeps I (InstallationAgent_guide env query context history).
Proof.
  unfold InstallationAgent_guide, InstallationAgent_extractPartInfo,
    InstallationAgent_getInstallationGuide.
  keeps_all.
Qed.

Lemma keeps_assist query context history :
  keeps I (OrderSupportAgent_assist env query context history).
Proof.
  unfold OrderSupportAgent_assist, OrderSupportAgent_classifyOrderIntent,
    OrderSupportAgent_handleOrderTracking, OrderSupportAgent_handleReturn,
    OrderSupportAgent_handleShippingInfo, OrderSupportAgent_handleGeneralOrderQuery.
  keeps_all.
Qed.

Lemma keeps_handleGeneralQuery query history : keeps I (handleGeneralQuery env query history).
Proof. unfold handleGeneralQuery. keeps_all. Qed.

Lemma keeps_dispatch p query context userId history :
  keeps I (dispatch env (AgentOrchestrator_constructor env) p query context userId history).
Proof.
  unfold dispatch, handleOutOfScope. simpl.
  repeat first
    [ apply keeps_search | apply keeps_check; exact HI | apply keeps_diagnose
    | apply keeps_guide | apply keeps_assist | apply keeps_handleGeneralQuery
    | keeps_step HI ].
Qed.

Lemma keeps_routeToAgents intent query userId history :
  keeps I (routeToAgents env (AgentOrchestrator_constructor env) intent query userId history).
Proof.
  unfold routeToAgents.
  repeat first
    [ apply keeps_dispatch | apply keeps_handleGeneralQuery
    | apply keeps_getUserContext; exact HI | apply keeps_setUserContext; exact HI
    | keeps_step HI ].
Qed.

Lemma keeps_processQuery userId query history :
  keeps I (processQuery env (AgentOrchestrator_constructor env) userId query history).
Proof.
  unfold processQuery. simpl.
  repeat first [ apply keeps_classify | apply keeps_routeToAgents | keeps_step HI ].
Qed.

Lemma keeps_chat_route message userId :
  keeps I (chat_route env (AgentOrchestrator_constructor env) message userId).
Proof.
  unfold chat_route, chat_load_history, db_conversations_call, db_messages_call, Date_now_call.
  repeat first
    [ apply keeps_processQuery | apply keeps_clearUserContext; exact HI
    | apply keeps_db_query_call; exact HI | keeps_step HI ].
Qed.

Lemma keeps_request req w : I w -> I (after_request env w req).
Proof.
  intros H. destruct req as [message userId|q type|partNumber modelNumber|]; simpl.
  - apply keeps_chat_route, H.
  - apply keeps_products_search_route; assumption.
  - apply keeps_compatibility_check_route; assumption.
  - apply keeps_cleanup_idle_conversations; assumption.
Qed.

Lemma keeps_requests reqs : forall w, I w -> I (after_requests env reqs w).
Proof.
  induction reqs as [|req reqs IH]; intros w H; simpl; [exact H|].
  apply IH, keeps_request, H.
Qed.

End KeepsAll.

(** X2.  The invariant of the breaker holds for the server as a whole, not
    only for sequences of completion calls: from the initial state, after
    any sequence of chat requests, product searches, compatibility checks
    and cleanup timers, dealt with one after the other with the agents of
    the constructor, the breaker left behind is OPEN or HALF_OPEN only with
    a counter of at least 3 and is in fact never HALF_OPEN, every breaker
    that a provider request saw satisfies the same bound, and every
    [failureCount = 0] is followed at once by [circuitBreakerState =
    'CLOSED'].  Nothing but [callWithBreaker] writes the three variables. *)
Theorem server_breaker_invariant (env : Env) (reqs : list Request) :
  let w := after_requests env reqs initial_world in
  breaker_ok (breaker w) /\
  circuitBreakerState (breaker w) <> HALF_OPEN /\
  Forall breaker_ok (seen_breakers (trace w)) /\
  resets_close (trace w).
Proof.
  destruct (keeps_requests env world_ok stable_world_ok (keeps_callWithBreaker env) reqs
              initial_world initial_world_ok) as ([Hb Hh] & Hs & Hr & _).
  cbv zeta. split; [|split; [|split]].
  - apply strong_ok_breaker_ok, Hb.
  - exact Hh.
  - eapply Forall_impl; [exact Hs|]. intros b. apply strong_ok_breaker_ok.
  - exact Hr.
Qed.

(** X9.  The compatibility agent never asks a completion provider and
    never touches the breaker, whatever the utterance, the history, Redis
    and the database do, and whether it returns or raises. *)
Theorem check_asks_no_provider (env : Env) (query : string) (context : Context)
    (history : list Turn) (userId : string) (w : World) :
  let w' := snd (CompatibilityAgent_check env query context history userId w) in
  breaker w' = breaker w /\ provider_calls (trace w') = provider_calls (trace w).
Proof.
  exact (keeps_check env (untouched w) (stable_untouched w) query context history userId w
           (conj eq_refl eq_refl)).
Qed.

(** X19.  Every route answers, whatever the collaborators do: the chat
    route with any agents, the product search route, the compatibility
    route, which has no [try] of its own and relies on [checkCompatibility]
    catching everything, and the cleanup timer.  The last three ask no
    completion provider and leave the breaker alone. *)
Theorem routes_always_answer (env : Env) (agents : Agents) (w : World) :
  (forall message userId,
      exists answer w', returns (chat_route env agents message userId) w answer w') /\
  (forall q type,
      exists answer w', returns (products_search_route env q type) w answer w' /\
                        untouched w w') /\
  (forall partNumber modelNumber,
      exists verdict w',
        returns (compatibility_check_route env partNumber modelNumber) w verdict w' /\
        untouched w w') /\
  (exists w', returns (cleanup_idle_conversations env) w tt w' /\ untouched w w').
Proof.
  split; [|split; [|split]].
  - intros message userId. unfold returns, chat_route. apply try_catch_total.
    intros e w1. eexists _, _. reflexivity.
  - intros q type.
    pose proof (keeps_products_search_route env (untouched w) (stable_untouched w) q type w
                  (conj eq_refl eq_refl)) as Hk.
    unfold returns. unfold products_search_route in *. unfold try_catch, bind in *.
    destruct (db_query_call env _ w) as [[rows|e] w1]; eexists _, _;
      (split; [reflexivity|exact Hk]).
  - intros partNumber modelNumber.
    pose proof (keeps_checkCompatibility env (untouched w) (stable_untouched w)
                  partNumber modelNumber w (conj eq_refl eq_refl)) as Hk.
    assert (Ht : exists verdict w',
               CompatibilityAgent_checkCompatibility env partNumber modelNumber w =
               (Ok verdict, w')).
    { unfold CompatibilityAgent_checkCompatibility. apply try_catch_total.
      intros e w1. eexists _, _. reflexivity. }
    destruct Ht as (verdict & w' & E).
    exists verdict, w'. unfold returns, compatibility_check_route, bind. rewrite E.
    split; [reflexivity|]. rewrite E in Hk. exact Hk.
  - pose proof (keeps_cleanup_idle_conversations env (untouched w) (stable_untouched w) w
                  (conj eq_refl eq_refl)) as Hk.
    unfold returns. unfold cleanup_idle_conversations in *. unfold try_catch, bind in *.
    destruct (db_query_call env _ w) as [[rows|e] w1]; eexists;
      (split; [reflexivity|exact Hk]).
Qed.

(** ** The retry wrapper *)

(** X3.  [retry(fn)] with its defaults makes at most three attempts with a
    pause of 500 ms before the second and before the third: it returns what
    the first attempt returns; if the first raises, what the second returns;
    and if the first two raise, its outcome is the outcome of the third,
    returned or raised, so that the error it propagates is the last one. *)
Theorem retry_attempts {A} (fn : M A) (w : World) :
  (forall a w1, returns fn w a w1 -> returns (retry fn) w a w1) /\
  (forall e1 w1 a w2,
      raises fn w e1 w1 -> returns fn (slept w1) a w2 -> returns (retry fn) w a w2) /\
  (forall e1 w1 e2 w2,
      raises fn w e1 w1 -> raises fn (slept w1) e2 w2 -> retry fn w = fn (slept w2)).
Proof.
  unfold returns, raises, retry. split; [|split].
  - intros a w1 H. simpl. unfold try_catch. rewrite H. reflexivity.
  - intros e1 w1 a w2 H1 H2. simpl. unfold try_catch at 1. rewrite H1.
    unfold bind, emit. fold (slept w1). unfold try_catch. rewrite H2. reflexivity.
  - intros e1 w1 e2 w2 H1 H2. simpl. unfold try_catch at 1. rewrite H1.
    unfold bind at 1, emit at 1. fold (slept w1). unfold try_catch at 1. rewrite H2.
    unfold bind, emit. fold (slept w2). unfold try_catch, throw.
    destruct (fn (slept w2)) as [[a|e] w3]; reflexivity.
Qed.

(** The database rejects twice and then answers. *)
Lemma retry_attempts_witness :
  let sql := "SELECT * FROM parts WHERE part_number ILIKE $1" in
  retry (db_query_call env_db_flaky sql) initial_world =
  (Ok [a_row],
   {| breaker := initial_breaker; tick := 3;
      trace := [EvDb sql; EvSleep 500; EvDb sql; EvSleep 500; EvDb sql] |}).
Proof.
  intros sql.
  destruct (retry_attempts (db_query_call env_db_flaky sql) initial_world) as (_ & _ & Hthird).
  rewrite (Hthird (Error "Connection terminated unexpectedly")
             {| breaker := initial_breaker; tick := 1; trace := [EvDb sql] |}
             (Error "Connection terminated unexpectedly")
             {| breaker := initial_breaker; tick := 2;
                trace := [EvDb sql; EvSleep 500; EvDb sql] |});
    reflexivity.
Defined.

(** ** The conversation flow *)

Lemma slice_last_app {A} (n : nat) (older recent : list A) :
  (n <= length recent)%nat -> slice_last n (older ++ recent) = slice_last n recent.
Proof.
  intros H. unfold slice_last. rewrite length_app.
  rewrite drop_app.
  replace (length older + length recent - n - length older)%nat
    with (length recent - n)%nat by lia.
  rewrite drop_ge by lia. reflexivity.
Qed.

Lemma find_last_none {A} (p : A -> bool) (xs : list A) :
  Forall (fun x => p x = false) xs -> find_last p xs = None.
Proof.
  intros H. unfold find_last. apply List.Forall_rev in H.
  induction H as [|x l Hx _ IH]; [reflexivity|]. simpl. rewrite Hx. exact IH.
Qed.

(** X4.  [getConversationContext] looks at the last five turns only: what
    came before five or more recent turns does not change its answer; and
    when none of the recent turns is the assistant's, the conversation is
    read as a fresh one, stage initial and no topic, whatever was said
    before. *)
Theorem getConversationContext_recent (older recent : list Turn) :
  (5 <= length recent)%nat ->
  getConversationContext (older ++ recent) = getConversationContext recent /\
  (Forall (fun h => is_assistant h = false) recent ->
   getConversationContext (older ++ recent) = initial_flow).
Proof.
  intros H.
  assert (E : getConversationContext (older ++ recent) = getConversationContext recent).
  { unfold getConversationContext.
    rewrite (slice_last_app 5 older recent H).
    replace (length (older ++ recent) =? 0)%nat with false
      by (symmetry; apply Nat.eqb_neq; rewrite length_app; lia).
    replace (length recent =? 0)%nat with false by (symmetry; apply Nat.eqb_neq; lia).
    reflexivity. }
  split; [exact E|].
  intros Hall. rewrite E. unfold getConversationContext.
  replace (length recent =? 0)%nat with false by (symmetry; apply Nat.eqb_neq; lia).
  rewrite find_last_none; [reflexivity|].
  unfold slice_last. apply Forall_drop. exact Hall.
Qed.

(** Troubleshooting steps, then five turns of the user. *)
Lemma getConversationContext_recent_witness :
  let recent := map user_turn ["ok"; "and now?"; "hello?"; "are you there?"; "anyone?"] in
  getConversationContext (after_steps ++ recent) = getConversationContext recent /\
  getConversationContext (after_steps ++ recent) = initial_flow.
Proof.
  intros recent.
  destruct (getConversationContext_recent after_steps recent) as [Hsame Hfresh];
    [simpl; lia|].
  split; [exact Hsame|]. apply Hfresh.
  repeat constructor.
Defined.

Lemma answers_alone_topic query history :
  answers_alone query history = true ->
  find_last is_assistant (slice_last 5 history) = find_last is_assistant history ->
  getConversationContext history =
    {| stage := "diagnostic_given"; topic := Some "troubleshooting" |}.
Proof.
  unfold answers_alone, getConversationContext. intros Ha Hrecent.
  apply andb_true_iff in Ha as [_ Ha].
  rewrite Hrecent.
  destruct history as [|h0 history]; [discriminate Ha|].
  change (length (h0 :: history) =? 0)%nat with false. cbv iota.
  destruct (find_last is_assistant (h0 :: history)) as [la|]; [|discriminate Ha].
  apply andb_true_iff in Ha as [_ Ha]. cbv zeta. rewrite Ha. reflexivity.
Qed.

(** X5.  A follow-up question during troubleshooting, end to end: when the
    utterance is one that [classify] answers by itself (a questioning
    opening after an assistant turn about steps or troubleshooting) and
    that assistant turn is among the last five turns, [processQuery], once
    the session context has been read, is the open-ended handler alone: one
    completion call with the conversation as context, the response tagged
    [general_question] with confidence 0.85, no classification request, and
    no write to the session context. *)
Theorem follow_up_end_to_end (env : Env) (agents : Agents) (userId query : string)
    (history : list Turn) (context : Context) (w w1 : World) :
  intent_classify agents = classify env ->
  answers_alone query history = true ->
  find_last is_assistant (slice_last 5 history) = find_last is_assistant history ->
  returns (getUserContext env userId) w context w1 ->
  processQuery env agents userId query history w =
    (response <- handleGeneralQuery env query history ;;
     ret (formatResponse response followUp_intent)) w1.
Proof.
  intros Hcl Ha Hrecent Hctx.
  unfold processQuery. rewrite Hcl.
  assert (Hc : classify env query history w = (Ok followUp_intent, w)).
  { rewrite classify_unfold, Ha. reflexivity. }
  rewrite (bind_returns _ _ _ _ _ Hc).
  unfold bind at 1.
  rewrite (routeToAgents_after_context env agents _ _ _ _ _ _ _ Hctx).
  unfold followUp_rule. rewrite (answers_alone_topic query history Ha Hrecent).
  change (isFollowUp followUp_intent && _) with true. cbv iota.
  unfold bind, ret.
  destruct (handleGeneralQuery env query history w1) as [[r|e] w2]; reflexivity.
Qed.

(** After the assistant's steps, with the primary answering. *)
Lemma follow_up_end_to_end_witness :
  let out := processQuery env_up (AgentOrchestrator_constructor env_up) "u1"
               "Should I replace the seal?" after_steps initial_world in
  fst out = Ok {| resp_message := Some "pong"; resp_products := []; resp_actions := [];
                  resp_metadata := {| meta_intent := "general_question";
                                      meta_confidence := 85 # 100 |} |} /\
  trace (snd out) =
    [EvRedisGet "context:u1";
     EvProvider DeepSeek (P_query "Should I replace the seal?") initial_breaker;
     EvCount 0; EvState CLOSED].
Proof.
  cbv zeta.
  rewrite (follow_up_end_to_end env_up (AgentOrchestrator_constructor env_up) "u1"
             "Should I replace the seal?" after_steps ∅ initial_world
             {| breaker := initial_breaker; tick := 1; trace := [EvRedisGet "context:u1"] |}
             eq_refl eq_refl eq_refl eq_refl).
  split; vm_compute; reflexivity.
Defined.

(** ** The session context that [routeToAgents] leaves behind *)

(** X6.  When [routeToAgents] returns through the dispatch (the follow-up
    rule did not apply), its last external call is the write of the session
    context, and what it writes is the context it read at the start, with
    [expecting] set to null if it was [model_number_for_compat], plus
    [lastIntent] and [lastTopic]: whatever the handler stored in the
    meantime is overwritten.  In particular the context left behind never
    has [expecting] equal to [model_number_for_compat], not even when the
    compatibility agent has just stored that marker to ask for the model
    number. *)
Theorem route_last_write (env : Env) (agents : Agents) (intent : Intent)
    (query userId : string) (history : list Turn) (context : Context)
    (w w1 w' : World) (response : AgentResponse) (intent' : Intent) :
  returns (getUserContext env userId) w context w1 ->
  followUp_rule intent history = false ->
  returns (routeToAgents env agents intent query userId history) w (response, intent') w' ->
  let waiting := bool_decide (slot context "expecting" = Some "model_number_for_compat") in
  let kept : Context := if waiting then <["expecting" := None]> context else context in
  let stored : Context :=
    <["lastTopic" := topic (getConversationContext history)]>
      (<["lastIntent" := Some (primary intent')]> kept) in
  last (trace w') = Some (EvRedisSetContext (context_key userId) stored 3600) /\
  slot stored "expecting" <> Some "model_number_for_compat" /\
  intent' = (if waiting then with_primary intent "compatibility_check" else intent).
Proof.
  intros Hctx Hrule Hret waiting kept stored. subst stored kept waiting.
  unfold returns in Hret.
  rewrite (routeToAgents_after_context env agents _ _ _ _ _ _ _ Hctx), Hrule in Hret.
  destruct (bool_decide_reflect (slot context "expecting" = Some "model_number_for_compat"))
    as [Hexp|Hexp].
  - cbv zeta in Hret.
    apply bind_ok_inv in Hret as ([] & w2 & _ & Hret).
    apply bind_ok_inv in Hret as (r & w3 & _ & Hret).
    apply bind_ok_inv in Hret as ([] & w4 & Hset & Hret).
    inversion Hret; subst. clear Hret.
    apply setUserContext_ok_inv in Hset. rewrite Hset, last_snoc.
    split; [reflexivity|]. split; [|reflexivity].
    unfold slot. rewrite !lookup_insert_ne by discriminate. rewrite lookup_insert_eq.
    discriminate.
  - apply bind_ok_inv in Hret as (r & w3 & _ & Hret).
    apply bind_ok_inv in Hret as ([] & w4 & Hset & Hret).
    inversion Hret; subst. clear Hret.
    apply setUserContext_ok_inv in Hset. rewrite Hset, last_snoc.
    split; [reflexivity|]. split; [|reflexivity].
    unfold slot. rewrite !lookup_insert_ne by discriminate. exact Hexp.
Qed.

(** The compatibility agent asks for the model number and stores the
    marker; the write that ends the request drops it. *)
Lemma route_last_write_witness :
  let out := routeToAgents env_up (AgentOrchestrator_constructor env_up) compat_intent
               "Does PS11752778 fit?" "u1" [] initial_world in
  let asking : Context :=
    <["lastPart" := Some "PS11752778"]>
      (<["expecting" := Some "model_number_for_compat"]>
         (<["lastIntent" := Some "compatibility_check"]> ∅)) in
  let stored : Context :=
    <["lastTopic" := None]> (<["lastIntent" := Some "compatibility_check"]> ∅) in
  trace (snd out) !! 2%nat = Some (EvRedisSetContext "context:u1" asking 3600) /\
  slot asking "expecting" = Some "model_number_for_compat" /\
  last (trace (snd out)) = Some (EvRedisSetContext "context:u1" stored 3600) /\
  slot stored "expecting" <> Some "model_number_for_compat".
Proof.
  intros out asking stored. subst out.
  destruct (routeToAgents env_up (AgentOrchestrator_constructor env_up) compat_intent
              "Does PS11752778 fit?" "u1" [] initial_world) as [[[r i]|e] w'] eqn:E.
  - assert (Hi : i = compat_intent).
    { vm_compute in E. inversion E. reflexivity. }
    destruct (route_last_write env_up (AgentOrchestrator_constructor env_up) compat_intent
                "Does PS11752778 fit?" "u1" [] ∅ initial_world
                {| breaker := initial_breaker; tick := 1; trace := [EvRedisGet "context:u1"] |}
                w' r i eq_refl eq_refl E) as (Hlast & Hexp & _).
    rewrite Hi in Hlast, Hexp.
    split; [|split; [|split]].
    + vm_compute in E. inversion E. reflexivity.
    + reflexivity.
    + exact Hlast.
    + exact Hexp.
  - vm_compute in E. discriminate E.
Defined.

(** ** Answers that rest on the database *)

Lemma ensures_db_query_call env sql :
  ensures (db_query_call env sql) (from_database env).
Proof.
  intros w rows w' E. unfold db_query_call, external, bind, settle in E.
  destruct (db_query env (tick w)) as [rows'|e] eqn:Hq; [|discriminate E].
  inversion E; subst. exists (tick w). exact Hq.
Qed.

Lemma ensures_retry_loop {A} (fn : M A) (P : A -> Prop) more :
  ensures fn P -> ensures (retry_loop fn more) P.
Proof.
  intros Hfn. induction more as [|more IH]; simpl.
  - apply ensures_try_catch; [exact Hfn|]. intros e. apply ensures_throw.
  - apply ensures_try_catch; [exact Hfn|]. intros e. apply ensures_bind. intros _. exact IH.
Qed.

Lemma safeRedisGet_hit {A} env (parse : string -> option A) key w text v :
  redis_get env (tick w) = Ok (Some text) -> text <> "" -> parse text = Some v ->
  safeRedisGet env parse key w = (Ok (Some v), after_event w (EvRedisGet key)).
Proof.
  intros Hget Hne Hparse.
  unfold safeRedisGet, try_catch, redis_get_call, external, bind, settle, JSON_parse, nonempty.
  simpl. rewrite Hget. simpl.
  destruct (String.eqb_spec text ""); [contradiction|]. simpl.
  rewrite Hparse. reflexivity.
Qed.

(** A response without products and without a cart offer. *)
Ltac plain_leaf :=
  apply ensures_ret;
  repeat match goal with |- context [if ?c then _ else _] => destruct c end;
  (split;
   [ left; reflexivity
   | let p := fresh "p" in let Hin := fresh "Hin" in
     intros p Hin; simpl in Hin;
     repeat (destruct Hin as [Hin|Hin]; [discriminate Hin|]); destruct Hin ]).

Ltac plain_step :=
  first
    [ apply ensures_throw
    | plain_leaf
    | apply ensures_try_catch; [|intros ?]
    | apply ensures_bind; intros ?
    | match goal with
      | |- ensures (if ?c then _ else _) _ => destruct c
      | |- ensures (match ?x with _ => _ end) _ => destruct x
      | |- ensures (let '(_, _) := ?x in _) _ => destruct x
      end ].

(** *** External calls and the tick *)

Lemma calls_in_app evs1 evs2 : calls_in (evs1 ++ evs2) = (calls_in evs1 + calls_in evs2)%nat.
Proof. unfold calls_in. rewrite List.filter_app, length_app. reflexivity. Qed.

Lemma extends_refl w : extends w w.
Proof. exists []. rewrite app_nil_r. unfold calls_in. simpl. split; [reflexivity|lia]. Qed.

Lemma extends_trans w1 w2 w3 : extends w1 w2 -> extends w2 w3 -> extends w1 w3.
Proof.
  intros (e1 & Ht1 & Hk1) (e2 & Ht2 & Hk2). exists (e1 ++ e2).
  rewrite Ht2, Ht1, Hk2, Hk1, calls_in_app, <- app_assoc. split; [reflexivity|lia].
Qed.

Lemma paced_returns {A} (m : M A) w a w' : paced m -> m w = (Ok a, w') -> extends w w'.
Proof. intros Hm E. specialize (Hm w). rewrite E in Hm. exact Hm. Qed.

Lemma paced_ret {A} (a : A) : paced (ret a).
Proof. intros w. apply extends_refl. Qed.

Lemma paced_throw {A} (e : Exn) : paced (@throw A e).
Proof. intros w. apply extends_refl. Qed.

Lemma paced_bind {A B} (m : M A) (k : A -> M B) :
  paced m -> (forall a, paced (k a)) -> paced (bind m k).
Proof.
  intros Hm Hk w. unfold bind. specialize (Hm w).
  destruct (m w) as [[a|e] w1]; simpl in Hm; [|exact Hm].
  exact (extends_trans _ _ _ Hm (Hk a w1)).
Qed.

Lemma paced_try_catch {A} (body : M A) (handler : Exn -> M A) :
  paced body -> (forall e, paced (handler e)) -> paced (try_catch body handler).
Proof.
  intros Hb Hh w. unfold try_catch. specialize (Hb w).
  destruct (body w) as [[a|e] w1]; simpl in Hb; [exact Hb|].
  exact (extends_trans _ _ _ Hb (Hh e w1)).
Qed.

Lemma paced_settle {A} (r : Res A) : paced (settle r).
Proof. destruct r; [apply paced_ret|apply paced_throw]. Qed.

Lemma paced_JSON_parse {A} (parse : string -> option A) text : paced (JSON_parse parse text).
Proof. unfold JSON_parse. destruct (parse text); [apply paced_ret|apply paced_throw]. Qed.

Lemma paced_external {A} ev (answer : nat -> A) : is_call ev = true -> paced (external ev answer).
Proof.
  intros Hc w. exists [ev]. simpl. split; [reflexivity|].
  unfold calls_in. simpl. rewrite Hc. simpl. lia.
Qed.

Lemma paced_emit ev : is_call ev = false -> paced (emit ev).
Proof.
  intros Hc w. exists [ev]. simpl. split; [reflexivity|].
  unfold calls_in. simpl. rewrite Hc. simpl. lia.
Qed.

Lemma paced_read_breaker : paced read_breaker.
Proof. intros w. apply extends_refl. Qed.

Lemma paced_write_breaker b : paced (write_breaker b).
Proof. intros w. exists []. unfold calls_in. simpl. rewrite app_nil_r. split; [reflexivity|lia]. Qed.

Ltac paced_step :=
  first
    [ apply paced_ret
    | apply paced_throw
    | apply paced_settle
    | apply paced_JSON_parse
    | apply paced_read_breaker
    | apply paced_write_breaker
    | apply paced_external; reflexivity
    | apply paced_emit; reflexivity
    | apply paced_try_catch; [|intros ?]
    | apply paced_bind; [|intros ?]
    | match goal with
      | |- paced (if ?c then _ else _) => destruct c
      | |- paced (match ?x with _ => _ end) => destruct x
      | |- paced (let '(_, _) := ?x in _) => destruct x
      end ].

Lemma paced_callWithBreaker env msg h o : paced (callWithBreaker env msg h o).
Proof.
  unfold callWithBreaker, callDeepSeek, callOpenAI, Date_now_call,
    get_circuitBreakerState, get_failureCount, get_lastFailureTime,
    set_circuitBreakerState, set_failureCount, set_lastFailureTime.
  repeat paced_step.
Qed.

Lemma paced_classify env query history : paced (classify env query history).
Proof.
  unfold classify.
  repeat first [ apply paced_callWithBreaker | paced_step ].
Qed.

Lemma paced_getUserContext env userId : paced (getUserContext env userId).
Proof. unfold getUserContext, redis_get_call. repeat paced_step. Qed.

Lemma paced_setUserContext env userId context : paced (setUserContext env userId context).
Proof. unfold setUserContext, redis_set_context_call. repeat paced_step. Qed.

Lemma confirmed_after env p w0 w1 w2 :
  extends w0 w1 -> confirmed env p w1 w2 -> confirmed env p w0 w2.
Proof.
  intros (e1 & Ht & Hk) (m & before & after & row & rest & compat & Htr & Hq1 & Hq2 & Hne).
  exists m, (e1 ++ before), after, row, rest, compat.
  rewrite calls_in_app, Nat.add_assoc, <- Hk.
  split; [|auto]. rewrite Htr, Ht, <- !app_assoc. reflexivity.
Qed.

Lemma confirmed_before env p w0 w1 w2 :
  confirmed env p w0 w1 -> extends w1 w2 -> confirmed env p w0 w2.
Proof.
  intros (m & before & after & row & rest & compat & Htr & Hq) (e2 & Ht & _).
  exists m, before, (after ++ e2), row, rest, compat.
  split; [|exact Hq]. rewrite Ht, Htr, <- !app_assoc. reflexivity.
Qed.

Section Grounded.
Variable env : Env.

Lemma searchProductDatabase_listed params :
  ensures (ProductSearchAgent_searchProductDatabase env params) (listed env).
Proof.
  unfold ProductSearchAgent_searchProductDatabase.
  apply ensures_try_catch; [|intros e; apply ensures_ret; left; reflexivity].
  apply ensures_bind. intros [cached|]; [apply ensures_throw|].
  apply (ensures_bind_post _ _ (listed env)).
  - destruct (truthy_str (part_number params)); [|apply ensures_ret; left; reflexivity].
    apply (ensures_bind_post _ _ (from_database env)).
    + apply ensures_retry_loop, ensures_db_query_call.
    + intros rows Hrows. apply ensures_ret.
      destruct (0 <? length rows)%nat; [right; eauto|left; reflexivity].
  - intros products Hp.
    apply (ensures_bind_post _ _ (listed env)).
    + destruct (_ && _); [|apply ensures_ret; exact Hp].
      apply ensures_bind. intros [vectorLiteral|]; [|apply ensures_throw].
      apply (ensures_bind_post _ _ (from_database env)); [apply ensures_db_query_call|].
      intros rows Hrows. apply ensures_ret. right. eauto.
    + intros products' Hp'. apply ensures_bind. intros _. apply ensures_ret. exact Hp'.
Qed.

Lemma findRelevantParts_listed analysis :
  ensures (TroubleshootingAgent_findRelevantParts env analysis) (listed env).
Proof.
  unfold TroubleshootingAgent_findRelevantParts.
  apply ensures_try_catch; [|intros e; apply ensures_ret; left; reflexivity].
  destruct (negb _); [apply ensures_ret; left; reflexivity|].
  apply ensures_bind. intros [vectorLiteral|]; [|apply ensures_throw].
  apply (ensures_bind_post _ _ (from_database env)); [apply ensures_db_query_call|].
  intros rows Hrows. apply ensures_ret. right. eauto.
Qed.

Lemma suggested_listed analysis :
  ensures (if has_parts analysis then TroubleshootingAgent_findRelevantParts env analysis
           else ret []) (listed env).
Proof.
  destruct (has_parts analysis); [apply findRelevantParts_listed|].
  apply ensures_ret. left. reflexivity.
Qed.

Lemma safeRedisGet_world {A} (parse : string -> option A) key w :
  exists v, safeRedisGet env parse key w = (Ok v, after_event w (EvRedisGet key)).
Proof.
  unfold safeRedisGet, try_catch, redis_get_call, external, bind, settle, JSON_parse,
    after_event.
  destruct (redis_get env (tick w)) as [[text|]|e]; simpl; eauto.
  destruct (nonempty text); simpl; eauto.
  destruct (parse text); simpl; eauto.
Qed.

Lemma safeRedisSet_world key ttl w :
  safeRedisSet env key ttl w = (Ok tt, after_event w (EvRedisSet key ttl)).
Proof.
  unfold safeRedisSet, try_catch, redis_set_call, external, bind, settle, after_event.
  destruct (redis_set env (tick w)) as [[]|e]; reflexivity.
Qed.

Lemma db_query_call_world sql w :
  db_query_call env sql w =
    (match db_query env (tick w) with Ok rows => Ok rows | Err e => Err e end,
     after_event w (EvDb sql)).
Proof.
  unfold db_query_call, external, bind, settle, after_event.
  destruct (db_query env (tick w)); reflexivity.
Qed.

(** A positive verdict of [checkCompatibility]: what was asked, and what
    the database answered. *)
Lemma checkCompatibility_confirms partNumber modelNumber w verdict w' :
  CompatibilityAgent_checkCompatibility env partNumber modelNumber w = (Ok verdict, w') ->
  isCompatible verdict = true ->
  exists row rest compat,
    db_query env (S (tick w)) = Ok (row :: rest) /\
    db_query env (S (S (tick w))) = Ok compat /\ compat <> [] /\
    details verdict =
      "This " +:+ row_name row +:+ " is designed for your " +:+ modelNumber +:+ " model." /\
    trace w' =
      trace w ++ [EvRedisGet (compat_cache_key partNumber modelNumber); EvDb part_sql;
                  EvDb compat_sql; EvRedisSet (compat_cache_key partNumber modelNumber) 86400].
Proof.
  intros E Hyes. unfold CompatibilityAgent_checkCompatibility in E.
  fold (compat_cache_key partNumber modelNumber) in E. fold part_sql compat_sql in E.
  set (key := compat_cache_key partNumber modelNumber) in *.
  destruct (safeRedisGet_world (JSON_parse_compat env) key w) as [cached Hget].
  unfold try_catch at 1 in E. unfold bind at 1 in E. rewrite Hget in E.
  destruct cached as [cached|].
  { unfold throw, ret in E. inversion E; subst. discriminate Hyes. }
  unfold bind at 1 in E. rewrite db_query_call_world in E.
  change (tick (after_event w (EvRedisGet key))) with (S (tick w)) in E.
  destruct (db_query env (S (tick w))) as [[|row rest]|e] eqn:Hq1.
  - unfold redis_set_call, external, settle, bind, ret, throw in E. simpl in E.
    destruct (redis_set env (S (S (tick w)))) as [[]|e]; inversion E; subst;
      discriminate Hyes.
  - unfold bind at 1 in E. rewrite db_query_call_world in E.
    change (tick (after_event (after_event w (EvRedisGet key)) (EvDb part_sql)))
      with (S (S (tick w))) in E.
    destruct (db_query env (S (S (tick w)))) as [compat|e] eqn:Hq2.
    + unfold bind at 1 in E. rewrite safeRedisSet_world in E.
      unfold ret in E. inversion E; subst. clear E. simpl in Hyes.
      exists row, rest, compat. simpl. rewrite Hyes.
      split; [reflexivity|]. split; [reflexivity|].
      split; [intros ->; discriminate Hyes|]. split; [reflexivity|].
      rewrite <- !app_assoc. reflexivity.
    + unfold ret in E. inversion E; subst. discriminate Hyes.
  - unfold ret in E. inversion E; subst. discriminate Hyes.
Qed.

Lemma plain_grounded (m : M AgentResponse) :
  ensures m (plain_response env) -> answers_grounded env m.
Proof.
  intros Hm w r w' E. destruct (Hm w r w' E) as [Hl Hc].
  split; [exact Hl|]. intros p Hin. destruct (Hc p Hin).
Qed.

Lemma search_plain query context history :
  ensures (ProductSearchAgent_search env query context history) (plain_response env).
Proof.
  unfold ProductSearchAgent_search.
  apply ensures_try_catch; [|intros e; plain_leaf].
  apply ensures_bind. intros searchParams.
  destruct (_ && _); [plain_leaf|].
  apply (ensures_bind_post _ _ (listed env)); [apply searchProductDatabase_listed|].
  intros products Hp.
  destruct (length products =? 0)%nat.
  - apply ensures_bind. intros ai. plain_leaf.
  - apply ensures_bind. intros message. apply ensures_ret.
    split; [exact Hp|]. intros p [Hin|[]]. discriminate Hin.
Qed.

Lemma diagnose_plain query context history :
  ensures (TroubleshootingAgent_diagnose env query context history) (plain_response env).
Proof.
  unfold TroubleshootingAgent_diagnose, TroubleshootingAgent_provideSolution.
  destruct (detectUserProgress query history).
  - apply ensures_bind. intros response. apply ensures_bind. intros analysis.
    apply (ensures_bind_post _ _ (listed env)); [apply suggested_listed|].
    intros ps Hps. apply ensures_ret. split; [exact Hps|].
    intros p Hin. simpl in Hin. destruct (0 <? length ps)%nat; simpl in Hin;
      repeat (destruct Hin as [Hin|Hin]; [discriminate Hin|]); destruct Hin.
  - apply ensures_bind. intros analysis. apply ensures_bind. intros guide.
    apply (ensures_bind_post _ _ (listed env)); [apply suggested_listed|].
    intros ps Hps. apply ensures_ret. split; [exact Hps|].
    intros p [Hin|[]]. discriminate Hin.
Qed.

Lemma guide_plain query context history :
  ensures (InstallationAgent_guide env query context history) (plain_response env).
Proof. unfold InstallationAgent_guide. repeat plain_step. Qed.

Lemma assist_plain query context history :
  ensures (OrderSupportAgent_assist env query context history) (plain_response env).
Proof.
  unfold OrderSupportAgent_assist, OrderSupportAgent_handleOrderTracking,
    OrderSupportAgent_handleReturn, OrderSupportAgent_handleShippingInfo,
    OrderSupportAgent_handleGeneralOrderQuery.
  repeat plain_step.
Qed.

Lemma general_plain query history :
  ensures (handleGeneralQuery env query history) (plain_response env).
Proof. unfold handleGeneralQuery. repeat plain_step. Qed.

(** The compatibility agent offers the cart in its last case only, for the
    part that [checkCompatibility] was asked about. *)
Lemma check_grounded query context history userId :
  answers_grounded env (CompatibilityAgent_check env query context history userId).
Proof.
  intros w r w' E. unfold CompatibilityAgent_check in E.
  apply bind_ok_inv in E as ([p m] & w1 & E1 & E).
  apply (paced_returns _ _ _ _ (paced_ret _)) in E1.
  apply bind_ok_inv in E as ([p' m'] & w2 & E2 & E).
  assert (H2 : extends w1 w2).
  { revert E2. apply paced_returns. unfold CompatibilityAgent_extractFromHistory.
    repeat paced_step. }
  clear E2.
  apply bind_ok_inv in E as (savedContext & w3 & E3 & E).
  apply (paced_returns _ _ _ _ (paced_getUserContext env userId)) in E3.
  cbv zeta in E.
  pose proof (extends_trans _ _ _ (extends_trans _ _ _ E1 H2) E3) as H03.
  clear E1 H2 E3.
  assert (Hplain : forall (m0 : M AgentResponse),
             ensures m0 (plain_response env) -> m0 w3 = (Ok r, w') ->
             grounded env w (default [] (products r)) (default [] (actions r)) w').
  { intros m0 Hm0 E0. destruct (Hm0 w3 r w' E0) as [Hl Hc].
    split; [exact Hl|]. intros q Hin. destruct (Hc q Hin). }
  destruct (_ && _); [revert E; apply Hplain; apply ensures_bind; intros _; plain_leaf|].
  destruct (_ && _); [revert E; apply Hplain; apply ensures_bind; intros _; plain_leaf|].
  destruct (_ && _); [revert E; apply Hplain; plain_leaf|].
  clear Hplain.
  apply bind_ok_inv in E as ([] & w4 & E4 & E).
  apply (paced_returns _ _ _ _ (paced_setUserContext env userId ∅)) in E4.
  apply bind_ok_inv in E as (verdict & w5 & E5 & E).
  unfold ret in E. inversion E; subst. clear E. simpl.
  split; [left; reflexivity|].
  intros partNumber Hin.
  destruct (isCompatible verdict) eqn:Hyes; [|destruct Hin].
  destruct Hin as [Hin|[]]. inversion Hin as [Hpn]. clear Hin.
  destruct (checkCompatibility_confirms _ _ _ _ _ E5 Hyes)
    as (row & rest & compat & Hq1 & Hq2 & Hne & _ & Htr).
  apply (confirmed_after env _ w w4 w'); [exact (extends_trans _ _ _ H03 E4)|].
  match type of Htr with context [compat_cache_key _ ?mn] =>
    exists mn, [], [EvRedisSet (compat_cache_key partNumber mn) 86400], row, rest, compat end.
  simpl. rewrite Nat.add_0_r. rewrite Htr, <- Hpn. auto.
Qed.

Lemma dispatch_grounded p query context userId history :
  answers_grounded env
    (dispatch env (AgentOrchestrator_constructor env) p query context userId history).
Proof.
  unfold dispatch. simpl.
  repeat match goal with |- answers_grounded _ (if ?c then _ else _) => destruct c end;
    auto using plain_grounded, search_plain, check_grounded, diagnose_plain,
      guide_plain, assist_plain, general_plain.
  intros w r w' E. discriminate E.
Qed.

Lemma grounded_between w0 w1 w2 w3 products acts :
  extends w0 w1 -> grounded env w1 products acts w2 -> extends w2 w3 ->
  grounded env w0 products acts w3.
Proof.
  intros H01 [Hl Hc] H23. split; [exact Hl|]. intros p Hin.
  apply (confirmed_after env p w0 w1 w3 H01).
  apply (confirmed_before env p w1 w2 w3 (Hc p Hin) H23).
Qed.

Lemma route_grounded intent query userId history w routed w' :
  routeToAgents env (AgentOrchestrator_constructor env) intent query userId history w =
    (Ok routed, w') ->
  grounded env w (default [] (products (fst routed))) (default [] (actions (fst routed))) w'.
Proof.
  intros E. unfold routeToAgents in E.
  apply bind_ok_inv in E as (context & w1 & E1 & E).
  apply (paced_returns _ _ _ _ (paced_getUserContext env userId)) in E1.
  destruct (isFollowUp intent && _).
  - apply bind_ok_inv in E as (response & w2 & E2 & E).
    unfold ret in E. inversion E; subst. clear E. simpl.
    apply (grounded_between w w1 w' w'); [exact E1| |apply extends_refl].
    exact (plain_grounded _ (general_plain query history) _ _ _ E2).
  - apply bind_ok_inv in E as ([[intent' query'] context'] & w2 & E2 & E).
    assert (H12 : extends w1 w2).
    { revert E2. apply paced_returns.
      destruct (bool_decide _); [|apply paced_ret].
      apply paced_bind; [apply paced_setUserContext|]. intros _. apply paced_ret. }
    clear E2.
    apply bind_ok_inv in E as (response & w3 & E3 & E).
    apply bind_ok_inv in E as ([] & w4 & E4 & E).
    apply (paced_returns _ _ _ _ (paced_setUserContext env userId _)) in E4.
    unfold ret in E. inversion E; subst. clear E. simpl.
    apply (grounded_between w w2 w3 w'); [exact (extends_trans _ _ _ E1 H12)| |exact E4].
    exact (dispatch_grounded _ _ _ _ _ _ _ _ E3).
Qed.

Lemma formatResponse_products r intent :
  resp_products (formatResponse r intent) = default [] (products r).
Proof. unfold formatResponse. destruct (shouldOfferCompletion r); reflexivity. Qed.

Lemma formatResponse_cart r intent p :
  In (add_to_cart p) (resp_actions (formatResponse r intent)) ->
  In (add_to_cart p) (default [] (actions r)).
Proof.
  unfold formatResponse. destruct (shouldOfferCompletion r); simpl; [|auto].
  intros Hin. apply in_app_or in Hin as [Hin|[Hin|[]]]; [exact Hin|discriminate Hin].
Qed.

End Grounded.

(** X7.  [searchProductDatabase] never raises.  A cache hit does not serve
    the cached products: when Redis answers the read with a text that
    parses, the function returns the empty list after that one read,
    without asking the database, because the parsed value is parsed a second
    time and the error is caught.  And whatever it returns is empty or the
    formatted rows of one database answer. *)
Theorem searchProductDatabase_cache (env : Env) (params : SearchParams) (w : World) :
  (exists products w',
      returns (ProductSearchAgent_searchProductDatabase env params) w products w') /\
  (forall text cached,
      redis_get env (tick w) = Ok (Some text) -> text <> "" ->
      JSON_parse_products env text = Some cached ->
      returns (ProductSearchAgent_searchProductDatabase env params) w []
              (after_event w (EvRedisGet (product_cache_key params)))) /\
  (forall products w',
      returns (ProductSearchAgent_searchProductDatabase env params) w products w' ->
      listed env products).
Proof.
  split; [|split].
  - unfold returns, ProductSearchAgent_searchProductDatabase. apply try_catch_total.
    intros e w1. eexists _, _. reflexivity.
  - intros text cached Hget Hne Hparse.
    unfold returns, ProductSearchAgent_searchProductDatabase.
    fold (product_cache_key params). unfold try_catch at 1. unfold bind at 1.
    rewrite (safeRedisGet_hit env _ _ w text cached Hget Hne Hparse). reflexivity.
  - intros products w'. apply searchProductDatabase_listed.
Qed.

(** A cache that holds one product; and a database that holds it. *)
Lemma searchProductDatabase_cache_witness :
  returns (ProductSearchAgent_searchProductDatabase (env_cached cached_products_json) by_part)
          initial_world [] (after_event initial_world (EvRedisGet "product:PS11752778")) /\
  listed (env_stocked "pong") (formatProducts [a_row]).
Proof.
  destruct (searchProductDatabase_cache (env_cached cached_products_json) by_part
              initial_world) as (_ & Hhit & _).
  destruct (searchProductDatabase_cache (env_stocked "pong") by_part initial_world)
    as (_ & _ & Hfrom).
  split.
  - apply (Hhit cached_products_json (formatProducts [a_row]));
      [reflexivity | discriminate | reflexivity].
  - apply (Hfrom (formatProducts [a_row])
             (snd (ProductSearchAgent_searchProductDatabase (env_stocked "pong") by_part
                     initial_world))).
    vm_compute. reflexivity.
Defined.

(** X8.  [checkCompatibility] never raises.  A cache hit does not serve the
    cached verdict: when Redis answers the read with a text that parses, the
    function returns "Unable to verify compatibility at this time." after
    that one read, without asking the database.  And a positive verdict is
    given only when the function has made exactly four external calls, the
    read of the cache entry, the query for the part, the query of
    [part_compatibility] and the write of the cache entry, when the
    database has answered the query for the part with at least one row and
    the query of [part_compatibility] with at least one row; the verdict
    names the part of the first row and the model. *)
Theorem checkCompatibility_verdict (env : Env) (partNumber modelNumber : string) (w : World) :
  (exists verdict w',
      returns (CompatibilityAgent_checkCompatibility env partNumber modelNumber) w verdict w') /\
  (forall text cached,
      redis_get env (tick w) = Ok (Some text) -> text <> "" ->
      JSON_parse_compat env text = Some cached ->
      returns (CompatibilityAgent_checkCompatibility env partNumber modelNumber) w
              unable_to_verify
              (after_event w (EvRedisGet (compat_cache_key partNumber modelNumber)))) /\
  (forall verdict w',
      returns (CompatibilityAgent_checkCompatibility env partNumber modelNumber) w verdict w' ->
      isCompatible verdict = true ->
      exists row rest compat,
        db_query env (S (tick w)) = Ok (row :: rest) /\
        db_query env (S (S (tick w))) = Ok compat /\ compat <> [] /\
        details verdict =
          "This " +:+ row_name row +:+ " is designed for your " +:+ modelNumber +:+ " model." /\
        trace w' =
          trace w ++ [EvRedisGet (compat_cache_key partNumber modelNumber); EvDb part_sql;
                      EvDb compat_sql;
                      EvRedisSet (compat_cache_key partNumber modelNumber) 86400]).
Proof.
  split; [|split].
  - unfold returns, CompatibilityAgent_checkCompatibility. apply try_catch_total.
    intros e w1. eexists _, _. reflexivity.
  - intros text cached Hget Hne Hparse.
    unfold returns, CompatibilityAgent_checkCompatibility.
    fold (compat_cache_key partNumber modelNumber). unfold try_catch at 1. unfold bind at 1.
    rewrite (safeRedisGet_hit env _ _ w text cached Hget Hne Hparse). reflexivity.
  - intros verdict w'. apply checkCompatibility_confirms.
Qed.

(** A cache that holds a positive verdict; and a database that confirms. *)
Lemma checkCompatibility_verdict_witness :
  returns (CompatibilityAgent_checkCompatibility (env_cached cached_verdict_json)
             "PS11752778" "WDT780SAEM1")
          initial_world unable_to_verify
          (after_event initial_world (EvRedisGet "compat:PS11752778:WDT780SAEM1")) /\
  (exists row rest compat,
      db_query (env_stocked "pong") 1 = Ok (row :: rest) /\
      db_query (env_stocked "pong") 2 = Ok compat /\ compat <> [] /\
      "This Door Shelf Bin is designed for your WDT780SAEM1 model." =
      "This " +:+ row_name row +:+ " is designed for your WDT780SAEM1 model." /\
      trace (snd (CompatibilityAgent_checkCompatibility (env_stocked "pong")
                    "PS11752778" "WDT780SAEM1" initial_world)) =
        [EvRedisGet "compat:PS11752778:WDT780SAEM1"; EvDb part_sql; EvDb compat_sql;
         EvRedisSet "compat:PS11752778:WDT780SAEM1" 86400]).
Proof.
  destruct (checkCompatibility_verdict (env_cached cached_verdict_json)
              "PS11752778" "WDT780SAEM1" initial_world) as (_ & Hhit & _).
  destruct (checkCompatibility_verdict (env_stocked "pong") "PS11752778" "WDT780SAEM1"
              initial_world) as (_ & _ & Hyes).
  split.
  - apply (Hhit cached_verdict_json cached_verdict);
      [reflexivity | discriminate | reflexivity].
  - apply (Hyes {| isCompatible := true;
                   details := "This Door Shelf Bin is designed for your WDT780SAEM1 model.";
                   alternativeSuggestion := None |}
                (snd (CompatibilityAgent_checkCompatibility (env_stocked "pong")
                        "PS11752778" "WDT780SAEM1" initial_world)));
      [vm_compute; reflexivity | reflexivity].
Defined.

(** X17.  Every response that [processQuery] returns with the agents of the
    constructor rests on the database: its products are none or the
    formatted rows of one database answer, never something a completion
    provider wrote; and it offers the cart for a part only if, while this
    request was served, the cache entry of a pairing of that part was read,
    the query for the part came next and was answered by the database with
    at least one row, and the query of [part_compatibility] came next and
    was answered with at least one row. *)
Theorem responses_grounded (env : Env) (userId query : string) (history : list Turn)
    (w w' : World) (response : Response) :
  returns (processQuery env (AgentOrchestrator_constructor env) userId query history)
          w response w' ->
  (resp_products response = [] \/
   exists rows, from_database env rows /\ resp_products response = formatProducts rows) /\
  (forall partNumber, In (add_to_cart partNumber) (resp_actions response) ->
     confirmed env partNumber w w').
Proof.
  unfold returns. intros E. unfold processQuery in E.
  apply bind_ok_inv in E as (intent & w1 & E1 & E).
  apply (paced_returns _ _ _ _ (paced_classify env query history)) in E1.
  apply bind_ok_inv in E as ([r intent'] & w2 & E2 & E).
  unfold ret in E. inversion E; subst. clear E.
  apply route_grounded in E2. simpl in E2.
  apply (grounded_between env w w1 w' w' _ _ E1) in E2; [|apply extends_refl].
  destruct E2 as [Hl Hc]. split.
  - rewrite formatResponse_products. exact Hl.
  - intros p Hin. apply Hc. exact (formatResponse_cart _ _ _ Hin).
Qed.

(** A compatibility question that the database confirms. *)
Lemma responses_grounded_witness :
  let env := env_stocked compat_json in
  let out := processQuery env (AgentOrchestrator_constructor env) "u1"
               "Does PS11752778 fit my WDT780SAEM1?" [] initial_world in
  exists response,
    fst out = Ok response /\
    resp_actions response = [add_to_cart "PS11752778"] /\
    confirmed env "PS11752778" initial_world (snd out).
Proof.
  intros env out. subst out env.
  destruct (processQuery (env_stocked compat_json)
              (AgentOrchestrator_constructor (env_stocked compat_json)) "u1"
              "Does PS11752778 fit my WDT780SAEM1?" [] initial_world)
    as [[response|e] w'] eqn:E.
  - exists response. split; [reflexivity|].
    assert (Hacts : resp_actions response = [add_to_cart "PS11752778"]).
    { vm_compute in E. inversion E. reflexivity. }
    split; [exact Hacts|].
    destruct (responses_grounded (env_stocked compat_json) "u1"
                "Does PS11752778 fit my WDT780SAEM1?" [] initial_world w' response E)
      as [_ Hcart].
    apply (Hcart "PS11752778"). rewrite Hacts. left. reflexivity.
  - vm_compute in E. discriminate E.
Defined.

(** The same question when [part_compatibility] holds no row for the
    pairing: the part is found, the pairing is not, and no cart is
    offered. *)
Example no_cart_without_compatibility_row :
  let env := env_unpaired compat_json in
  let out := processQuery env (AgentOrchestrator_constructor env) "u1"
               "Does PS11752778 fit my WDT780SAEM1?" [] initial_world in
  (db_query env 5 = Ok [a_row]) /\ (db_query env 6 = Ok []) /\
  (trace (snd out) !! 7%nat = Some (EvDb part_sql)) /\
  (trace (snd out) !! 8%nat = Some (EvDb compat_sql)) /\
  (exists response, fst out = Ok response /\ resp_actions response = []).
Proof.
  cbv zeta. repeat split; try (vm_compute; reflexivity).
  eexists. split; vm_compute; reflexivity.
Qed.

(** ** The shape of every response *)

Ltac well_formed_leaf :=
  apply ensures_ret;
  repeat match goal with |- context [if ?c then _ else _] => destruct c end;
  (split;
   [ simpl; eauto
   | let shown := fresh "shown" in let Hin := fresh "Hin" in
     intros shown Hin; simpl in Hin;
     repeat (destruct Hin as [Hin|Hin];
             [ first [ discriminate Hin
                     | inversion Hin; subst;
                       first [ exists 5%nat; split; [lia|reflexivity]
                             | exists 3%nat; split; [lia|reflexivity] ] ] | ]);
     destruct Hin ]).

Ltac well_formed_step :=
  first
    [ apply ensures_throw
    | well_formed_leaf
    | apply ensures_try_catch; [|intros ?]
    | apply ensures_bind; intros ?
    | match goal with
      | |- ensures (if ?c then _ else _) _ => destruct c
      | |- ensures (match ?x with _ => _ end) _ => destruct x
      | |- ensures (let '(_, _) := ?x in _) _ => destruct x
      end ].

Section WellFormed.
Variable env : Env.

Lemma search_well_formed query context history :
  ensures (ProductSearchAgent_search env query context history) well_formed.
Proof. unfold ProductSearchAgent_search. repeat well_formed_step. Qed.

Lemma check_well_formed query context history userId :
  ensures (CompatibilityAgent_check env query context history userId) well_formed.
Proof. unfold CompatibilityAgent_check. repeat well_formed_step. Qed.

Lemma diagnose_well_formed query context history :
  ensures (TroubleshootingAgent_diagnose env query context history) well_formed.
Proof.
  unfold TroubleshootingAgent_diagnose, TroubleshootingAgent_provideSolution.
  repeat well_formed_step.
Qed.

Lemma guide_well_formed query context history :
  ensures (InstallationAgent_guide env query context history) well_formed.
Proof. unfold InstallationAgent_guide. repeat well_formed_step. Qed.

Lemma assist_well_formed query context history :
  ensures (OrderSupportAgent_assist env query context history) well_formed.
Proof.
  unfold OrderSupportAgent_assist, OrderSupportAgent_handleOrderTracking,
    OrderSupportAgent_handleReturn, OrderSupportAgent_handleShippingInfo,
    OrderSupportAgent_handleGeneralOrderQuery.
  repeat well_formed_step.
Qed.

Lemma general_well_formed query history :
  ensures (handleGeneralQuery env query history) well_formed.
Proof. unfold handleGeneralQuery. repeat well_formed_step. Qed.

Lemma dispatch_well_formed p query context userId history :
  ensures (dispatch env (AgentOrchestrator_constructor env) p query context userId history)
          well_formed.
Proof.
  unfold dispatch. simpl.
  repeat match goal with |- ensures (if ?c then _ else _) _ => destruct c end;
    auto using search_well_formed, check_well_formed, diagnose_well_formed,
      guide_well_formed, assist_well_formed, general_well_formed.
  apply ensures_throw.
Qed.

Lemma route_well_formed intent query userId history :
  ensures (routeToAgents env (AgentOrchestrator_constructor env) intent query userId history)
          (fun routed => well_formed (fst routed)).
Proof.
  unfold routeToAgents. apply ensures_bind; intros context.
  destruct (isFollowUp intent && _).
  - apply (ensures_bind_post _ _ well_formed); [apply general_well_formed|].
    intros response Hr. apply ensures_ret. exact Hr.
  - apply ensures_bind; intros [[intent' query'] context'].
    apply (ensures_bind_post _ _ well_formed); [apply dispatch_well_formed|].
    intros response Hr. apply ensures_bind; intros _. apply ensures_ret. exact Hr.
Qed.

Lemma formatResponse_well_formed r intent :
  well_formed r ->
  is_Some (resp_message (formatResponse r intent)) /\
  shows_own_products (resp_products (formatResponse r intent))
                     (resp_actions (formatResponse r intent)).
Proof.
  intros [Hm Hc]. unfold formatResponse.
  destruct (shouldOfferCompletion r); simpl; (split; [exact Hm|]); [|exact Hc].
  intros shown Hin. apply in_app_or in Hin as [Hin|Hin]; [apply Hc, Hin|].
  destruct Hin as [Hin|[]]. discriminate Hin.
Qed.

Lemma processQuery_well_formed userId query history :
  ensures (processQuery env (AgentOrchestrator_constructor env) userId query history)
          (fun response =>
             is_Some (resp_message response) /\
             shows_own_products (resp_products response) (resp_actions response)).
Proof.
  unfold processQuery. apply ensures_bind; intros intent.
  apply (ensures_bind_post _ _ (fun routed => well_formed (fst routed)));
    [apply route_well_formed|].
  intros [response intent'] Hr. apply ensures_ret.
  apply formatResponse_well_formed. exact Hr.
Qed.

End WellFormed.

(** X16.  Every response that [processQuery] returns with the agents of the
    constructor has a message, so the chat route can always read it; and
    every product display among its actions shows at most five products,
    which are the first products of the response itself. *)
Theorem response_well_formed (env : Env) (userId query : string) (history : list Turn)
    (w w' : World) (response : Response) :
  returns (processQuery env (AgentOrchestrator_constructor env) userId query history)
          w response w' ->
  (exists text, resp_message response = Some text) /\
  (forall shown, In (product_cards shown) (resp_actions response) ->
     (length shown <= 5)%nat /\ shown `prefix_of` resp_products response).
Proof.
  intros Hret.
  destruct (processQuery_well_formed env userId query history w response w' Hret) as [Hm Hc].
  split; [exact Hm|].
  intros shown Hin. destruct (Hc shown Hin) as (n & Hn & ->).
  split.
  - rewrite length_take. lia.
  - apply prefix_take.
Qed.

(** A search that finds the door shelf bin. *)
Lemma response_well_formed_witness :
  let env := env_stocked search_json in
  let out := processQuery env (AgentOrchestrator_constructor env) "u1"
               "PS11752778 bin" [] initial_world in
  exists response,
    fst out = Ok response /\
    resp_actions response = [product_cards (formatProducts [a_row])] /\
    (exists text, resp_message response = Some text) /\
    (forall shown, In (product_cards shown) (resp_actions response) ->
       (length shown <= 5)%nat /\ shown `prefix_of` resp_products response).
Proof.
  intros env out. subst out env.
  destruct (processQuery (env_stocked search_json)
              (AgentOrchestrator_constructor (env_stocked search_json)) "u1"
              "PS11752778 bin" [] initial_world) as [[response|e] w'] eqn:E.
  - exists response. split; [reflexivity|]. split.
    + vm_compute in E. inversion E. reflexivity.
    + exact (response_well_formed (env_stocked search_json) "u1" "PS11752778 bin" []
               initial_world w' response E).
  - vm_compute in E. discriminate E.
Defined.

(** ** Answers that the agents give by themselves *)

(** What the matchers test on a digit. *)
Lemma digit_char a :
  is_digit a = true ->
  is_space a = false /\ is_word a = true /\
  cls_matches true is_digit a = true /\ cls_matches true AZ a = false /\
  cls_matches true AZ09 a = true /\
  chr_matches true "P" a = false /\ chr_matches true "S" a = false.
Proof.
  destruct a as [[] [] [] [] [] [] [] []]; intros H; try discriminate H;
    vm_compute; repeat split.
Qed.

Ltac digit_facts :=
  repeat match goal with
  | H : is_digit ?a = true |- _ =>
      let Hs := fresh "Hs" in let Hw := fresh "Hw" in let Hd := fresh "Hd" in
      let Hz := fresh "Hz" in let Hz9 := fresh "Hz9" in let Hp := fresh "Hp" in
      let Hq := fresh "Hq" in
      destruct (digit_char a H) as (Hs & Hw & Hd & Hz & Hz9 & Hp & Hq); clear H
  end.

(** Run a matcher on a text whose characters are letters that are known and
    digits that are not. *)
Ltac eval_tests :=
  repeat first
    [ match goal with
      | H : cls_matches true ?f ?a = _ |- context [cls_matches true ?f ?a] => rewrite H
      | H : chr_matches true ?c ?a = _ |- context [chr_matches true ?c ?a] => rewrite H
      | H : is_word ?a = _ |- context [is_word ?a] => rewrite H
      | H : is_space ?a = _ |- context [is_space ?a] => rewrite H
      end
    | match goal with
      | |- context [cls_matches true ?f (Ascii ?b0 ?b1 ?b2 ?b3 ?b4 ?b5 ?b6 ?b7)] =>
          let v := eval vm_compute in (cls_matches true f (Ascii b0 b1 b2 b3 b4 b5 b6 b7)) in
          change (cls_matches true f (Ascii b0 b1 b2 b3 b4 b5 b6 b7)) with v
      | |- context [chr_matches true ?c (Ascii ?b0 ?b1 ?b2 ?b3 ?b4 ?b5 ?b6 ?b7)] =>
          let v := eval vm_compute in (chr_matches true c (Ascii b0 b1 b2 b3 b4 b5 b6 b7)) in
          change (chr_matches true c (Ascii b0 b1 b2 b3 b4 b5 b6 b7)) with v
      | |- context [is_word (Ascii ?b0 ?b1 ?b2 ?b3 ?b4 ?b5 ?b6 ?b7)] =>
          let v := eval vm_compute in (is_word (Ascii b0 b1 b2 b3 b4 b5 b6 b7)) in
          change (is_word (Ascii b0 b1 b2 b3 b4 b5 b6 b7)) with v
      | |- context [is_space (Ascii ?b0 ?b1 ?b2 ?b3 ?b4 ?b5 ?b6 ?b7)] =>
          let v := eval vm_compute in (is_space (Ascii b0 b1 b2 b3 b4 b5 b6 b7)) in
          change (is_space (Ascii b0 b1 b2 b3 b4 b5 b6 b7)) with v
      end
    | progress unfold match_at
    | progress cbn [match_here star_cls match_at search_from Times UpTo Lit Nat.sub
                    is_word_opt head_char xorb negb andb orb
                    trimStart trimEnd split_go split_blanks String.append] ].

(** The utterance PS and six to eight digits: nothing is trimmed off it, it
    is one word, the part-number expression matches it and the model-number
    expression does not. *)
Lemma part_number_utterance (p s : ascii) (digits : string) :
  (p = "P" \/ p = "p")%char -> (s = "S" \/ s = "s")%char ->
  all_chars is_digit digits = true ->
  (6 <= String.length digits <= 8)%nat ->
  let query := String p (String s digits) in
  trim query = query /\ is_Some (match_i re_part68 query) /\
  match_i re_model2 query = None /\ split_blanks query = [query].
Proof.
  intros Hp Hs Hd Hlen.
  destruct digits as [|d1 [|d2 [|d3 [|d4 [|d5 [|d6 digits]]]]]]; simpl in Hlen; try lia.
  assert (Hcases : digits = "" \/ (exists d7, digits = String d7 "") \/
                   exists d7 d8, digits = String d7 (String d8 "")).
  { destruct digits as [|d7 [|d8 [|d9 digits]]]; simpl in Hlen; eauto; lia. }
  clear Hlen.
  destruct Hp as [-> | ->]; destruct Hs as [-> | ->];
    destruct Hcases as [-> | [[d7 ->] | (d7 & d8 & ->)]];
    cbn [all_chars] in Hd;
    repeat match goal with
           | H : _ && _ = true |- _ => apply andb_prop in H; destruct H
           end;
    digit_facts; cbv zeta;
    unfold trim, match_i, re_part68, re_model2, Between, AtLeast, D;
    (split; [|split; [|split]]).
  all: try (eval_tests; reflexivity).
  all: try (eval_tests; eexists; reflexivity).
Qed.

(** What [search] does once the quick parse of [extractSearchParams] has
    found a part number, no model number and no other word. *)
Lemma search_asks_for_model (env : Env) (query : string) (context : Context)
    (history : list Turn) (w : World) :
  search_proposed history = false ->
  is_Some (match_i re_part68 (trim query)) ->
  match_i re_model2 (trim query) = None ->
  other_words query = [] ->
  returns (ProductSearchAgent_search env query context history) w which_model w.
Proof.
  intros Hprop [p Hp] Hm Hw.
  assert (Hx : ProductSearchAgent_extractSearchParams env query w =
               (Ok {| part_number := Some (toUpperCase p); model_number := None;
                      keywords := Some [] |}, w)).
  { unfold ProductSearchAgent_extractSearchParams. cbv zeta.
    rewrite Hp, Hm. fold (other_words query). rewrite Hw. reflexivity. }
  unfold returns, ProductSearchAgent_search, try_catch.
  unfold search_proposed in Hprop.
  destruct (find_last is_assistant history) as [la|].
  - rewrite Hprop. unfold bind. rewrite Hx. reflexivity.
  - unfold bind. rewrite Hx. reflexivity.
Qed.

(** X10.  An utterance that is just a part number is not looked up: when
    the utterance is the letters PS, in either case, followed by six to
    eight digits and nothing else, and the last assistant turn did not
    propose a search, [search] asks for the model number and reaches no
    collaborator, neither Redis nor the database nor a provider. *)
Theorem part_number_only_search (env : Env) (p s : ascii) (digits : string)
    (context : Context) (history : list Turn) (w : World) :
  (p = "P" \/ p = "p")%char -> (s = "S" \/ s = "s")%char ->
  all_chars is_digit digits = true ->
  (6 <= String.length digits <= 8)%nat ->
  search_proposed history = false ->
  returns (ProductSearchAgent_search env (String p (String s digits)) context history)
          w which_model w.
Proof.
  intros Hp Hs Hd Hlen Hprop.
  destruct (part_number_utterance p s digits Hp Hs Hd Hlen) as (Htrim & Hpart & Hmodel & Hsplit).
  cbv zeta in *.
  apply search_asks_for_model; rewrite ?Htrim; try assumption.
  unfold other_words, test_i. rewrite Htrim, Hsplit. cbn [filter list_filter].
  destruct Hpart as [m Hm].
  rewrite Hm, Hmodel. reflexivity.
Qed.

Lemma part_number_only_search_witness :
  returns (ProductSearchAgent_search env_up "ps11752778" ∅ []) initial_world
          which_model initial_world.
Proof.
  apply (part_number_only_search env_up "p" "s" "11752778" ∅ [] initial_world).
  - right. reflexivity.
  - right. reflexivity.
  - reflexivity.
  - simpl. lia.
  - reflexivity.
Defined.

(** X11.  When the user has not reported a finding and the provider's
    diagnosis does not parse as JSON, [diagnose] does not fail: it falls
    back to the diagnosis with an unknown cause, no steps and no parts, and
    returns the guide written for it, a wizard with no steps and no
    products, after that one completion call and no other external call. *)
Theorem diagnose_parse_failure (env : Env) (query : string) (context : Context)
    (history : list Turn) (w w1 : World) (response : string) :
  detectUserProgress query history = false ->
  returns (callWithBreaker env (P_analyze query (slice_last 3 history)) [] analyze_options)
          w response w1 ->
  JSON_parse_analysis env response = None ->
  returns (TroubleshootingAgent_diagnose env query context history) w
          {| message := Some guide_without_steps;
             products := Some [];
             actions := Some [troubleshooting_wizard (Some [])] |} w1.
Proof.
  intros Hskip Hcall Hparse.
  unfold returns, TroubleshootingAgent_diagnose. rewrite Hskip.
  unfold TroubleshootingAgent_analyzeProblem. fold analyze_options.
  unfold bind at 1. unfold bind at 1. rewrite Hcall.
  unfold try_catch, JSON_parse. rewrite Hparse. reflexivity.
Qed.

(** The primary answers in prose. *)
Lemma diagnose_parse_failure_witness :
  let out := TroubleshootingAgent_diagnose env_chatty "My dishwasher is not draining" ∅ []
               initial_world in
  fst out = Ok {| message := Some guide_without_steps; products := Some [];
                  actions := Some [troubleshooting_wizard (Some [])] |} /\
  provider_calls (trace (snd out)) = [DeepSeek].
Proof.
  intros out. subst out.
  pose (w1 := snd (callWithBreaker env_chatty
                     (P_analyze "My dishwasher is not draining" []) [] analyze_options
                     initial_world)).
  pose proof (diagnose_parse_failure env_chatty "My dishwasher is not draining" ∅ []
                initial_world w1 "Sure, I can help with that!" eq_refl eq_refl eq_refl) as H.
  unfold returns in H. rewrite H. split; reflexivity.
Defined.

(** X12.  When the utterance names no part number, the installation agent
    asks which part is being installed, without any external call; its
    question carries no action, and since its wording contains "happy to
    help", [formatResponse] takes it for the end of the conversation and
    attaches the completion offer to the question. *)
Theorem guide_question_closes (env : Env) (query : string) (context : Context)
    (history : list Turn) (intent : Intent) (w : World) :
  match_i re_install_part query = None ->
  returns (InstallationAgent_guide env query context history) w which_part w /\
  resp_actions (formatResponse which_part intent) = [completion_offer].
Proof.
  intros Hnone. split; [|reflexivity].
  unfold returns, InstallationAgent_guide, InstallationAgent_extractPartInfo.
  rewrite Hnone. reflexivity.
Qed.

Lemma guide_question_closes_witness :
  returns (InstallationAgent_guide env_down "How do I install the door bin?" ∅ [])
          initial_world which_part initial_world /\
  resp_actions (formatResponse which_part fallback_intent) = [completion_offer].
Proof.
  apply (guide_question_closes env_down "How do I install the door bin?" ∅ []
           fallback_intent initial_world).
  reflexivity.
Defined.

(** X13.  An order question that contains one of the eleven keywords of
    [classifyOrderIntent], in any letter case, is answered by the order
    agent from its fixed texts: it returns a response with a message and no
    products, makes no external call and cannot fail, whatever the state of
    the providers. *)
Theorem assist_keyword_answer (env : Env) (query : string) (context : Context)
    (history : list Turn) (w : World) (keyword : string) :
  In keyword order_keywords ->
  includes (toLowerCase query) keyword = true ->
  exists response,
    returns (OrderSupportAgent_assist env query context history) w response w /\
    is_Some (message response) /\
    products response = None.
Proof.
  intros Hin Hinc.
  unfold returns, OrderSupportAgent_assist, OrderSupportAgent_classifyOrderIntent.
  unfold some_includes.
  destruct (existsb (includes (toLowerCase query)) ["track"; "status"; "where is"; "shipped"])
    eqn:Et.
  { eexists. split; [reflexivity|]. simpl. eauto. }
  destruct (existsb (includes (toLowerCase query)) ["return"; "refund"; "send back"]) eqn:Er.
  { eexists. split; [reflexivity|]. simpl. eauto. }
  destruct (existsb (includes (toLowerCase query))
              ["shipping"; "delivery"; "how long"; "when will"]) eqn:Es.
  { eexists. split; [reflexivity|]. simpl. eauto. }
  exfalso.
  assert (Hall : existsb (includes (toLowerCase query)) order_keywords = true).
  { apply existsb_exists. exists keyword. split; assumption. }
  change order_keywords
    with (["track"; "status"; "where is"; "shipped"] ++ ["return"; "refund"; "send back"] ++
          ["shipping"; "delivery"; "how long"; "when will"]) in Hall.
  rewrite !existsb_app, Et, Er, Es in Hall. discriminate Hall.
Qed.

(** Both providers are down. *)
Lemma assist_keyword_answer_witness :
  exists response,
    returns (OrderSupportAgent_assist env_down "I want a REFUND, where is my order?" ∅ [])
            initial_world response initial_world /\
    is_Some (message response) /\ products response = None.
Proof.
  apply (assist_keyword_answer env_down "I want a REFUND, where is my order?" ∅ []
           initial_world "refund").
  - unfold order_keywords. simpl. tauto.
  - reflexivity.
Defined.

(** ** Regular expressions: letter case *)

Lemma upper_char_idem a : upper_char (upper_char a) = upper_char a.
Proof. destruct a as [[] [] [] [] [] [] [] []]; reflexivity. Qed.

Lemma upper_lower_char a : upper_char (lower_char a) = upper_char a.
Proof. destruct a as [[] [] [] [] [] [] [] []]; reflexivity. Qed.

Lemma lower_upper_char a : lower_char (upper_char a) = lower_char a.
Proof. destruct a as [[] [] [] [] [] [] [] []]; reflexivity. Qed.

Lemma lower_char_idem a : lower_char (lower_char a) = lower_char a.
Proof. destruct a as [[] [] [] [] [] [] [] []]; reflexivity. Qed.

Lemma upper_or_lower a : upper_char a = a \/ lower_char a = a.
Proof.
  destruct a as [[] [] [] [] [] [] [] []]; first [left; reflexivity|right; reflexivity].
Qed.

Lemma is_word_upper a : is_word (upper_char a) = is_word a.
Proof. destruct a as [[] [] [] [] [] [] [] []]; reflexivity. Qed.

Lemma is_word_lower a : is_word (lower_char a) = is_word a.
Proof. destruct a as [[] [] [] [] [] [] [] []]; reflexivity. Qed.

Lemma cls_matches_upper f a : cls_matches true f (upper_char a) = cls_matches true f a.
Proof.
  unfold cls_matches. rewrite upper_char_idem, lower_upper_char.
  destruct (upper_or_lower a) as [E|E]; rewrite E;
    destruct (f a), (f (upper_char a)), (f (lower_char a)); reflexivity.
Qed.

Lemma cls_matches_lower f a : cls_matches true f (lower_char a) = cls_matches true f a.
Proof.
  unfold cls_matches. rewrite lower_char_idem, upper_lower_char.
  destruct (upper_or_lower a) as [E|E]; rewrite E;
    destruct (f a), (f (upper_char a)), (f (lower_char a)); reflexivity.
Qed.

Lemma length_map_string g s : String.length (map_string g s) = String.length s.
Proof. induction s as [|a s IH]; simpl; [reflexivity|]. rewrite IH. reflexivity. Qed.

Lemma substring_map_string g n m s :
  String.substring n m (map_string g s) = map_string g (String.substring n m s).
Proof.
  revert n m. induction s as [|a s IH]; intros n m.
  - destruct n, m; reflexivity.
  - destruct n as [|n]; simpl.
    + destruct m as [|m]; simpl; [reflexivity|]. rewrite IH. reflexivity.
    + apply IH.
Qed.

Section CaseMap.
(** A change of letter case [g]: to upper case or to lower case. *)
Variable g : ascii -> ascii.
Hypothesis upper_g : forall a, upper_char (g a) = upper_char a.
Hypothesis cls_g : forall f a, cls_matches true f (g a) = cls_matches true f a.
Hypothesis word_g : forall a, is_word (g a) = is_word a.

Lemma star_cls_case f prev s k k' :
  tracks g k k' ->
  star_cls true f (g <$> prev) (map_string g s) k' =
  map_string g <$> star_cls true f prev s k.
Proof.
  intros Hk. revert prev. induction s as [|a s IH]; intros prev.
  - exact (Hk prev "").
  - change (map_string g (String a s)) with (String (g a) (map_string g s)).
    cbn [star_cls]. rewrite cls_g.
    destruct (cls_matches true f a); [|exact (Hk prev (String a s))].
    pose proof (IH (Some a)) as IHa. change (g <$> Some a) with (Some (g a)) in IHa.
    rewrite IHa.
    destruct (star_cls true f (Some a) s k); [reflexivity|].
    exact (Hk prev (String a s)).
Qed.

Lemma match_here_case r : forall prev s k k',
  tracks g k k' ->
  match_here true r (g <$> prev) (map_string g s) k' =
  map_string g <$> match_here true r prev s k.
Proof.
  induction r as [|c|f|r1 IH1 r2 IH2|r1 IH1 r2 IH2|f| |]; intros prev s k k' Hk.
  - exact (Hk prev s).
  - destruct s as [|a s]; [reflexivity|].
    cbn [map_string match_here]. unfold chr_matches. rewrite upper_g.
    destruct (Ascii.eqb (upper_char a) (upper_char c)); [exact (Hk (Some a) s)|reflexivity].
  - destruct s as [|a s]; [reflexivity|].
    cbn [map_string match_here]. rewrite cls_g.
    destruct (cls_matches true f a); [exact (Hk (Some a) s)|reflexivity].
  - cbn [match_here]. apply IH1. intros p s'. apply IH2, Hk.
  - cbn [match_here]. rewrite (IH1 prev s k k' Hk), (IH2 prev s k k' Hk).
    destruct (match_here true r1 prev s k); reflexivity.
  - apply star_cls_case, Hk.
  - cbn [match_here]. destruct prev; [reflexivity|exact (Hk None s)].
  - cbn [match_here].
    replace (is_word_opt (g <$> prev)) with (is_word_opt prev)
      by (destruct prev; simpl; [rewrite word_g|]; reflexivity).
    replace (is_word_opt (head_char (map_string g s))) with (is_word_opt (head_char s))
      by (destruct s; simpl; [|rewrite word_g]; reflexivity).
    destruct (xorb _ _); [exact (Hk prev s)|reflexivity].
Qed.

Lemma match_at_case r prev s :
  match_at true r (g <$> prev) (map_string g s) = map_string g <$> match_at true r prev s.
Proof.
  unfold match_at.
  rewrite (match_here_case r prev s (fun _ rest => Some rest) (fun _ rest => Some rest))
    by (intros p s'; reflexivity).
  destruct (match_here true r prev s _) as [rest|]; [|reflexivity].
  simpl. rewrite !length_map_string, substring_map_string. reflexivity.
Qed.

Lemma search_from_case r prev s :
  search_from true r (g <$> prev) (map_string g s) =
  map_string g <$> search_from true r prev s.
Proof.
  revert prev. induction s as [|a s IH]; intros prev.
  - pose proof (match_at_case r prev "") as Hm. change (map_string g "") with "" in *.
    cbn [search_from]. rewrite Hm.
    destruct (match_at true r prev ""); reflexivity.
  - change (map_string g (String a s)) with (String (g a) (map_string g s)).
    cbn [search_from].
    change (String (g a) (map_string g s)) with (map_string g (String a s)).
    rewrite (match_at_case r prev (String a s)).
    destruct (match_at true r prev (String a s)); [reflexivity|].
    apply (IH (Some a)).
Qed.

End CaseMap.

Lemma match_i_toUpperCase r s : match_i r (toUpperCase s) = toUpperCase <$> match_i r s.
Proof.
  apply (search_from_case upper_char upper_char_idem cls_matches_upper is_word_upper r None s).
Qed.

Lemma match_i_toLowerCase r s : match_i r (toLowerCase s) = toLowerCase <$> match_i r s.
Proof.
  apply (search_from_case lower_char upper_lower_char cls_matches_lower is_word_lower r None s).
Qed.

Lemma toUpperCase_idem s : toUpperCase (toUpperCase s) = toUpperCase s.
Proof.
  unfold toUpperCase. induction s as [|a s IH]; simpl; [reflexivity|].
  rewrite upper_char_idem, IH. reflexivity.
Qed.

Lemma toUpperCase_toLowerCase s : toUpperCase (toLowerCase s) = toUpperCase s.
Proof.
  unfold toUpperCase, toLowerCase. induction s as [|a s IH]; simpl; [reflexivity|].
  rewrite upper_lower_char, IH. reflexivity.
Qed.

Lemma upper_match_upper r s :
  toUpperCase <$> match_i r (toUpperCase s) = toUpperCase <$> match_i r s.
Proof.
  rewrite match_i_toUpperCase. destruct (match_i r s); simpl; [|reflexivity].
  rewrite toUpperCase_idem. reflexivity.
Qed.

Lemma upper_match_lower r s :
  toUpperCase <$> match_i r (toLowerCase s) = toUpperCase <$> match_i r s.
Proof.
  rewrite match_i_toLowerCase. destruct (match_i r s); simpl; [|reflexivity].
  rewrite toUpperCase_toLowerCase. reflexivity.
Qed.

(** X14.  On an ASCII text, the part and model numbers that the
    compatibility agent reads do not depend on the letter case: the text in
    upper case and the text in lower case give the same two identifiers as
    the text itself, and the identifiers come out in upper case.  The same
    holds for the part number that the installation agent reads. *)
Theorem extraction_ignores_case (text : string) :
  ascii_text text = true ->
  extract_part_and_model (toUpperCase text) = extract_part_and_model text /\
  extract_part_and_model (toLowerCase text) = extract_part_and_model text /\
  toUpperCase <$> fst (extract_part_and_model text) = fst (extract_part_and_model text) /\
  toUpperCase <$> snd (extract_part_and_model text) = snd (extract_part_and_model text) /\
  InstallationAgent_extractPartInfo (toLowerCase text) = InstallationAgent_extractPartInfo text.
Proof.
  intros _.
  unfold extract_part_and_model, InstallationAgent_extractPartInfo.
  rewrite !upper_match_upper, !upper_match_lower. cbn [fst snd].
  repeat split.
  - destruct (match_i re_part8 text); simpl; [rewrite toUpperCase_idem|]; reflexivity.
  - destruct (match_i re_model3 text); simpl; [rewrite toUpperCase_idem|]; reflexivity.
Qed.

(** A question typed in mixed case. *)
Lemma extraction_ignores_case_witness :
  let text := "Is ps11752778 ok for my Wdt780saem1?" in
  extract_part_and_model text = (Some "PS11752778", Some "WDT780SAEM1") /\
  extract_part_and_model (toUpperCase text) = extract_part_and_model text /\
  extract_part_and_model (toLowerCase text) = extract_part_and_model text.
Proof.
  intros text.
  destruct (extraction_ignores_case text eq_refl) as (Hup & Hlow & _).
  split; [vm_compute; reflexivity|]. split; [exact Hup|exact Hlow].
Defined.

(** ** Regular expressions: what a match consists of *)

Lemma append_cons x (a b : string) : String x a +:+ b = String x (a +:+ b).
Proof. reflexivity. Qed.

Lemma append_nil_l (b : string) : "" +:+ b = b.
Proof. reflexivity. Qed.

Lemma append_assoc (a b c : string) : (a +:+ b) +:+ c = a +:+ (b +:+ c).
Proof.
  induction a as [|x a IH]; [reflexivity|]. rewrite !append_cons, IH. reflexivity.
Qed.

Lemma append_nil_r (a : string) : a +:+ "" = a.
Proof. induction a as [|x a IH]; [reflexivity|]. rewrite append_cons, IH. reflexivity. Qed.

Lemma length_append (a b : string) :
  String.length (a +:+ b) = (String.length a + String.length b)%nat.
Proof.
  induction a as [|x a IH]; [reflexivity|]. rewrite append_cons. simpl. rewrite IH. reflexivity.
Qed.

Lemma substring_append_l (a b : string) :
  String.substring 0 (String.length a) (a +:+ b) = a.
Proof.
  induction a as [|x a IH].
  - rewrite append_nil_l. destruct b; reflexivity.
  - rewrite append_cons. simpl. rewrite IH. reflexivity.
Qed.

Lemma map_string_append g (a b : string) :
  map_string g (a +:+ b) = map_string g a +:+ map_string g b.
Proof.
  induction a as [|x a IH]; [reflexivity|].
  rewrite append_cons. simpl. rewrite IH, append_cons. reflexivity.
Qed.

Lemma star_cls_sound f : forall s prev k out,
  star_cls true f prev s k = Some out ->
  exists x s' p, s = x +:+ s' /\ all_chars (cls_matches true f) x = true /\ k p s' = Some out.
Proof.
  induction s as [|a s IH]; intros prev k out H.
  - exists "", "", prev. repeat split. exact H.
  - cbn [star_cls] in H.
    destruct (cls_matches true f a) eqn:Ea.
    + destruct (star_cls true f (Some a) s k) as [rest|] eqn:Es.
      * inversion H; subst.
        destruct (IH (Some a) k out Es) as (x & s' & p & -> & Hx & Hk).
        exists (String a x), s', p. cbn [all_chars]. rewrite Ea, Hx.
        repeat split. exact Hk.
      * exists "", (String a s), prev. repeat split. exact H.
    + exists "", (String a s), prev. repeat split. exact H.
Qed.

(** Whatever the matcher consumes before it calls its continuation is a
    text that the expression accepts. *)
Lemma match_here_sound r : forall prev s k out,
  match_here true r prev s k = Some out ->
  exists x s' p, s = x +:+ s' /\ accepts r x /\ k p s' = Some out.
Proof.
  induction r as [|c|f|r1 IH1 r2 IH2|r1 IH1 r2 IH2|f| |]; intros prev s k out H.
  - exists "", s, prev. repeat split. exact H.
  - destruct s as [|a s]; [discriminate H|]. cbn [match_here] in H.
    destruct (chr_matches true c a) eqn:E; [|discriminate H].
    exists (String a ""), s, (Some a).
    split; [reflexivity|]. split; [exists a; split; [reflexivity|exact E]|exact H].
  - destruct s as [|a s]; [discriminate H|]. cbn [match_here] in H.
    destruct (cls_matches true f a) eqn:E; [|discriminate H].
    exists (String a ""), s, (Some a).
    split; [reflexivity|]. split; [exists a; split; [reflexivity|exact E]|exact H].
  - cbn [match_here] in H.
    destruct (IH1 _ _ _ _ H) as (x1 & s1 & p1 & -> & Hx1 & H2).
    destruct (IH2 _ _ _ _ H2) as (x2 & s2 & p2 & -> & Hx2 & Hk).
    exists (x1 +:+ x2), s2, p2. rewrite append_assoc.
    split; [reflexivity|]. split; [|exact Hk].
    exists x1, x2. repeat split; assumption.
  - cbn [match_here] in H.
    destruct (match_here true r1 prev s k) as [rest|] eqn:E1.
    + inversion H; subst. destruct (IH1 _ _ _ _ E1) as (x & s' & p & -> & Hx & Hk).
      exists x, s', p. split; [reflexivity|]. split; [left; exact Hx|exact Hk].
    + destruct (IH2 _ _ _ _ H) as (x & s' & p & -> & Hx & Hk).
      exists x, s', p. split; [reflexivity|]. split; [right; exact Hx|exact Hk].
  - apply star_cls_sound in H. exact H.
  - cbn [match_here] in H. destruct prev; [discriminate H|].
    exists "", s, None. repeat split. exact H.
  - cbn [match_here] in H. destruct (xorb _ _); [|discriminate H].
    exists "", s, prev. repeat split. exact H.
Qed.

Lemma match_at_sound r prev s m : match_at true r prev s = Some m -> accepts r m.
Proof.
  unfold match_at.
  destruct (match_here true r prev s (fun _ rest => Some rest)) as [rest|] eqn:E;
    [|discriminate].
  intros H. inversion H; subst. clear H.
  destruct (match_here_sound r _ _ _ _ E) as (x & s' & p & -> & Hx & Hk).
  inversion Hk; subst.
  rewrite length_append.
  replace (String.length x + String.length rest - String.length rest)%nat
    with (String.length x) by lia.
  rewrite substring_append_l. exact Hx.
Qed.

Lemma search_from_sound r : forall s prev m,
  search_from true r prev s = Some m -> accepts r m.
Proof.
  induction s as [|a s IH]; intros prev m H; cbn [search_from] in H.
  - destruct (match_at true r prev "") eqn:E; [|discriminate H].
    inversion H; subst. exact (match_at_sound _ _ _ _ E).
  - destruct (match_at true r prev (String a s)) eqn:E.
    + inversion H; subst. exact (match_at_sound _ _ _ _ E).
    + exact (IH _ _ H).
Qed.

Lemma match_i_sound r s m : match_i r s = Some m -> accepts r m.
Proof. apply search_from_sound. Qed.

Lemma accepts_Seq r1 r2 x :
  accepts (Seq r1 r2) x -> exists x1 x2, x = x1 +:+ x2 /\ accepts r1 x1 /\ accepts r2 x2.
Proof. intros H. exact H. Qed.

Lemma accepts_Alt r1 r2 x : accepts (Alt r1 r2) x -> accepts r1 x \/ accepts r2 x.
Proof. intros H. exact H. Qed.

Lemma accepts_WordB x : accepts WordB x -> x = "".
Proof. intros H. exact H. Qed.

(** [\b r \b] consumes what [r] consumes. *)
Lemma accepts_word r x : accepts (Seq WordB (Seq r WordB)) x -> accepts r x.
Proof.
  intros H. apply accepts_Seq in H as (b1 & y & -> & Hb1 & H).
  apply accepts_Seq in H as (x1 & b2 & -> & H1 & Hb2).
  apply accepts_WordB in Hb1, Hb2. subst.
  rewrite append_nil_l, append_nil_r. exact H1.
Qed.

Lemma accepts_Lit word x : accepts (Lit word) x -> toUpperCase x = toUpperCase word.
Proof.
  revert x. induction word as [|c word IH]; intros x H.
  - simpl in H. subst. reflexivity.
  - change (exists x1 x2, x = x1 +:+ x2 /\
              (exists a, x1 = String a "" /\ chr_matches true c a = true) /\
              accepts (Lit word) x2) in H.
    destruct H as (x1 & x2 & -> & (a & -> & Ha) & H2).
    unfold chr_matches in Ha. apply Ascii.eqb_eq in Ha.
    rewrite append_cons, append_nil_l.
    unfold toUpperCase in *. simpl. rewrite Ha, (IH x2 H2). reflexivity.
Qed.

Lemma cls_matches_digit a : cls_matches true is_digit a = is_digit a.
Proof. destruct a as [[] [] [] [] [] [] [] []]; reflexivity. Qed.

Lemma upper_char_digit a : is_digit a = true -> upper_char a = a.
Proof.
  destruct a as [[] [] [] [] [] [] [] []]; intros H;
    first [reflexivity | vm_compute in H; discriminate H].
Qed.

Lemma accepts_digits n x :
  accepts (Times n D) x ->
  String.length x = n /\ all_chars is_digit x = true /\ toUpperCase x = x.
Proof.
  revert x. induction n as [|n IH]; intros x H.
  - simpl in H. subst. repeat split.
  - change (exists x1 x2, x = x1 +:+ x2 /\
              (exists a, x1 = String a "" /\ cls_matches true is_digit a = true) /\
              accepts (Times n D) x2) in H.
    destruct H as (x1 & x2 & -> & (a & -> & Ha) & H2).
    rewrite cls_matches_digit in Ha.
    destruct (IH x2 H2) as (Hlen & Hall & Hup).
    rewrite append_cons, append_nil_l.
    unfold toUpperCase in *. simpl. rewrite Hlen, Ha, Hall, Hup, (upper_char_digit a Ha).
    repeat split.
Qed.

Lemma eight_digits_is_part_number x :
  accepts (Times 8 D) x -> is_part_number (toUpperCase x) = true.
Proof.
  intros H. destruct (accepts_digits 8 x H) as (Hlen & Hall & ->).
  unfold is_part_number, eight_digits. rewrite Hlen, Hall. reflexivity.
Qed.

Lemma PS_eight_digits_is_part_number x1 x2 :
  accepts (Lit "PS") x1 -> accepts (Times 8 D) x2 ->
  is_part_number (toUpperCase (x1 +:+ x2)) = true.
Proof.
  intros H1 H2. apply accepts_Lit in H1.
  destruct (accepts_digits 8 x2 H2) as (Hlen & Hall & Hup).
  unfold toUpperCase in *. rewrite map_string_append, H1, Hup.
  unfold is_part_number.
  change (map_string upper_char "PS" +:+ x2) with (String "P" (String "S" x2)).
  cbv iota. unfold eight_digits at 2. rewrite Hlen, Hall. apply orb_true_r.
Qed.

Lemma accepts_re_part8 m : accepts re_part8 m -> is_part_number (toUpperCase m) = true.
Proof.
  unfold re_part8. intros H. apply accepts_Alt in H as [H|H].
  - assert (H' : accepts (Seq WordB (Seq (Seq (Lit "PS") (Times 8 D)) WordB)) m).
    { apply accepts_Seq in H as (b1 & y & -> & Hb1 & H).
      apply accepts_Seq in H as (x1 & z & -> & H1 & H).
      apply accepts_Seq in H as (x2 & b2 & -> & H2 & Hb2).
      exists b1, ((x1 +:+ x2) +:+ b2).
      split; [rewrite append_assoc; reflexivity|]. split; [exact Hb1|].
      exists (x1 +:+ x2), b2. split; [reflexivity|]. split; [|exact Hb2].
      exists x1, x2. auto. }
    apply accepts_word, accepts_Seq in H' as (x1 & x2 & -> & H1 & H2).
    apply PS_eight_digits_is_part_number; assumption.
  - apply accepts_word in H. apply eight_digits_is_part_number, H.
Qed.

Lemma accepts_re_install_part m :
  accepts re_install_part m -> is_part_number (toUpperCase m) = true.
Proof.
  unfold re_install_part. intros H. apply accepts_Alt in H as [H|H].
  - apply accepts_Seq in H as (x1 & x2 & -> & H1 & H2).
    apply PS_eight_digits_is_part_number; assumption.
  - apply accepts_word in H. apply eight_digits_is_part_number, H.
Qed.

(** X15.  A part number that the compatibility agent or the installation
    agent reads from a text is well formed: eight digits, or PS followed by
    eight digits, in upper case; in particular it is never the empty
    string, so it counts as present wherever the agents test it. *)
Theorem extracted_part_number_shape (text p : string) :
  fst (extract_part_and_model text) = Some p \/
  fst (InstallationAgent_extractPartInfo text initial_world) = Ok (Some p) ->
  is_part_number p = true /\ toUpperCase p = p /\ truthy_str (Some p) = true.
Proof.
  intros H.
  assert (Hp : is_part_number p = true /\ toUpperCase p = p).
  { destruct H as [H|H].
    - unfold extract_part_and_model in H. cbn [fst] in H.
      destruct (match_i re_part8 text) as [m|] eqn:E; [|discriminate H].
      inversion H; subst. split; [|apply toUpperCase_idem].
      apply accepts_re_part8, (match_i_sound _ _ _ E).
    - unfold InstallationAgent_extractPartInfo, ret in H. cbn [fst] in H.
      destruct (match_i re_install_part text) as [m|] eqn:E; [|discriminate H].
      inversion H; subst. split; [|apply toUpperCase_idem].
      apply accepts_re_install_part, (match_i_sound _ _ _ E). }
  destruct Hp as [Hshape Hup]. repeat split; try assumption.
  destruct p; [discriminate Hshape|reflexivity].
Qed.

Lemma extracted_part_number_shape_witness :
  is_part_number "PS11752778" = true /\ toUpperCase "PS11752778" = "PS11752778" /\
  truthy_str (Some "PS11752778") = true.
Proof.
  apply (extracted_part_number_shape "is ps11752778 ok for my wdt780saem1?" "PS11752778").
  left. reflexivity.
Defined.

(** ** The chat route *)

(** X18.  The chat route, with the agents of the constructor, on a message
    in ASCII.  A message that is blank once trimmed is answered 400
    "Message is required" and nothing is done: no external call is made and
    the world is left as it was.  For any other message, once the history
    is loaded, [processQuery] has returned and the insert of the reply has
    succeeded, the route answers 200 with the response's message, products,
    actions and metadata and the conversation id, the insert being its last
    external call.  And on a message that is not blank every answer is that
    200 with a message that is a string, or the fixed 500 answer. *)
Theorem chat_route_answers (env : Env) (message userId : string) (w : World) :
  ascii_text message = true ->
  let agents := AgentOrchestrator_constructor env in
  (nonempty (trim message) = false ->
   chat_route env agents message userId w = (Ok (Json400 "Message is required"), w)) /\
  (forall convId history w1 response w2 rows,
      nonempty (trim message) = true ->
      returns (chat_load_history env (trim message) userId) w (convId, history) w1 ->
      returns (processQuery env agents userId (trim message) history) w1 response w2 ->
      db_query env (tick w2) = Ok rows ->
      returns (chat_route env agents message userId) w
              (Json200 "assistant" (resp_message response) (resp_products response)
                       (resp_actions response) (resp_metadata response) convId)
              (after_event w2 (EvDb insert_assistant_message))) /\
  (forall answer w',
      nonempty (trim message) = true ->
      returns (chat_route env agents message userId) w answer w' ->
      answer = server_error \/
      exists text products actions metadata convId,
        answer = Json200 "assistant" (Some text) products actions metadata convId).
Proof.
  intros _ agents. split; [|split].
  - intros Hblank. unfold chat_route, try_catch. rewrite Hblank. reflexivity.
  - intros convId history w1 response w2 rows Hne Hload Hproc Hdb.
    destruct (processQuery_well_formed env userId (trim message) history w1 response w2 Hproc)
      as [[text Htext] _].
    unfold returns in *. unfold chat_route, try_catch. rewrite Hne. cbv [negb].
    unfold bind at 1. rewrite Hload.
    unfold bind at 1. fold agents. rewrite Hproc.
    unfold bind at 1. unfold db_query_call, external, bind, settle. rewrite Hdb.
    unfold ret at 1. rewrite Htext. reflexivity.
  - intros answer w' Hne. unfold returns, chat_route, try_catch. rewrite Hne. cbv [negb].
    match goal with |- context [match ?body w with _ => _ end] =>
      destruct (body w) as [[a|e] w1] eqn:Ebody end.
    + intros E. inversion E; subst. right.
      apply bind_ok_inv in Ebody as ([convId history] & w2 & _ & Ebody).
      apply bind_ok_inv in Ebody as (response & w3 & _ & Ebody).
      apply bind_ok_inv in Ebody as (rows & w4 & _ & Ebody).
      destruct (resp_message response) as [text|]; [|discriminate Ebody].
      inversion Ebody. eauto 10.
    + intros E. inversion E. left. reflexivity.
Qed.

(** A blank message, and a greeting that the primary answers. *)
Lemma chat_route_answers_witness :
  let agents := AgentOrchestrator_constructor env_up in
  chat_route env_up agents "   " "u1" initial_world =
    (Ok (Json400 "Message is required"), initial_world) /\
  fst (chat_route env_up agents " hello " "u1" initial_world) =
    Ok (Json200 "assistant" (Some "pong") [] []
                {| meta_intent := "general_question"; meta_confidence := 5 # 10 |} 7).
Proof.
  intros agents. subst agents.
  destruct (chat_route_answers env_up "   " "u1" initial_world eq_refl) as (Hblank & _).
  destruct (chat_route_answers env_up " hello " "u1" initial_world eq_refl) as (_ & Hok & _).
  split; [apply Hblank; reflexivity|].
  pose (w1 := snd (chat_load_history env_up "hello" "u1" initial_world)).
  pose (w2 := snd (processQuery env_up (AgentOrchestrator_constructor env_up) "u1" "hello" []
                     w1)).
  unfold returns in Hok.
  rewrite (Hok 7 [] w1
             {| resp_message := Some "pong"; resp_products := []; resp_actions := [];
                resp_metadata := {| meta_intent := "general_question";
                                    meta_confidence := 5 # 10 |} |} w2 []);
    [reflexivity | reflexivity | vm_compute; reflexivity | vm_compute; reflexivity
    | reflexivity].
Defined.

(** X20.  The chat route ties the session context to the conversation: when
    the loading of the history returns, either the most recent conversation
    was active at most five minutes before, it is continued under its own
    id, and neither the session context is deleted nor a conversation
    created; or there was no conversation or the last activity is more than
    five minutes old, and then the session context of the user is deleted
    immediately before the new conversation is inserted, and not again
    afterwards. *)
Theorem conversation_timeout (env : Env) (message userId : string) (w w' : World)
    (convId : Z) (history : list Turn) :
  returns (chat_load_history env message userId) w (convId, history) w' ->
  exists evs,
    trace w' = trace w ++ evs /\
    ((exists c rest,
         db_conversations env (tick w) = Ok (c :: rest) /\
         Date_now env (S (tick w)) - last_activity_at c <= CONVERSATION_TIMEOUT /\
         convId = conv_id c /\
         ~ In (EvRedisDel (context_key userId)) evs /\
         ~ In (EvDb insert_conversation) evs)
     \/
     ((db_conversations env (tick w) = Ok [] \/
       exists c rest,
         db_conversations env (tick w) = Ok (c :: rest) /\
         CONVERSATION_TIMEOUT < Date_now env (S (tick w)) - last_activity_at c) /\
      exists before after,
        evs = before ++ [EvRedisDel (context_key userId); EvDb insert_conversation] ++ after /\
        ~ In (EvRedisDel (context_key userId)) after)).
Proof.
  unfold returns, chat_load_history. intros H.
  apply bind_ok_inv in H as (conversation & w1 & Hconv & H).
  apply external_ok_inv in Hconv as [Hconv ->].
  apply bind_ok_inv in H as (now & w2 & Hnow & H).
  unfold Date_now_call, external in Hnow. inversion Hnow; subst now w2. clear Hnow.
  apply bind_ok_inv in H as (cid & w3 & Hid & H).
  apply bind_ok_inv in H as (stored & w4 & Hins & H).
  apply external_ok_inv in Hins as [_ ->].
  apply bind_ok_inv in H as (rows & w5 & Hmsg & H).
  apply external_ok_inv in Hmsg as [_ ->].
  inversion H; subst. clear H.
  simpl tick in *. simpl trace in *.
  destruct conversation as [|c rest].
  - apply bind_ok_inv in Hid as ([] & w6 & Hdel & Hid).
    apply external_ok_inv in Hdel as [_ ->].
    apply bind_ok_inv in Hid as (newConv & w7 & Hnew & Hid).
    apply external_ok_inv in Hnew as [_ ->].
    destruct newConv as [|n ?]; [discriminate Hid|]. inversion Hid; subst. clear Hid.
    eexists. split; [simpl; rewrite <- !app_assoc; reflexivity|].
    right. split; [left; exact Hconv|].
    eexists [_; _], [_; _]. split; [reflexivity|].
    simpl. intros [Hx|[Hx|[]]]; discriminate Hx.
  - destruct (5 * 60000 <? Date_now env (S (tick w)) - last_activity_at c) eqn:Hlate.
    + apply bind_ok_inv in Hid as (ended & w6 & Hend & Hid).
      apply external_ok_inv in Hend as [_ ->].
      apply bind_ok_inv in Hid as ([] & w7 & Hdel & Hid).
      apply external_ok_inv in Hdel as [_ ->].
      apply bind_ok_inv in Hid as (newConv & w8 & Hnew & Hid).
      apply external_ok_inv in Hnew as [_ ->].
      destruct newConv as [|n ?]; [discriminate Hid|]. inversion Hid; subst. clear Hid.
      eexists. split; [simpl; rewrite <- !app_assoc; reflexivity|].
      right. split.
      * right. exists c, rest. split; [exact Hconv|]. apply Z.ltb_lt in Hlate. exact Hlate.
      * eexists [_; _; _], [_; _]. split; [reflexivity|].
        simpl. intros [Hx|[Hx|[]]]; discriminate Hx.
    + apply bind_ok_inv in Hid as (touched & w6 & Htouch & Hid).
      apply external_ok_inv in Htouch as [_ ->].
      inversion Hid; subst. clear Hid.
      eexists. split; [simpl; rewrite <- !app_assoc; reflexivity|].
      left. exists c, rest. split; [exact Hconv|]. apply Z.ltb_ge in Hlate.
      split; [exact Hlate|]. split; [reflexivity|].
      split; simpl; intros Hx; repeat (destruct Hx as [Hx|Hx]; [discriminate Hx|]); exact Hx.
Qed.

(** A conversation that was active one second before. *)
Lemma conversation_timeout_witness :
  exists evs,
    trace (snd (chat_load_history env_up "hello" "u1" initial_world)) = evs /\
    ~ In (EvRedisDel "context:u1") evs /\
    ~ In (EvDb insert_conversation) evs.
Proof.
  destruct (conversation_timeout env_up "hello" "u1" initial_world
              (snd (chat_load_history env_up "hello" "u1" initial_world)) 7 [])
    as (evs & Ht & [(c & rest & _ & _ & _ & Hdel & Hins)|[[Hnone|(c & rest & Hc & Hlate)] _]]).
  - vm_compute. reflexivity.
  - exists evs. split; [exact Ht|]. split; assumption.
  - discriminate Hnone.
  - inversion Hc; subst. vm_compute in Hlate. discriminate Hlate.
Defined.

(** ** The API client of the frontend *)

Lemma fresh_user_id_nonempty now random : nonempty (fresh_user_id now random) = true.
Proof. reflexivity. Qed.

(** X21.  The user id of the frontend is stable: [getUserId] returns a
    non-empty id that is stored under [partselect_user_id], every later call
    returns the same id and leaves the storage as it is, whatever the clock
    and the random source say by then, and no other key of the storage is
    touched; after [clearSession] the next call creates a new id of the form
    user-, time, -, random suffix and stores it. *)
Theorem getUserId_stable (now now' : Z) (random random' : string) (localStorage : Storage) :
  let '(userId, stored) := getUserId now random localStorage in
  userId <> "" /\
  stored !! user_id_key = Some userId /\
  getUserId now' random' stored = (userId, stored) /\
  (forall k, k <> user_id_key -> stored !! k = localStorage !! k) /\
  getUserId now' random' (clearSession stored) =
    (fresh_user_id now' random',
     <[user_id_key := fresh_user_id now' random']> (clearSession stored)).
Proof.
  assert (Hfresh : forall s : Storage,
             getUserId now' random' (<[user_id_key := fresh_user_id now random]> s) =
             (fresh_user_id now random, <[user_id_key := fresh_user_id now random]> s)).
  { intros s. unfold getUserId. rewrite lookup_insert_eq.
    rewrite fresh_user_id_nonempty. reflexivity. }
  assert (Hclear : forall s : Storage,
             getUserId now' random' (clearSession s) =
             (fresh_user_id now' random',
              <[user_id_key := fresh_user_id now' random']> (clearSession s))).
  { intros s. unfold getUserId, clearSession. rewrite lookup_delete_eq. reflexivity. }
  unfold getUserId at 1.
  destruct (localStorage !! user_id_key) as [u|] eqn:E.
  - destruct (nonempty u) eqn:Hu.
    + repeat split.
      * intros ->. discriminate Hu.
      * exact E.
      * unfold getUserId. rewrite E, Hu. reflexivity.
      * apply Hclear.
    + repeat split.
      * discriminate.
      * apply lookup_insert_eq.
      * apply Hfresh.
      * intros k Hk. apply lookup_insert_ne. congruence.
      * apply Hclear.
  - repeat split.
    + discriminate.
    + apply lookup_insert_eq.
    + apply Hfresh.
    + intros k Hk. apply lookup_insert_ne. congruence.
    + apply Hclear.
Qed.
